(** * split_schema.py: the GraphQL schema splitter, embedded and verified

    The development follows [src/split_schema.py].  The script reads one
    schema document, cuts it into declaration blocks with [re.split],
    sorts every block into one of the files of [FILE_MAPPINGS] (first
    matching pattern, else a keyword heuristic), patches the [Game] type
    and writes one file per category.

    Conventions of the embedding.
    - A Python [str] is a [list ascii]; a character is read as the code
      point of the same number (U+0000 .. U+00FF).  Documents with code
      points above U+00FF are outside the model.
    - The [re] module is embedded as a small backtracking matcher over a
      regular-expression syntax tree; every pattern of the script is
      written as such a tree, constructor by constructor.
    - The file system and the console are a [World]: a map from paths to
      nodes and the ordered log of the calls the script made.  The map is
      read through [fs], which resolves a path through the directories it
      lies in, as the system calls do.  The script is a computation in a
      state-and-exception monad over [World].
    - POSIX is assumed (path separator [/], no newline translation on
      output), and Python 3.7 or later ([re.split] on empty matches). *)

From Stdlib Require Import Ascii String List Bool Arith ZArith Lia Permutation.
From Stdlib Require Import DecimalString.
Import ListNotations.

(* ================================================================== *)
(** * Python strings *)
(* ================================================================== *)

Module Py.

Definition str := list ascii.

(** A literal of the source, written as a Rocq string. *)
Definition txt (x : string) : str := list_ascii_of_string x.
Arguments txt : simpl never.

Definition LF : ascii := ascii_of_nat 10.
Definition CR : ascii := ascii_of_nat 13.
Definition TAB : ascii := ascii_of_nat 9.

Fixpoint str_eqb (a b : str) : bool :=
  match a, b with
  | [], [] => true
  | x :: a', y :: b' => Ascii.eqb x y && str_eqb a' b'
  | _, _ => false
  end.

(** [str.isspace] on one character, which is also the class [\s] of
    [re] on a [str] pattern: for the code points below 256 these are
    9-13, 28-32, 133 and 160. *)
Definition isspace (c : ascii) : bool :=
  let n := nat_of_ascii c in
  ((9 <=? n) && (n <=? 13)) || ((28 <=? n) && (n <=? 32))
  || (n =? 133) || (n =? 160).

(** The class [\w] of [re] on a [str] pattern: alphanumeric or [_].
    Below 256 the alphanumerics are the ASCII digits and letters,
    U+00AA, U+00B2, U+00B3, U+00B5, U+00B9, U+00BA, U+00BC-U+00BE and
    the letters U+00C0-U+00FF without the two signs U+00D7 and U+00F7. *)
Definition isword (c : ascii) : bool :=
  let n := nat_of_ascii c in
  ((48 <=? n) && (n <=? 57)) || ((65 <=? n) && (n <=? 90)) || (n =? 95)
  || ((97 <=? n) && (n <=? 122))
  || (n =? 170) || (n =? 178) || (n =? 179) || (n =? 181) || (n =? 185)
  || (n =? 186) || ((188 <=? n) && (n <=? 190))
  || ((192 <=? n) && (n <=? 255) && negb (n =? 215) && negb (n =? 247)).

(** [s.startswith(prefix)] *)
Fixpoint startswith (prefix s : str) : bool :=
  match prefix, s with
  | [], _ => true
  | p :: prefix', c :: s' => Ascii.eqb p c && startswith prefix' s'
  | _ :: _, [] => false
  end.

(** [sub in s] *)
Fixpoint contains (sub s : str) : bool :=
  startswith sub s ||
  match s with
  | [] => false
  | _ :: s' => contains sub s'
  end.

(** [s.lstrip()], [s.rstrip()] and [s.strip()] with no argument. *)
Fixpoint lstrip (s : str) : str :=
  match s with
  | c :: s' => if isspace c then lstrip s' else s
  | [] => []
  end.

Definition rstrip (s : str) : str := rev (lstrip (rev s)).

Definition strip (s : str) : str := rstrip (lstrip s).

(** [s.rfind(sub)]: the highest index at which [sub] starts, or -1.
    [rfind_from i] scans the suffix that starts at index [i]. *)
Fixpoint rfind_from (i : Z) (sub s : str) : Z :=
  let here := if startswith sub s then i else (-1)%Z in
  match s with
  | [] => here
  | _ :: s' =>
      let later := rfind_from (i + 1)%Z sub s' in
      if (later =? -1)%Z then here else later
  end.

Definition rfind (sub s : str) : Z := rfind_from 0%Z sub s.

(** A slice bound, as Python clamps it: a negative index counts from
    the end, and the result is kept within [0, len(s)]. *)
Definition slice_bound (s : str) (i : Z) : nat :=
  let n := Z.of_nat (length s) in
  Z.to_nat (Z.min n (Z.max 0 (if (i <? 0)%Z then n + i else i)%Z)).

(** [s[:i]] and [s[i:]] *)
Definition slice_to (s : str) (i : Z) : str := firstn (slice_bound s i) s.
Definition slice_from (s : str) (i : Z) : str := skipn (slice_bound s i) s.

(** [sep.join(parts)] *)
Fixpoint join (sep : str) (parts : list str) : str :=
  match parts with
  | [] => []
  | [p] => p
  | p :: ps => p ++ sep ++ join sep ps
  end.

(** [str(n)] for a length, as an f-string renders it. *)
Definition str_of_nat (n : nat) : str :=
  txt (NilEmpty.string_of_uint (Nat.to_uint n)).

(** What text mode does to line ends on input (universal newlines):
    [\r\n] and a lone [\r] both become [\n]. *)
Fixpoint universal_newlines (s : str) : str :=
  match s with
  | [] => []
  | c :: s' =>
      if Ascii.eqb c CR then
        match s' with
        | d :: s'' =>
            if Ascii.eqb d LF then LF :: universal_newlines s''
            else LF :: universal_newlines s'
        | [] => [LF]
        end
      else c :: universal_newlines s'
  end.

(** [os.path.join(a, b)] on POSIX. *)
Definition os_path_join (a b : str) : str :=
  if startswith (txt "/") b then b
  else if str_eqb a [] || Ascii.eqb (last a "/"%char) "/"%char then a ++ b
  else a ++ txt "/" ++ b.

End Py.

(* ================================================================== *)
(** * The [re] module *)
(* ================================================================== *)

Module Re.
Import Py.

(** The syntax of the patterns the script uses.  There are no capture
    groups: every group of the script is [(?:...)] or [(?=...)]. *)
Inductive regex : Type :=
| Chr (c : ascii)          (* a literal character *)
| Dot                      (* [.]  any character but a newline *)
| Space                    (* [\s] *)
| Word                     (* [\w] *)
| Bol                      (* [^]  start of the string (no MULTILINE) *)
| WordB                    (* [\b] *)
| Eps                      (* the empty pattern *)
| Seq (r1 r2 : regex)      (* r1r2 *)
| Alt (r1 r2 : regex)      (* r1|r2 *)
| Star (r : regex)         (* r*   greedy *)
| Ahead (r : regex).       (* (?=r) *)

(** [r+] *)
Definition Plus (r : regex) : regex := Seq r (Star r).

(** A literal run of characters. *)
Fixpoint Lit (s : str) : regex :=
  match s with
  | [] => Eps
  | [c] => Chr c
  | c :: s' => Seq (Chr c) (Lit s')
  end.

(** A sequence of patterns, and a choice among patterns. *)
Fixpoint Cat (rs : list regex) : regex :=
  match rs with
  | [] => Eps
  | [r] => r
  | r :: rs' => Seq r (Cat rs')
  end.

Fixpoint OneOf (r : regex) (rs : list regex) : regex :=
  match rs with
  | [] => r
  | r' :: rs' => Alt r (OneOf r' rs')
  end.

(** A position in the subject: the characters already passed, nearest
    first, and the characters still ahead. *)
Record cursor : Type := Cursor { seen : str; ahead : str }.

Definition at_word_boundary (c : cursor) : bool :=
  let before := match seen c with x :: _ => isword x | [] => false end in
  let after := match ahead c with x :: _ => isword x | [] => false end in
  xorb before after.

Definition eat (p : ascii -> bool) (c : cursor) : list cursor :=
  match ahead c with
  | x :: t => if p x then [Cursor (x :: seen c) t] else []
  | [] => []
  end.

(** The iterations of a greedy star.  An iteration that consumes nothing
    is not repeated, so [length (ahead c)] iterations are enough. *)
Fixpoint star_ends (fuel : nat) (step : cursor -> list cursor) (c : cursor)
  : list cursor :=
  match fuel with
  | O => [c]
  | S fuel' =>
      flat_map (star_ends fuel' step)
        (filter (fun c' => length (ahead c') <? length (ahead c)) (step c))
      ++ [c]
  end.

(** [ends r c]: every position at which a match of [r] that starts at
    [c] can end, in the order in which backtracking tries them. *)
Fixpoint ends (r : regex) (c : cursor) : list cursor :=
  match r with
  | Chr a => eat (Ascii.eqb a) c
  | Dot => eat (fun x => negb (Ascii.eqb x LF)) c
  | Space => eat isspace c
  | Word => eat isword c
  | Bol => match seen c with [] => [c] | _ :: _ => [] end
  | WordB => if at_word_boundary c then [c] else []
  | Eps => [c]
  | Seq r1 r2 => flat_map (ends r2) (ends r1 c)
  | Alt r1 r2 => ends r1 c ++ ends r2 c
  | Star r1 => star_ends (length (ahead c)) (ends r1) c
  | Ahead r1 => match ends r1 c with [] => [] | _ :: _ => [c] end
  end.

(** The match that starts at [c], if there is one. *)
Definition match_at (r : regex) (c : cursor) : option cursor :=
  hd_error (ends r c).

(** A match object: where the match starts and where it ends. *)
Definition span (m : cursor * cursor) : nat * nat :=
  (length (seen (fst m)), length (seen (snd m))).

(** The scan of [re.search]: the leftmost start with a match. *)
Fixpoint search_from (r : regex) (before after : str)
  : option (cursor * cursor) :=
  match match_at r (Cursor before after) with
  | Some e => Some (Cursor before after, e)
  | None =>
      match after with
      | [] => None
      | x :: after' => search_from r (x :: before) after'
      end
  end.

(** [re.search(pattern, string)] *)
Definition search (r : regex) (s : str) : option (cursor * cursor) :=
  search_from r [] s.

(** The truth value of a match object or [None] in an [if]. *)
Definition truthy {A} (m : option A) : bool :=
  match m with Some _ => true | None => false end.

(** The loop of [re.split(pattern, string)] with no capture groups and
    no [maxsplit].  [item] holds, nearest first, the characters since
    the end of the last match.  After an empty match the next match may
    not be empty at the same position ([must_advance]). *)
Fixpoint split_loop (fuel : nat) (r : regex) (before after item : str)
  (must_advance : bool) : list str :=
  match fuel with
  | O => [rev item ++ after]
  | S fuel' =>
      let here := Cursor before after in
      let allowed (e : cursor) :=
        negb (must_advance && (length (ahead e) =? length after)) in
      match filter allowed (ends r here) with
      | e :: _ =>
          rev item ::
          split_loop fuel' r (seen e) (ahead e) []
            (length (ahead e) =? length after)
      | [] =>
          match after with
          | [] => [rev item]
          | x :: after' =>
              split_loop fuel' r (x :: before) after' (x :: item) false
          end
      end
  end.

Definition split (r : regex) (s : str) : list str :=
  split_loop (2 * length s + 2) r [] s [] false.

End Re.

(* ================================================================== *)
(** * The operating system: files, directories, console *)
(* ================================================================== *)

Module OS.
Import Py.

Inductive node : Type :=
| Dir
| File (content : str).

(** The exceptions the calls of the script can raise. *)
Inductive exn : Type :=
| FileNotFoundError
| FileExistsError
| IsADirectoryError
| NotADirectoryError
| KeyError (key : str).

(** The calls the script makes, as the world sees them. *)
Inductive event : Type :=
| EExists (path : str)
| EMakedirs (path : str)
| EOpenRead (path : str)
| EOpenWrite (path : str)
| EWrite (path : str) (data : str)
| EPrint (line : str).

(** What the disk holds, path by path, and the calls made so far.
    Paths are relative to the working directory and written the way
    the script writes them: names joined by single [/]. *)
Record World : Type := MkWorld {
  nodes : str -> option node;
  log : list event            (* oldest first *)
}.

(** The directories a path goes through, outermost first: the part
    before each [/] of the path. *)
Fixpoint ancestors_from (passed path : str) : list str :=
  match path with
  | [] => []
  | c :: path' =>
      (if Ascii.eqb c "/" then
         match passed with
         | [] => []
         | _ :: _ => [rev passed]
         end
       else [])
      ++ ancestors_from (c :: passed) path'
  end.

Definition ancestors (path : str) : list str := ancestors_from [] path.

(** Why the walk through the directories [dirs] fails, if it does: the
    first of them that is missing ([ENOENT]) or is a regular file
    ([ENOTDIR]). *)
Fixpoint way_error (find : str -> option node) (dirs : list str)
  : option exn :=
  match dirs with
  | [] => None
  | d :: dirs' =>
      match find d with
      | Some Dir => way_error find dirs'
      | Some (File _) => Some NotADirectoryError
      | None => Some FileNotFoundError
      end
  end.

(** What is at a path: the path is resolved through its directories,
    so nothing is found below a missing directory or below a file. *)
Definition fs (w : World) (path : str) : option node :=
  match way_error (nodes w) (ancestors path) with
  | None => nodes w path
  | Some _ => None
  end.

Inductive outcome (A : Type) : Type :=
| Val (a : A)
| Exc (e : exn).
Arguments Val {A} a.
Arguments Exc {A} e.

(** A computation: it reads and changes the world, and either returns
    a value or raises. *)
Definition M (A : Type) : Type := World -> outcome A * World.

Definition ret {A} (a : A) : M A := fun w => (Val a, w).

Definition raise {A} (e : exn) : M A := fun w => (Exc e, w).

Definition bind {A B} (m : M A) (k : A -> M B) : M B :=
  fun w =>
    match m w with
    | (Val a, w') => k a w'
    | (Exc e, w') => (Exc e, w')
    end.

(** [try: m except ...]: the outcome of [m] as a value. *)
Definition try {A} (m : M A) : M (outcome A) :=
  fun w => let (r, w') := m w in (Val r, w').

Definition emit (e : event) : M unit :=
  fun w => (Val tt, MkWorld (nodes w) (log w ++ [e])).

(** A file is created at [path], or its content replaced. *)
Definition put (path : str) (n : node) : M unit :=
  fun w =>
    (Val tt,
     MkWorld (fun q => if str_eqb q path then Some n else nodes w q) (log w)).

(** A directory is created at [path]; a new directory is empty. *)
Definition new_dir (path : str) : M unit :=
  fun w =>
    (Val tt,
     MkWorld (fun q => if str_eqb q path then Some Dir
                       else if existsb (str_eqb path) (ancestors q) then None
                       else nodes w q) (log w)).

Definition stat (path : str) : M (option node) :=
  fun w => (Val (fs w path), w).

(** The walk to the directory that holds [path]; it raises when a
    directory on the way is missing or is a regular file. *)
Definition reach (path : str) : M unit :=
  fun w =>
    match way_error (nodes w) (ancestors path) with
    | None => (Val tt, w)
    | Some e => (Exc e, w)
    end.

End OS.

Declare Scope monad_scope.
Delimit Scope monad_scope with monad.
Notation "x <- m ;; k" := (OS.bind m (fun x => k))
  (at level 61, m at next level, right associativity) : monad_scope.
Notation "m ;; k" := (OS.bind m (fun _ => k))
  (at level 61, right associativity) : monad_scope.

(** The library calls of the script, on the world. *)
Module Lib.
Import Py OS.
Local Open Scope monad_scope.

(** [os.path.exists(path)] *)
Definition os_path_exists (path : str) : M bool :=
  emit (EExists path) ;;
  n <- stat path ;;
  ret (match n with Some _ => true | None => false end).

(** [os.mkdir(path)]: the directory that holds [path] must be there,
    and [path] itself must not. *)
Definition os_mkdir (path : str) : M unit :=
  reach path ;;
  n <- stat path ;;
  match n with
  | Some _ => raise FileExistsError
  | None => new_dir path
  end.

(** The work of [os.makedirs]: from the outermost directory inwards,
    each directory on the way that does not exist is made, then the
    leaf is made.  (The library finds the missing directories by
    recursion on the head of the path, testing [os.path.exists], and
    makes them on the way back, outermost first.)  A regular file on
    the way exists and is not made, so the next [mkdir] raises
    [NotADirectoryError]; a leaf that exists raises [FileExistsError]. *)
Fixpoint make_dirs (dirs : list str) (leaf : str) : M unit :=
  match dirs with
  | [] => os_mkdir leaf
  | d :: dirs' =>
      n <- stat d ;;
      match n with
      | Some _ => ret tt
      | None => os_mkdir d
      end ;;
      make_dirs dirs' leaf
  end.

(** [os.makedirs(path)] *)
Definition os_makedirs (path : str) : M unit :=
  emit (EMakedirs path) ;;
  make_dirs (ancestors path) path.

(** [print(line)] *)
Definition print (line : str) : M unit := emit (EPrint line).

(** [with open(path, 'r') as f: f.read()] *)
Definition read_text (path : str) : M str :=
  emit (EOpenRead path) ;;
  reach path ;;
  n <- stat path ;;
  match n with
  | Some (File content) => ret (universal_newlines content)
  | Some Dir => raise IsADirectoryError
  | None => raise FileNotFoundError
  end.

(** [open(path, 'w')]: the file is created or emptied.  The directory
    it lies in must be there, and the path may not name a directory. *)
Definition open_w (path : str) : M unit :=
  emit (EOpenWrite path) ;;
  reach path ;;
  n <- stat path ;;
  match n with
  | Some Dir => raise IsADirectoryError
  | _ => put path (File [])
  end.

(** [f.write(data)] on the file opened at [path]. *)
Definition f_write (path : str) (data : str) : M unit :=
  emit (EWrite path data) ;;
  n <- stat path ;;
  match n with
  | Some (File content) => put path (File (content ++ data))
  | _ => ret tt
  end.

End Lib.

(** Python's insertion-ordered [dict] from file names to lists of
    blocks: an association list with distinct keys, oldest key first. *)
Module Dict.
Import Py OS.

Definition dict : Type := list (str * list str).

Definition keys {V} (d : list (str * V)) : list str := map fst d.

(** [d[k]] *)
Fixpoint getitem (d : dict) (k : str) : option (list str) :=
  match d with
  | [] => None
  | (k', v) :: d' => if str_eqb k' k then Some v else getitem d' k
  end.

(** [d[k] = v]: an existing key keeps its place, a new key goes last. *)
Fixpoint setitem (d : dict) (k : str) (v : list str) : dict :=
  match d with
  | [] => [(k, v)]
  | (k', v') :: d' =>
      if str_eqb k' k then (k', v) :: d' else (k', v') :: setitem d' k v
  end.

(** [d[k].append(x)]: the lookup raises [KeyError] on a missing key; the
    list is changed in place, so the dictionary holds the longer list. *)
Definition append_at (d : dict) (k : str) (x : str) : M dict :=
  match getitem d k with
  | Some v => ret (setitem d k (v ++ [x]))
  | None => raise (KeyError k)
  end.

End Dict.

(* ================================================================== *)
(** * The script *)
(* ================================================================== *)

Import Py Re OS Lib Dict.
Local Open Scope monad_scope.
Local Open Scope char_scope.

Definition DQ : ascii := ascii_of_nat 34.

(** === CONFIGURATION === *)
Definition SOURCE_FILE : str :=
  txt "amplify/backend/api/kingsroom/schema.graphql".
Definition OUTPUT_DIR : str := txt "amplify/backend/api/kingsroom/schema".

(** Content to add to the Game type: the lines of the triple-quoted
    literal, which opens with a newline and closes after one. *)
Definition GAME_ADDITIONS : str :=
  join [LF] [
    [];
    txt "  # === RECURRING GAME RELATIONSHIP (NEW) ===";
    txt "  # Link to the canonical recurring game (if this is a regular game instance)";
    txt "  recurringGameId: ID ";
    txt "    @index(name: " ++ [DQ] ++ txt "byRecurringGame" ++ [DQ]
      ++ txt ", sortKeyFields: [" ++ [DQ] ++ txt "gameStartDateTime" ++ [DQ]
      ++ txt "])";
    txt "  recurringGame: RecurringGame @belongsTo(fields: [" ++ [DQ]
      ++ txt "recurringGameId" ++ [DQ] ++ txt "])";
    txt "  ";
    txt "  # === RECURRING GAME ASSIGNMENT (NEW) ===";
    txt "  recurringGameAssignmentConfidence: Float";
    txt "  recurringGameAssignmentStatus: RecurringGameAssignmentStatus ";
    txt "    @default(value: " ++ [DQ] ++ txt "PENDING_ASSIGNMENT" ++ [DQ]
      ++ txt ")";
    txt "  ";
    txt "  # === SCHEDULE TRACKING (NEW) ===";
    txt "  wasScheduledInstance: Boolean @default(value: " ++ [DQ]
      ++ txt "false" ++ [DQ] ++ txt ")";
    txt "  deviationNotes: String";
    txt "  ";
    txt "  # === INSTANCE METADATA (NEW) ===";
    txt "  instanceNumber: Int ";
    txt "  isReplacementInstance: Boolean @default(value: " ++ [DQ]
      ++ txt "false" ++ [DQ] ++ txt ")";
    txt "  replacementReason: String";
    []
  ].
Arguments GAME_ADDITIONS : simpl never.

(** Regex mappings to sort types into files, in the order of the
    dictionary literal.  Every pattern opens with [^]. *)
Definition FILE_MAPPINGS : list (str * list regex) := [
  (txt "10-entities.graphql",
   [Cat [Bol; Lit (txt "type Entity"); WordB];
    Cat [Bol; Lit (txt "type BackgroundTask"); WordB]]);
  (txt "20-venues.graphql",
   [Cat [Bol; Lit (txt "type Venue"); WordB];
    Cat [Bol; Lit (txt "type VenueDetails"); WordB];
    Cat [Bol; Lit (txt "type VenueMetricsResult"); WordB];
    Cat [Bol; Lit (txt "type VenueMetricsPreview"); WordB];
    Cat [Bol; Lit (txt "input RecalculateVenueDetails")]]);
  (txt "30-games.graphql",
   [Cat [Bol; Lit (txt "type Game"); WordB];
    Cat [Bol; Lit (txt "type GameCost")];
    Cat [Bol; Lit (txt "type GameFinancialSnapshot")];
    Cat [Bol; Lit (txt "type TournamentStructure")];
    Cat [Bol; Lit (txt "type TournamentLevelData")];
    Cat [Bol; Lit (txt "type CashStructure")];
    Cat [Bol; Lit (txt "type RakeStructure")];
    Cat [Bol; Lit (txt "type Consolidation")];
    Cat [Bol; Lit (txt "input SaveGame")];
    Cat [Bol; Lit (txt "input GamePreview")]]);
  (txt "40-tournaments.graphql",
   [Cat [Bol; Lit (txt "type TournamentSeries")]]);
  (txt "50-players.graphql",
   [Cat [Bol; Lit (txt "type Player")];
    Cat [Bol; Lit (txt "type KnownPlayerIdentity")];
    Cat [Bol; Lit (txt "type Ticket")];
    Cat [Bol; Lit (txt "type MarketingMessage")];
    Cat [Bol; Lit (txt "type PlayerMarketing")]]);
  (txt "60-financials.graphql",
   [Cat [Bol; Lit (txt "type CostItem")];
    Cat [Bol; Lit (txt "type GameCostLineItem")]]);
  (txt "80-scrapers.graphql",
   [Cat [Bol; Lit (txt "type Scraper")];
    Cat [Bol; Lit (txt "type Scrape")];
    Cat [Bol; Lit (txt "type S3")];
    Cat [Bol; Lit (txt "type DataSync")];
    Cat [Bol; Lit (txt "input Scrape")];
    Cat [Bol; Lit (txt "input SaveTournament")];
    Cat [Bol; Lit (txt "type Gap")];
    Cat [Bol; Lit (txt "type CachingStats")]]);
  (txt "85-social.graphql",
   [Cat [Bol; Lit (txt "type Social")];
    Cat [Bol; Lit (txt "input Social")];
    Cat [Bol; Lit (txt "input AddSocial")];
    Cat [Bol; Lit (txt "input UpdateSocial")];
    Cat [Bol; Lit (txt "input SchedulePost")]]);
  (txt "90-staff.graphql",
   [Cat [Bol; Lit (txt "type User")];
    Cat [Bol; Lit (txt "type Staff")];
    Cat [Bol; Lit (txt "type Asset")];
    Cat [Bol; Lit (txt "input CreateUser")];
    Cat [Bol; Lit (txt "input UpdateUser")]]);
  (* Catch-all for Mutations, Queries, Subscriptions *)
  (txt "99-mutations.graphql",
   [Cat [Bol; Lit (txt "type Query")];
    Cat [Bol; Lit (txt "type Mutation")];
    Cat [Bol; Lit (txt "type Subscription")];
    Cat [Bol; Lit (txt "type "); Star Dot; Lit (txt "Response")];
    Cat [Bol; Lit (txt "type "); Star Dot; Lit (txt "Connection")]])
].

(** [(?=\n(?:#.*\n)*\s*(?:type|input|enum|interface|union|scalar)\s+\w+)] *)
Definition pattern_body : regex :=
  Cat [
    Chr LF;
    Star (Cat [Chr "#"; Star Dot; Chr LF]);
    Star Space;
    OneOf (Lit (txt "type"))
      [Lit (txt "input"); Lit (txt "enum"); Lit (txt "interface");
       Lit (txt "union"); Lit (txt "scalar")];
    Plus Space;
    Plus Word
  ].

Definition pattern : regex := Ahead pattern_body.

(** The variables of the block loop that its body changes. *)
Record locals : Type := Locals {
  block : str;
  assigned : bool;
  files_content : dict
}.

(** [for pat in patterns: ...] for one [filename]; the [break] ends the
    recursion. *)
Fixpoint for_pat (filename : str) (patterns : list regex) (l : locals)
  : M locals :=
  match patterns with
  | [] => ret l
  | pat :: patterns' =>
      if truthy (search pat (block l)) then
        (* SPECIAL HANDLING: Patch Game type *)
        block' <-
          (if contains (txt "type Game @model") (block l)
              && str_eqb filename (txt "30-games.graphql")
           then
             print (txt "  >> Found Game type. Patching with new fields...") ;;
             (* Find the last closing brace *)
             let last_brace_idx := rfind (txt "}") (block l) in
             if negb (last_brace_idx =? -1)%Z then
               ret (slice_to (block l) last_brace_idx ++ GAME_ADDITIONS
                    ++ slice_from (block l) last_brace_idx)
             else ret (block l)
           else ret (block l)) ;;
        files_content' <- append_at (files_content l) filename block' ;;
        ret (Locals block' true files_content')
      else for_pat filename patterns' l
  end.

(** [for filename, patterns in FILE_MAPPINGS.items(): ...] *)
Fixpoint for_filename (items : list (str * list regex)) (l : locals)
  : M locals :=
  match items with
  | [] => ret l
  | (filename, patterns) :: items' =>
      l' <- for_pat filename patterns l ;;
      if assigned l' then ret l' else for_filename items' l'
  end.

(** The body of [for block in blocks]. *)
Definition block_body (block0 : str) (files_content0 : dict) : M dict :=
  let block1 := strip block0 in
  if str_eqb block1 [] then ret files_content0
  else
    (* Skip Enums (User has a provided file) *)
    if startswith (txt "enum ") block1 then ret files_content0
    else
      (* Check against mappings *)
      l <- for_filename FILE_MAPPINGS (Locals block1 false files_content0) ;;
      (* If not assigned, dump into mutations/misc or log warning *)
      if negb (assigned l) then
        if contains (txt "Game") (block l) then
          append_at (files_content l) (txt "30-games.graphql") (block l)
        else if contains (txt "Player") (block l) then
          append_at (files_content l) (txt "50-players.graphql") (block l)
        else if contains (txt "Venue") (block l) then
          append_at (files_content l) (txt "20-venues.graphql") (block l)
        else
          append_at (files_content l) (txt "99-mutations.graphql") (block l)
      else ret (files_content l).

(** [for block in blocks: ...] *)
Fixpoint for_block (blocks : list str) (files_content0 : dict) : M dict :=
  match blocks with
  | [] => ret files_content0
  | block0 :: blocks' =>
      files_content1 <- block_body block0 files_content0 ;;
      for_block blocks' files_content1
  end.

(** The first characters of the line printed after each file; the
    source holds them as the bytes C3 A2 C5 93 E2 80 A6, kept here as
    bytes. *)
Definition WROTE_MARK : str :=
  map ascii_of_nat [195; 162; 197; 147; 226; 128; 166].

(** [for filename, blocks in files_content.items(): ...] (Write files) *)
Fixpoint for_item (items : dict) : M unit :=
  match items with
  | [] => ret tt
  | (filename, blocks) :: items' =>
      if str_eqb filename (txt "00-enums.graphql") then
        (* Don't overwrite the provided file *)
        for_item items'
      else
        let full_path := os_path_join OUTPUT_DIR filename in
        open_w full_path ;;
        f_write full_path (txt "# " ++ filename ++ [LF]) ;;
        f_write full_path
          (txt "# ==========================================" ++ [LF; LF]) ;;
        f_write full_path (join [LF; LF] blocks) ;;
        print (WROTE_MARK ++ txt " Wrote " ++ str_of_nat (length blocks)
               ++ txt " blocks to " ++ filename) ;;
        for_item items'
  end.

(** The dictionary the block loop starts from: one empty list per key
    of [FILE_MAPPINGS], then the placeholder key. *)
Definition initial_files_content : dict :=
  setitem (map (fun k => (k, [])) (keys FILE_MAPPINGS))
    (txt "00-enums.graphql") [].

(** The script in three parts: the set-up of the output directory
    (lines 106-108), the work on a document that was read (lines
    118-179), and [split_schema] itself, which joins them around the
    [try] of the read. *)
Definition ensure_output_dir : M unit :=
  there <- os_path_exists OUTPUT_DIR ;;
  if negb there then
    os_makedirs OUTPUT_DIR ;;
    print (txt "Created directory: " ++ OUTPUT_DIR)
  else ret tt.

Definition process (content : str) : M unit :=
  (* Split schema by definitions *)
  let blocks := split pattern content in
  let files_content0 := initial_files_content in
  print (txt "Found " ++ str_of_nat (length blocks)
         ++ txt " blocks to process.") ;;
  files_content1 <- for_block blocks files_content0 ;;
  (* Write files *)
  for_item files_content1 ;;
  print (LF :: txt "--- SPLIT COMPLETE ---") ;;
  print (txt "1. Check " ++ OUTPUT_DIR ++ txt " for the generated files.") ;;
  print (txt "2. IMPORTANT: Copy your PROVIDED files (00-enums, 31-recurring, 70-metrics) into this directory now.") ;;
  print (txt "3. Run 'amplify push' to deploy.").

Definition split_schema : M unit :=
  ensure_output_dir ;;
  r <- try (read_text SOURCE_FILE) ;;
  match r with
  | Exc FileNotFoundError =>
      print (txt "Error: Could not find " ++ SOURCE_FILE) ;;
      print (txt "Please ensure you are in the project root or update SOURCE_FILE path.") ;;
      ret tt
  | Exc e => raise e
  | Val content => process content
  end.

(* ================================================================== *)
(** * What the block loop computes, said without the loop *)
(* ================================================================== *)

(** [pat] finds a match somewhere in [b]. *)
Definition matches (b : str) (pat : regex) : bool := truthy (search pat b).

(** The first category of [items] that has a pattern matching [b]. *)
Definition first_category (items : list (str * list regex)) (b : str)
  : option str :=
  option_map fst (find (fun item => existsb (matches b) (snd item)) items).

Definition classify (b : str) : option str := first_category FILE_MAPPINGS b.

(** The splice of the patch: [GAME_ADDITIONS] before the last brace. *)
Definition patched (b : str) : str :=
  let i := rfind (txt "}") b in
  if negb (i =? -1)%Z then slice_to b i ++ GAME_ADDITIONS ++ slice_from b i
  else b.

(** The patch fires on a block that a pattern of [filename] matched. *)
Definition patch_fires (filename b : str) : bool :=
  contains (txt "type Game @model") b
  && str_eqb filename (txt "30-games.graphql").

(** The text stored for a block that a pattern of [filename] matched. *)
Definition stored_at (filename b : str) : str :=
  if patch_fires filename b then patched b else b.

(** The category of the keyword heuristic. *)
Definition fallback (b : str) : str :=
  if contains (txt "Game") b then txt "30-games.graphql"
  else if contains (txt "Player") b then txt "50-players.graphql"
  else if contains (txt "Venue") b then txt "20-venues.graphql"
  else txt "99-mutations.graphql".

(** Where a trimmed block goes, and the text that is stored for it. *)
Definition destination (b : str) : str :=
  match classify b with Some k => k | None => fallback b end.

Definition stored (b : str) : str :=
  match classify b with Some k => stored_at k b | None => b end.

(** The message of the patch, when it fires for this block. *)
Definition patch_log (b : str) : list event :=
  match classify b with
  | Some k =>
      if patch_fires k b
      then [EPrint (txt "  >> Found Game type. Patching with new fields...")]
      else []
  | None => []
  end.

(** A trimmed block that the loop does not skip. *)
Definition kept (b : str) : bool :=
  negb (str_eqb b []) && negb (startswith (txt "enum ") b).

(** The blocks of a document that reach the classifier, in order. *)
Definition kept_blocks (content : str) : list str :=
  filter kept (map strip (split pattern content)).

(** [d[k].append(x)] on a dictionary that has the key. *)
Definition add (d : dict) (k x : str) : dict :=
  match getitem d k with
  | Some v => setitem d k (v ++ [x])
  | None => d
  end.

(** The dictionary after the blocks [bs] (already trimmed and kept). *)
Definition assign (bs : list str) (d : dict) : dict :=
  fold_left (fun d b => add d (destination b) (stored b)) bs d.

(** The world after more calls were logged. *)
Definition logged (w : World) (evs : list event) : World :=
  MkWorld (nodes w) (log w ++ evs).

(* ================================================================== *)
(** * Notions used in the statements and in their proofs *)
(* ================================================================== *)

(** The line the patch prints. *)
Definition PATCH_MESSAGE : event :=
  EPrint (txt "  >> Found Game type. Patching with new fields...").

(** What a match of a pattern of [filename] on [b] logs. *)
Definition patch_events (filename b : str) : list event :=
  if patch_fires filename b then [PATCH_MESSAGE] else [].

(** The locals after a pattern of [filename] matched the block. *)
Definition hit (filename : str) (l : locals) : locals :=
  let text := stored_at filename (block l) in
  Locals text true (add (files_content l) filename text).

(** Some pattern of the item matches [b]. *)
Definition has_match (b : str) (item : str * list regex) : bool :=
  existsb (matches b) (snd item).

(** The keys of the dictionary of the block loop, in order. *)
Definition table_keys : list str := keys initial_files_content.

(** The blocks of [bs] that go to category [k], as they are stored. *)
Definition stored_for (k : str) (bs : list str) : list str :=
  map stored (filter (fun b => str_eqb (destination b) k) bs).

(** The dictionary the writer receives for a list of kept blocks. *)
Definition files_content_of (bs : list str) : dict :=
  map (fun k => (k, stored_for k bs)) table_keys.

(** A declaration boundary: the split pattern matches at this place. *)
Definition boundary (before after : str) : bool :=
  truthy (match_at pattern (Cursor before after)).

(** The text from a place up to the next boundary. *)
Fixpoint leading (before after : str) : str :=
  if boundary before after then []
  else
    match after with
    | [] => []
    | x :: after' => x :: leading (x :: before) after'
    end.

(** The text of a document before its first declaration boundary. *)
Definition leading_text (content : str) : str := leading [] content.

(** A pattern that opens with [^]. *)
Definition anchored (pat : regex) : bool :=
  match pat with
  | Seq Bol _ => true
  | _ => false
  end.

(** All the patterns of the table, in order. *)
Definition table_patterns : list regex := concat (map snd FILE_MAPPINGS).

(** No pattern of the items matches [b]. *)
Definition none_match (b : str) (items : list (str * list regex)) : Prop :=
  Forall (fun item => Forall (fun pat => matches b pat = false) (snd item))
    items.

(** [none_match] as a test. *)
Definition none_match_b (b : str) (items : list (str * list regex)) : bool :=
  forallb (fun item => forallb (fun pat => negb (matches b pat)) (snd item))
    items.

(** The line printed after the output directory was created. *)
Definition CREATED_MESSAGE : event :=
  EPrint (txt "Created directory: " ++ OUTPUT_DIR).

(** What the set-up logs. *)
Definition setup_events (w : World) : list event :=
  match fs w OUTPUT_DIR with
  | None => [EExists OUTPUT_DIR; EMakedirs OUTPUT_DIR; CREATED_MESSAGE]
  | Some _ => [EExists OUTPUT_DIR]
  end.

(** The files and directories after the set-up. *)
Definition setup_fs (w : World) : str -> option node :=
  match fs w OUTPUT_DIR with
  | None => fun q => if str_eqb q OUTPUT_DIR then Some Dir else fs w q
  | Some _ => fs w
  end.

(** The world after the set-up, when the directory that holds the
    output directory is there. *)
Definition after_setup (w : World) : World :=
  MkWorld
    (match fs w OUTPUT_DIR with
     | None => nodes (snd (new_dir OUTPUT_DIR w))
     | Some _ => nodes w
     end)
    (log w ++ setup_events w).

(** The path of a category file. *)
Definition path_of (filename : str) : str := os_path_join OUTPUT_DIR filename.

(** The three texts written to a category file, and the file they
    make. *)
Definition BANNER : str :=
  txt "# ==========================================" ++ [LF; LF].

Definition header (filename : str) : str := txt "# " ++ filename ++ [LF].

(** The words of the specification, "blocks joined by blank lines",
    said with the list functions of the library alone and not with
    [join]: the first block, then every later block behind two line
    feeds.  [join_blank_lines] compares it with what [join] gives. *)
Definition blank_line_joined (blocks : list str) : str :=
  match blocks with
  | [] => []
  | b :: later => b ++ concat (map (fun x => [LF; LF] ++ x) later)
  end.

Definition file_text (filename : str) (blocks : list str) : str :=
  header filename ++ BANNER ++ blank_line_joined blocks.

(** The line printed after a file was written. *)
Definition wrote_message (filename : str) (blocks : list str) : event :=
  EPrint (WROTE_MARK ++ txt " Wrote " ++ str_of_nat (length blocks)
          ++ txt " blocks to " ++ filename).

(** The calls of the writer for one item of the dictionary. *)
Definition file_events (item : str * list str) : list event :=
  let (filename, blocks) := item in
  [EOpenWrite (path_of filename);
   EWrite (path_of filename) (header filename);
   EWrite (path_of filename) BANNER;
   EWrite (path_of filename) (blank_line_joined blocks);
   wrote_message filename blocks].

(** The items the writer does not skip. *)
Definition written (d : dict) : dict :=
  filter (fun item => negb (str_eqb (fst item) (txt "00-enums.graphql"))) d.

(** Two lists of paths are the same. *)
Fixpoint strs_eqb (l1 l2 : list str) : bool :=
  match l1, l2 with
  | [], [] => true
  | x :: l1', y :: l2' => str_eqb x y && strs_eqb l1' l2'
  | _, _ => false
  end.

(** The path of [filename] lies in the output directory. *)
Definition in_output_dir (filename : str) : bool :=
  strs_eqb (ancestors (path_of filename)) (ancestors OUTPUT_DIR ++ [OUTPUT_DIR])
  && negb (str_eqb (path_of filename) OUTPUT_DIR).

(** The file that the writer leaves at path [q], if it wrote there:
    the last item written to that path decides. *)
Definition written_at (d : dict) (q : str) : option (str * list str) :=
  find (fun item => str_eqb q (path_of (fst item))) (rev (written d)).

(** The output directory is absent or a directory, and no category
    path names a directory. *)
Definition output_ok (w : World) : bool :=
  match fs w OUTPUT_DIR with
  | None | Some Dir => true
  | Some (File _) => false
  end
  && forallb (fun k => match fs w (path_of k) with
                       | Some Dir => false
                       | _ => true
                       end) (keys FILE_MAPPINGS).

(** The line that reports the number of pieces of the split. *)
Definition found_message (content : str) : event :=
  EPrint (txt "Found " ++ str_of_nat (length (split pattern content))
          ++ txt " blocks to process.").

(** The four lines printed at the end of a run. *)
Definition closing_events : list event :=
  [EPrint (LF :: txt "--- SPLIT COMPLETE ---");
   EPrint (txt "1. Check " ++ OUTPUT_DIR ++ txt " for the generated files.");
   EPrint (txt "2. IMPORTANT: Copy your PROVIDED files (00-enums, 31-recurring, 70-metrics) into this directory now.");
   EPrint (txt "3. Run 'amplify push' to deploy.")].

(** The category files in the order of the table, each with its
    blocks. *)
Definition outputs (bs : list str) : dict :=
  map (fun k => (k, stored_for k bs)) (keys FILE_MAPPINGS).

(** The calls of a run that reads the document [content]. *)
Definition run_events (w : World) (content : str) : list event :=
  setup_events w
  ++ [EOpenRead SOURCE_FILE; found_message content]
  ++ flat_map patch_log (kept_blocks content)
  ++ flat_map file_events (outputs (kept_blocks content))
  ++ closing_events.

(** The file names that the script or the statements name. *)
Definition GAMES : str := txt "30-games.graphql".
Definition PLAYERS : str := txt "50-players.graphql".
Definition VENUES : str := txt "20-venues.graphql".
Definition MUTATIONS : str := txt "99-mutations.graphql".
Definition ENTITIES : str := txt "10-entities.graphql".
Definition ENUMS : str := txt "00-enums.graphql".

(** A world that holds the listed nodes and nothing else; nothing was
    called yet. *)
Definition world_of (entries : list (str * node)) : World :=
  MkWorld (fun q => match find (fun e => str_eqb q (fst e)) entries with
                    | Some e => Some (snd e)
                    | None => None
                    end) [].

(** The directories of the project that the source document lies in. *)
Definition PROJECT_DIRS : list (str * node) :=
  map (fun d => (d, Dir)) (ancestors SOURCE_FILE).

(** A world with nothing in it but the source document, in its
    directories. *)
Definition world_with (raw : str) : World :=
  world_of (PROJECT_DIRS ++ [(SOURCE_FILE, File raw)]).

(** A world with nothing in it. *)
Definition empty_world : World := MkWorld (fun _ => None) [].

(** A directory on the way to the output directory is a regular file. *)
Definition way_blocked (w : World) : bool :=
  existsb (fun d => match fs w d with
                    | Some (File _) => true
                    | _ => false
                    end) (ancestors OUTPUT_DIR).

(** The directories that the set-up makes: none when the output path
    exists or the way to it is blocked, else the output directory and
    every directory on the way to it that is missing. *)
Definition made_dirs (w : World) : list str :=
  match fs w OUTPUT_DIR with
  | Some _ => []
  | None =>
      if way_blocked w then []
      else filter (fun d => match fs w d with
                            | None => true
                            | Some _ => false
                            end) (ancestors OUTPUT_DIR ++ [OUTPUT_DIR])
  end.

(** The set-up raises: nothing is at the output path and a regular
    file is on the way to it. *)
Definition setup_fails (w : World) : bool :=
  match fs w OUTPUT_DIR with
  | Some _ => false
  | None => way_blocked w
  end.

(** Each path of [todo] has as its directories the paths of [passed]
    and the paths of [todo] before it, in this order. *)
Fixpoint nested (passed todo : list str) : bool :=
  match todo with
  | [] => true
  | d :: todo' =>
      strs_eqb (ancestors d) passed && nested (passed ++ [d]) todo'
  end.

(** The blocks of the end-to-end scenario. *)
Definition GAME_BLOCK : str := txt "type Game @model { id: ID! }".
Definition ENTITY_BLOCK : str := txt "type Entity @model { id: ID! }".
Definition ENUM_BLOCK : str := txt "enum Status { A B }".
Definition QUERY_BLOCK : str := txt "type Query { ping: String }".

(** The document of the scenario. *)
Definition SCENARIO : str :=
  ENTITY_BLOCK ++ [LF; LF] ++ GAME_BLOCK ++ [LF; LF] ++ ENUM_BLOCK
  ++ [LF; LF] ++ QUERY_BLOCK ++ [LF].

(** The Game block of the scenario after the patch. *)
Definition GAME_BLOCK_PATCHED : str :=
  txt "type Game @model { id: ID! " ++ GAME_ADDITIONS ++ txt "}".

(** The dictionary of the scenario when the writer starts. *)
Definition SCENARIO_FILES : dict :=
  [(ENTITIES, [ENTITY_BLOCK]); (VENUES, []); (GAMES, [GAME_BLOCK_PATCHED]);
   (txt "40-tournaments.graphql", []); (PLAYERS, []);
   (txt "60-financials.graphql", []); (txt "80-scrapers.graphql", []);
   (txt "85-social.graphql", []); (txt "90-staff.graphql", []);
   (MUTATIONS, [QUERY_BLOCK]); (ENUMS, [])].


(** The path an event is about. *)
Definition event_path (e : event) : option str :=
  match e with
  | EExists p | EMakedirs p | EOpenRead p | EOpenWrite p | EWrite p _ => Some p
  | EPrint _ => None
  end.

(** The event names [path]. *)
Definition touches (path : str) (e : event) : bool :=
  match event_path e with
  | Some q => str_eqb q path
  | None => false
  end.

(** The source path holds a file. *)
Definition readable (w : World) : bool :=
  match fs w SOURCE_FILE with
  | Some (File _) => true
  | _ => false
  end.

(** The event opens a file for writing or writes to one. *)
Definition is_write (e : event) : bool :=
  match e with
  | EOpenWrite _ | EWrite _ _ => true
  | _ => false
  end.

(** The two lines printed when the source is not found. *)
Definition NOT_FOUND_MESSAGES : list event :=
  [EPrint (txt "Error: Could not find " ++ SOURCE_FILE);
   EPrint (txt "Please ensure you are in the project root or update SOURCE_FILE path.")].

(** A document that opens with an enum, and one that opens with a
    comment line. *)
Definition ENUM_FIRST : str := ENUM_BLOCK ++ [LF] ++ QUERY_BLOCK ++ [LF].

Definition BANNER_FIRST : str :=
  txt "# Schema of the poker room" ++ [LF] ++ QUERY_BLOCK ++ [LF].

(** A document with two blocks for one category. *)
Definition TWO_TYPES : str :=
  txt "type Query { a: Int }" ++ [LF; LF]
  ++ txt "type Mutation { b: Int }" ++ [LF].

(** The six declaration keywords of the split pattern. *)
Definition KEYWORDS : list str :=
  [txt "type"; txt "input"; txt "enum"; txt "interface"; txt "union";
   txt "scalar"].

(** The document cut at every declaration boundary.  [item] holds,
    nearest first, the characters of the piece in progress; a cut is
    made after a character when the place behind it is a boundary. *)
Fixpoint cut_from (before after item : str) : list str :=
  match after with
  | [] => [rev item]
  | x :: after' =>
      if boundary (x :: before) after'
      then rev (x :: item) :: cut_from (x :: before) after' []
      else cut_from (x :: before) after' (x :: item)
  end.

Definition cut (content : str) : list str :=
  if boundary [] content then [] :: cut_from [] content []
  else cut_from [] content [].

(** Every character is white space. *)
Definition blank (s : str) : bool := forallb isspace s.

(** The paths of the category files, in the order of the table. *)
Definition category_paths : list str := map path_of (keys FILE_MAPPINGS).

(** The second pattern of the financials category. *)
Definition FINANCIALS : str := txt "60-financials.graphql".
Definition LINE_ITEM_PATTERN : regex :=
  Cat [Bol; Lit (txt "type GameCostLineItem")].

(** [pat] matches [b] from index 0. *)
Definition matches_at_start (b : str) (pat : regex) : bool :=
  truthy (match_at pat (Cursor [] b)).

(** A block of the line-item type. *)
Definition LINE_ITEM_BLOCK : str := txt "type GameCostLineItem { id: ID! }".

(** The character an anchored pattern asks for at index 0, when its
    shape tells. *)
Fixpoint head_char (r : regex) : option ascii :=
  match r with
  | Chr c => Some c
  | Seq r1 _ => head_char r1
  | _ => None
  end.

Definition first_char (pat : regex) : option ascii :=
  match pat with
  | Seq Bol r => head_char r
  | _ => None
  end.

(** Every pattern of the table asks for [t] or [i] at index 0. *)
Definition opens_type_or_input (pat : regex) : bool :=
  match first_char pat with
  | Some c => Ascii.eqb c "t" || Ascii.eqb c "i"
  | None => false
  end.

(* ================================================================== *)
(** * Lemmas: strings and dictionaries *)
(* ================================================================== *)

Lemma str_eqb_refl (a : str) : str_eqb a a = true.
Proof.
  induction a as [|x a IH]; simpl; [reflexivity|].
  now rewrite Ascii.eqb_refl, IH.
Qed.

Lemma str_eqb_eq (a b : str) : str_eqb a b = true <-> a = b.
Proof.
  split.
  - revert b; induction a as [|x a IH]; intros [|y b]; simpl; try discriminate.
    + reflexivity.
    + intros H. apply andb_true_iff in H as [Hx Hab].
      apply Ascii.eqb_eq in Hx. apply IH in Hab. now subst.
  - intros ->. apply str_eqb_refl.
Qed.

Lemma str_eqb_neq (a b : str) : str_eqb a b = false <-> a <> b.
Proof.
  rewrite <- str_eqb_eq. destruct (str_eqb a b); split; congruence.
Qed.

Lemma str_eqb_sym (a b : str) : str_eqb a b = str_eqb b a.
Proof.
  destruct (str_eqb a b) eqn:E.
  - apply str_eqb_eq in E. subst. symmetry. apply str_eqb_refl.
  - symmetry. apply str_eqb_neq. apply str_eqb_neq in E. congruence.
Qed.

Lemma lstrip_snoc (l : str) (c : ascii) :
  isspace c = false -> lstrip (l ++ [c]) = lstrip l ++ [c].
Proof.
  intros Hc. induction l as [|x l IH]; cbn [app lstrip].
  - now rewrite Hc.
  - destruct (isspace x); [exact IH | reflexivity].
Qed.

(** A block that opens with a character that is no space keeps it. *)
Lemma strip_cons (c : ascii) (s : str) :
  isspace c = false -> strip (c :: s) = c :: rstrip s.
Proof.
  intros Hc. unfold strip, rstrip. cbn [lstrip]. rewrite Hc.
  cbn [rev]. rewrite lstrip_snoc by exact Hc.
  now rewrite rev_app_distr.
Qed.

Lemma getitem_some_in (d : dict) (k : str) (v : list str) :
  getitem d k = Some v -> In k (keys d).
Proof.
  induction d as [|[k' v'] d IH]; simpl; [discriminate|].
  destruct (str_eqb k' k) eqn:E.
  - apply str_eqb_eq in E. now left.
  - intros H. right. now apply IH.
Qed.

Lemma in_keys_getitem (d : dict) (k : str) :
  In k (keys d) -> exists v, getitem d k = Some v.
Proof.
  induction d as [|[k' v'] d IH]; simpl; [tauto|].
  intros H. destruct (str_eqb k' k) eqn:E; [now exists v'|].
  destruct H as [H|H]; [|now apply IH].
  apply str_eqb_neq in E. congruence.
Qed.

Lemma keys_setitem (d : dict) (k : str) (v : list str) :
  In k (keys d) -> keys (setitem d k v) = keys d.
Proof.
  induction d as [|[k' v'] d IH]; simpl; [tauto|].
  intros H. destruct (str_eqb k' k) eqn:E; simpl; [reflexivity|].
  f_equal. apply IH. destruct H as [H|H]; [|exact H].
  apply str_eqb_neq in E. congruence.
Qed.

Lemma getitem_setitem (d : dict) (k k' : str) (v : list str) :
  getitem (setitem d k v) k' = if str_eqb k k' then Some v else getitem d k'.
Proof.
  induction d as [|[k0 v0] d IH]; simpl.
  - reflexivity.
  - destruct (str_eqb k0 k) eqn:E0; simpl.
    + apply str_eqb_eq in E0. subst k0.
      destruct (str_eqb k k'); reflexivity.
    + destruct (str_eqb k0 k') eqn:E1.
      * apply str_eqb_eq in E1. subst k0.
        rewrite str_eqb_sym, E0. reflexivity.
      * exact IH.
Qed.

Lemma keys_add (d : dict) (k x : str) : keys (add d k x) = keys d.
Proof.
  unfold add. destruct (getitem d k) eqn:E; [|reflexivity].
  apply keys_setitem. eapply getitem_some_in; eassumption.
Qed.

Lemma getitem_add (d : dict) (k x k' : str) :
  In k (keys d) ->
  getitem (add d k x) k' =
  if str_eqb k k' then option_map (fun v => v ++ [x]) (getitem d k')
  else getitem d k'.
Proof.
  intros Hin. unfold add.
  destruct (in_keys_getitem d k Hin) as [v Hv]. rewrite Hv.
  rewrite getitem_setitem.
  destruct (str_eqb k k') eqn:E; [|reflexivity].
  apply str_eqb_eq in E. subst k'. now rewrite Hv.
Qed.

Lemma append_at_run (d : dict) (k x : str) (w : World) :
  In k (keys d) -> append_at d k x w = (Val (add d k x), w).
Proof.
  intros Hin. unfold append_at, add.
  destruct (in_keys_getitem d k Hin) as [v Hv]. now rewrite Hv.
Qed.

(** [sep.join] with two line feeds puts a blank line between the
    blocks. *)
Lemma join_blank_lines (blocks : list str) :
  join [LF; LF] blocks = blank_line_joined blocks.
Proof.
  destruct blocks as [|b later]; [reflexivity|].
  revert b. induction later as [|x later IH]; intros b.
  - cbn [join blank_line_joined map concat]. now rewrite app_nil_r.
  - change (join [LF; LF] (b :: x :: later))
      with (b ++ [LF; LF] ++ join [LF; LF] (x :: later)).
    rewrite IH. cbn [blank_line_joined map concat].
    now rewrite <- !app_assoc.
Qed.

Lemma logged_nil (w : World) : logged w [] = w.
Proof. destruct w. unfold logged. simpl. now rewrite app_nil_r. Qed.

Lemma logged_logged (w : World) (a b : list event) :
  logged (logged w a) b = logged w (a ++ b).
Proof. unfold logged. simpl. now rewrite app_assoc. Qed.

Lemma print_run (line : str) (w : World) :
  print line w = (Val tt, logged w [EPrint line]).
Proof. reflexivity. Qed.

(* ================================================================== *)
(** * Lemmas: the loops of the script *)
(* ================================================================== *)

Lemma for_pat_run (filename : str) (patterns : list regex) (l : locals)
  (w : World) :
  In filename (keys (files_content l)) ->
  for_pat filename patterns l w =
  if existsb (matches (block l)) patterns
  then (Val (hit filename l), logged w (patch_events filename (block l)))
  else (Val l, w).
Proof.
  intros Hin. induction patterns as [|pat patterns IH]; simpl.
  - reflexivity.
  - unfold matches at 1. destruct (truthy (search pat (block l))) eqn:Hm; simpl.
    + unfold hit, stored_at, patch_events, patch_fires, patched, bind.
      destruct (contains (txt "type Game @model") (block l)
                && str_eqb filename (txt "30-games.graphql")).
      * rewrite print_run.
        destruct (negb (rfind (txt "}") (block l) =? -1)%Z);
          unfold ret; rewrite append_at_run by (simpl; exact Hin); reflexivity.
      * unfold ret. rewrite append_at_run by exact Hin.
        now rewrite logged_nil.
    + exact IH.
Qed.

Lemma for_filename_run (items : list (str * list regex)) (b : str)
  (d : dict) (w : World) :
  (forall k, In k (keys items) -> In k (keys d)) ->
  for_filename items (Locals b false d) w =
  match find (has_match b) items with
  | Some item =>
      (Val (hit (fst item) (Locals b false d)),
       logged w (patch_events (fst item) b))
  | None => (Val (Locals b false d), w)
  end.
Proof.
  induction items as [|[filename patterns] items IH]; intros Hk; simpl.
  - reflexivity.
  - unfold bind. rewrite for_pat_run by (apply Hk; now left).
    unfold has_match at 1. simpl.
    destruct (existsb (matches b) patterns); simpl.
    + reflexivity.
    + apply IH. intros k Hin. apply Hk. now right.
Qed.

Lemma first_category_in (items : list (str * list regex)) (b k : str) :
  first_category items b = Some k -> In k (keys items).
Proof.
  unfold first_category.
  destruct (find _ items) as [item|] eqn:E; simpl; [|discriminate].
  intros [= <-]. apply find_some in E. apply in_map. tauto.
Qed.

Lemma table_keys_eq :
  table_keys = keys FILE_MAPPINGS ++ [txt "00-enums.graphql"].
Proof. reflexivity. Qed.

Lemma fallback_in (b : str) : In (fallback b) (keys FILE_MAPPINGS).
Proof.
  unfold fallback.
  destruct (contains (txt "Game") b); [simpl; tauto|].
  destruct (contains (txt "Player") b); [simpl; tauto|].
  destruct (contains (txt "Venue") b); simpl; tauto.
Qed.

Lemma destination_in (b : str) : In (destination b) (keys FILE_MAPPINGS).
Proof.
  unfold destination. destruct (classify b) as [k|] eqn:E.
  - eapply first_category_in. exact E.
  - apply fallback_in.
Qed.

Lemma in_table_keys (k : str) : In k (keys FILE_MAPPINGS) -> In k table_keys.
Proof. rewrite table_keys_eq. intros H. apply in_or_app. now left. Qed.

(** One turn of the block loop. *)
Lemma block_body_run (block0 : str) (d : dict) (w : World) :
  keys d = table_keys ->
  block_body block0 d w =
  let b := strip block0 in
  if kept b
  then (Val (add d (destination b) (stored b)), logged w (patch_log b))
  else (Val d, w).
Proof.
  intros Hk. unfold block_body, kept. cbv zeta.
  destruct (str_eqb (strip block0) []); [reflexivity|].
  destruct (startswith (txt "enum ") (strip block0)); [reflexivity|].
  cbn [negb andb]. unfold bind. rewrite for_filename_run
    by (intros k Hin; rewrite Hk; now apply in_table_keys).
  unfold destination, stored, patch_log, classify, first_category.
  fold (has_match (strip block0)).
  destruct (find (has_match (strip block0)) FILE_MAPPINGS) as [item|] eqn:E;
    cbn [hit assigned negb files_content option_map block].
  - reflexivity.
  - rewrite logged_nil.
    assert (Hf := fallback_in (strip block0)).
    rewrite <- (append_at_run d (fallback (strip block0)) (strip block0) w)
      by (rewrite Hk; now apply in_table_keys).
    unfold fallback.
    destruct (contains (txt "Game") (strip block0)); [reflexivity|].
    destruct (contains (txt "Player") (strip block0)); [reflexivity|].
    destruct (contains (txt "Venue") (strip block0)); reflexivity.
Qed.

(** The whole block loop. *)
Lemma for_block_run (blocks : list str) (d : dict) (w : World) :
  keys d = table_keys ->
  let bs := filter kept (map strip blocks) in
  for_block blocks d w =
  (Val (assign bs d), logged w (flat_map patch_log bs)).
Proof.
  revert d w. induction blocks as [|b0 blocks IH]; intros d w Hk; simpl.
  - now rewrite logged_nil.
  - unfold bind. rewrite block_body_run by exact Hk. cbv zeta.
    destruct (kept (strip b0)); simpl.
    + rewrite IH by (rewrite keys_add; exact Hk).
      now rewrite logged_logged.
    + now apply IH.
Qed.

(** A block that opens with "enum " after trimming is skipped. *)
Lemma enum_block_skipped (block0 : str) (d : dict) (w : World) :
  startswith (txt "enum ") (strip block0) = true ->
  block_body block0 d w = (Val d, w).
Proof.
  intros H. unfold block_body. cbv zeta. rewrite H.
  destruct (str_eqb (strip block0) []); reflexivity.
Qed.

(* ================================================================== *)
(** * Lemmas: the dictionary after the block loop *)
(* ================================================================== *)

Lemma keys_assign (bs : list str) (d : dict) :
  keys (assign bs d) = keys d.
Proof.
  revert d. induction bs as [|b bs IH]; intros d; simpl; [reflexivity|].
  unfold assign in *. simpl. rewrite IH. apply keys_add.
Qed.

Lemma getitem_assign (bs : list str) (d : dict) (k : str) :
  keys d = table_keys ->
  getitem (assign bs d) k =
  option_map (fun v => v ++ stored_for k bs) (getitem d k).
Proof.
  revert d. induction bs as [|b bs IH]; intros d Hk.
  - unfold stored_for. simpl. destruct (getitem d k); simpl; [|reflexivity].
    now rewrite app_nil_r.
  - change (assign (b :: bs) d)
      with (assign bs (add d (destination b) (stored b))).
    rewrite IH by (rewrite keys_add; exact Hk).
    rewrite getitem_add
      by (rewrite Hk; apply in_table_keys, destination_in).
    unfold stored_for. simpl.
    destruct (str_eqb (destination b) k); [|reflexivity].
    destruct (getitem d k); simpl; [|reflexivity].
    now rewrite <- app_assoc.
Qed.

Lemma getitem_initial (k : str) :
  In k table_keys -> getitem initial_files_content k = Some [].
Proof.
  unfold table_keys. intros H.
  repeat (destruct H as [<-|H]; [reflexivity|]). destruct H.
Qed.

Lemma table_keys_nodup : NoDup table_keys.
Proof.
  assert (H : forall (l : list str),
             (fix chk (l : list str) : bool :=
                match l with
                | [] => true
                | x :: l' => negb (existsb (str_eqb x) l') && chk l'
                end) l = true -> NoDup l).
  { induction l as [|x l IH]; intros Hc; constructor.
    - apply andb_true_iff in Hc as [Hx _]. intros Hin.
      apply negb_true_iff in Hx.
      assert (existsb (str_eqb x) l = true)
        by (apply existsb_exists; exists x; split;
            [exact Hin | apply str_eqb_refl]).
      congruence.
    - apply IH. now apply andb_true_iff in Hc as [_ Hc]. }
  apply H. vm_compute. reflexivity.
Qed.

(** A dictionary with distinct keys is its keys with their values. *)
Lemma dict_by_keys (d : dict) :
  NoDup (keys d) ->
  d = map (fun k => (k, match getitem d k with Some v => v | None => [] end))
        (keys d).
Proof.
  induction d as [|[k v] d IH]; intros Hnd; simpl; [reflexivity|].
  rewrite str_eqb_refl. f_equal.
  inversion Hnd as [|? ? Hnotin Hnd']; subst.
  rewrite IH at 1 by exact Hnd'.
  apply map_ext_in. intros k' Hin.
  destruct (str_eqb k k') eqn:E; [|reflexivity].
  apply str_eqb_eq in E. subst. contradiction.
Qed.

Lemma assign_initial (bs : list str) :
  assign bs initial_files_content = files_content_of bs.
Proof.
  assert (Hk : keys (assign bs initial_files_content) = table_keys)
    by apply keys_assign.
  rewrite (dict_by_keys (assign bs initial_files_content))
    by (rewrite Hk; apply table_keys_nodup).
  rewrite Hk. unfold files_content_of.
  apply map_ext_in. intros k Hin. f_equal.
  rewrite getitem_assign by reflexivity.
  now rewrite getitem_initial by exact Hin.
Qed.

Lemma getitem_files_content_of (bs : list str) (k : str) :
  In k table_keys -> getitem (files_content_of bs) k = Some (stored_for k bs).
Proof.
  intros Hin. rewrite <- assign_initial.
  rewrite getitem_assign by reflexivity.
  now rewrite getitem_initial by exact Hin.
Qed.

(** The block loop on the blocks of a document. *)
Lemma for_block_document (content : str) (w : World) :
  for_block (split pattern content) initial_files_content w
  = (Val (files_content_of (kept_blocks content)),
     logged w (flat_map patch_log (kept_blocks content))).
Proof.
  rewrite for_block_run by reflexivity. cbv zeta.
  unfold kept_blocks. now rewrite assign_initial.
Qed.

Lemma concat_setitem (d : dict) (k : str) (v : list str) (x : str) :
  getitem d k = Some v ->
  Permutation (concat (map snd (setitem d k (v ++ [x]))))
              (x :: concat (map snd d)).
Proof.
  induction d as [|[k' v'] d IH]; simpl; [discriminate|].
  destruct (str_eqb k' k) eqn:E; simpl.
  - intros [= ->]. rewrite <- app_assoc. simpl.
    symmetry. apply Permutation_middle.
  - intros H. specialize (IH H).
    etransitivity; [apply Permutation_app_head, IH|].
    symmetry. apply Permutation_middle.
Qed.

Lemma concat_assign (bs : list str) (d : dict) :
  keys d = table_keys ->
  Permutation (concat (map snd (assign bs d)))
              (concat (map snd d) ++ map stored bs).
Proof.
  revert d. induction bs as [|b bs IH]; intros d Hk.
  - simpl. now rewrite app_nil_r.
  - change (assign (b :: bs) d)
      with (assign bs (add d (destination b) (stored b))).
    etransitivity; [apply IH; rewrite keys_add; exact Hk|].
    apply Permutation_trans
      with ((stored b :: concat (map snd d)) ++ map stored bs);
      [|apply Permutation_middle].
    apply Permutation_app_tail.
    unfold add.
    destruct (in_keys_getitem d (destination b)) as [v Hv].
    { rewrite Hk. apply in_table_keys, destination_in. }
    rewrite Hv. now apply concat_setitem.
Qed.

(* ================================================================== *)
(** * Lemmas: the block extractor *)
(* ================================================================== *)

Lemma ends_ahead (r : regex) (c : cursor) :
  ends (Ahead r) c = [] \/ ends (Ahead r) c = [c].
Proof. simpl. destruct (ends r c); [now left | now right]. Qed.

(** Splitting on a lookahead loses no character: the pieces, put end
    to end, are the document. *)
Lemma split_loop_ahead_concat (r : regex) (fuel : nat) :
  forall before after item must_advance,
    concat (split_loop fuel (Ahead r) before after item must_advance)
    = rev item ++ after.
Proof.
  induction fuel as [|fuel IH]; intros before after item ma.
  - simpl. now rewrite app_nil_r.
  - cbn [split_loop].
    destruct (ends_ahead r (Cursor before after)) as [-> | ->].
    + cbn [filter]. destruct after as [|x after'].
      * simpl. reflexivity.
      * rewrite IH. simpl. now rewrite <- app_assoc.
    + cbn [filter ahead]. rewrite Nat.eqb_refl, andb_true_r.
      destruct ma; cbn [negb].
      * destruct after as [|x after'].
        -- simpl. reflexivity.
        -- rewrite IH. simpl. now rewrite <- app_assoc.
      * cbn [concat seen ahead]. rewrite IH. reflexivity.
Qed.

Lemma split_ahead_concat (r : regex) (s : str) :
  concat (split (Ahead r) s) = s.
Proof. unfold split. now rewrite split_loop_ahead_concat. Qed.

Lemma split_loop_leading (after : str) :
  forall fuel before item,
    length after < fuel ->
    exists rest,
      split_loop fuel pattern before after item false
      = (rev item ++ leading before after) :: rest.
Proof.
  induction after as [|x after IH]; intros fuel before item Hf;
    (destruct fuel as [|fuel]; [inversion Hf|]).
  - cbn [split_loop leading]. unfold boundary, match_at.
    destruct (ends_ahead pattern_body (Cursor before [])) as [E | E];
      fold pattern in E; rewrite E; cbn [filter andb negb hd_error truthy].
    + exists []. now rewrite app_nil_r.
    + eexists. now rewrite app_nil_r.
  - cbn [split_loop leading]. unfold boundary, match_at.
    destruct (ends_ahead pattern_body (Cursor before (x :: after)))
      as [E | E];
      fold pattern in E; rewrite E; cbn [filter andb negb hd_error truthy].
    + destruct (IH fuel (x :: before) (x :: item)) as [rest Hrest].
      { simpl in Hf. lia. }
      exists rest. rewrite Hrest. simpl. now rewrite <- app_assoc.
    + eexists. now rewrite app_nil_r.
Qed.

(** The first piece of the split is the leading text. *)
Lemma split_leading (content : str) :
  exists rest, split pattern content = leading_text content :: rest.
Proof.
  unfold split, leading_text.
  destruct (split_loop_leading content (2 * length content + 2) [] [])
    as [rest H]; [lia|].
  exists rest. exact H.
Qed.

(* ================================================================== *)
(** * Lemmas: anchored patterns *)
(* ================================================================== *)

Lemma anchored_no_later_match (pat : regex) (after : str) :
  anchored pat = true ->
  forall x before, search_from pat (x :: before) after = None.
Proof.
  intros Ha. destruct pat as [| | | | | | |r1 r2| | |]; try discriminate.
  destruct r1; try discriminate. clear Ha.
  induction after as [|y after IH]; intros x before; simpl.
  - reflexivity.
  - apply IH.
Qed.

(** [re.search] with an anchored pattern is a match at index 0. *)
Lemma search_anchored (pat : regex) (b : str) :
  anchored pat = true ->
  search pat b =
  option_map (fun e => (Cursor [] b, e)) (match_at pat (Cursor [] b)).
Proof.
  intros Ha. unfold search. destruct b as [|x b]; simpl.
  - destruct (match_at pat (Cursor [] [])); reflexivity.
  - destruct (match_at pat (Cursor [] (x :: b))); simpl; [reflexivity|].
    now apply anchored_no_later_match.
Qed.

Lemma matches_anchored (pat : regex) (b : str) :
  anchored pat = true ->
  matches b pat = truthy (match_at pat (Cursor [] b)).
Proof.
  intros Ha. unfold matches. rewrite search_anchored by exact Ha.
  destruct (match_at pat (Cursor [] b)); reflexivity.
Qed.

Lemma table_patterns_anchored : forallb anchored table_patterns = true.
Proof. vm_compute. reflexivity. Qed.

Lemma in_table_patterns (k : str) (pats : list regex) (pat : regex) :
  In (k, pats) FILE_MAPPINGS -> In pat pats -> In pat table_patterns.
Proof.
  intros Hk Hp. unfold table_patterns. apply in_concat.
  exists pats. split; [|exact Hp].
  change pats with (snd (k, pats)). now apply in_map.
Qed.

Lemma table_pattern_anchored (pat : regex) :
  In pat table_patterns -> anchored pat = true.
Proof.
  intros H. pose proof table_patterns_anchored as Hall.
  rewrite forallb_forall in Hall. now apply Hall.
Qed.

(** No pattern of the table matches a text that opens with [#]. *)
Lemma table_patterns_reject_comment (rest : str) :
  forallb (fun pat => negb (truthy (match_at pat (Cursor [] ("#"%char :: rest)))))
    table_patterns = true.
Proof. vm_compute. reflexivity. Qed.

Lemma comment_matches_nothing (rest : str) (pat : regex) :
  In pat table_patterns -> matches ("#"%char :: rest) pat = false.
Proof.
  intros Hin. rewrite matches_anchored by now apply table_pattern_anchored.
  pose proof (table_patterns_reject_comment rest) as Hall.
  rewrite forallb_forall in Hall. apply Hall in Hin.
  now apply negb_true_iff in Hin.
Qed.

Lemma no_match_no_category (items : list (str * list regex)) (b : str) :
  (forall item pat, In item items -> In pat (snd item) -> matches b pat = false) ->
  find (has_match b) items = None.
Proof.
  intros H. induction items as [|item items IH]; simpl; [reflexivity|].
  unfold has_match at 1.
  assert (E : existsb (matches b) (snd item) = false).
  { destruct (existsb (matches b) (snd item)) eqn:E; [|reflexivity].
    apply existsb_exists in E as [pat [Hin Hm]].
    rewrite (H item pat) in Hm; [discriminate | now left | exact Hin]. }
  rewrite E. apply IH. intros item' pat Hi Hp. apply (H item' pat); [now right|exact Hp].
Qed.

Lemma comment_classify (rest : str) : classify ("#"%char :: rest) = None.
Proof.
  unfold classify, first_category.
  fold (has_match ("#"%char :: rest)).
  rewrite no_match_no_category; [reflexivity|].
  intros [k pats] pat Hi Hp. apply comment_matches_nothing.
  eapply in_table_patterns; eassumption.
Qed.

(* ================================================================== *)
(** * Lemmas: first match, and the splice *)
(* ================================================================== *)

Lemma find_first_match (b : str) (pre post : list (str * list regex))
  (k : str) (ps1 ps2 : list regex) (pat : regex) :
  none_match b pre ->
  Forall (fun p => matches b p = false) ps1 ->
  matches b pat = true ->
  find (has_match b) (pre ++ (k, ps1 ++ pat :: ps2) :: post)
  = Some (k, ps1 ++ pat :: ps2).
Proof.
  intros Hpre Hps1 Hpat. induction Hpre as [|item pre Hitem _ IH]; simpl.
  - unfold has_match. simpl. rewrite existsb_app. simpl.
    rewrite Hpat. now rewrite orb_true_r.
  - unfold has_match at 1.
    assert (E : existsb (matches b) (snd item) = false).
    { destruct (existsb (matches b) (snd item)) eqn:E; [|reflexivity].
      apply existsb_exists in E as [p [Hin Hm]].
      rewrite Forall_forall in Hitem. rewrite (Hitem p Hin) in Hm.
      discriminate. }
    rewrite E. exact IH.
Qed.

Lemma none_match_find (b : str) (items : list (str * list regex)) :
  none_match b items -> find (has_match b) items = None.
Proof.
  intros H. apply no_match_no_category. intros item pat Hi Hp.
  unfold none_match in H. rewrite Forall_forall in H.
  specialize (H item Hi). rewrite Forall_forall in H. now apply H.
Qed.

Lemma none_match_b_true (b : str) (items : list (str * list regex)) :
  none_match_b b items = true -> none_match b items.
Proof.
  unfold none_match_b, none_match. intros H.
  rewrite forallb_forall in H. rewrite Forall_forall. intros item Hi.
  specialize (H item Hi). rewrite forallb_forall in H.
  rewrite Forall_forall. intros pat Hp.
  now apply negb_true_iff, H.
Qed.

Lemma startswith_char (c : ascii) (s : str) :
  startswith [c] s = match s with x :: _ => Ascii.eqb c x | [] => false end.
Proof. destruct s; simpl; [reflexivity | apply andb_true_r]. Qed.

Lemma rfind_from_absent (c : ascii) (s : str) :
  ~ In c s -> forall i, rfind_from i [c] s = (-1)%Z.
Proof.
  induction s as [|x s IH]; intros Hn i.
  - reflexivity.
  - cbn [rfind_from]. rewrite IH by (intros H; apply Hn; now right).
    rewrite startswith_char.
    destruct (Ascii.eqb c x) eqn:E; [|reflexivity].
    apply Ascii.eqb_eq in E. subst. exfalso. apply Hn. now left.
Qed.

Lemma rfind_from_last (c : ascii) (pre post : str) :
  ~ In c post ->
  forall i, (0 <= i)%Z ->
    rfind_from i [c] (pre ++ c :: post) = (i + Z.of_nat (length pre))%Z.
Proof.
  intros Hn. induction pre as [|x pre IH]; intros i Hi.
  - cbn [app rfind_from length]. rewrite rfind_from_absent by exact Hn.
    rewrite startswith_char, Ascii.eqb_refl. simpl. lia.
  - cbn [app rfind_from]. rewrite IH by lia.
    destruct ((i + 1 + Z.of_nat (length pre) =? -1)%Z) eqn:E.
    + apply Z.eqb_eq in E. lia.
    + cbn [length]. lia.
Qed.

Lemma slice_bound_length (pre post : str) :
  slice_bound (pre ++ post) (Z.of_nat (length pre)) = length pre.
Proof.
  unfold slice_bound. rewrite length_app.
  destruct (Z.of_nat (length pre) <? 0)%Z eqn:E; [apply Z.ltb_lt in E; lia|].
  lia.
Qed.

(** With a brace: the fragment goes right before the last one. *)
Lemma patched_last_brace (pre post : str) :
  ~ In "}"%char post ->
  patched (pre ++ "}"%char :: post)
  = pre ++ GAME_ADDITIONS ++ "}"%char :: post.
Proof.
  intros Hn. unfold patched, rfind.
  change (txt "}") with ["}"%char].
  rewrite rfind_from_last by (exact Hn || lia).
  cbn [Z.add].
  destruct (Z.of_nat (length pre) =? -1)%Z eqn:E; [apply Z.eqb_eq in E; lia|].
  cbn [negb]. unfold slice_to, slice_from. rewrite slice_bound_length.
  rewrite firstn_app, Nat.sub_diag, firstn_all. cbn [firstn].
  rewrite app_nil_r.
  rewrite skipn_app, Nat.sub_diag, skipn_all. reflexivity.
Qed.

(** Without a brace: the block stays as it is. *)
Lemma patched_no_brace (b : str) : ~ In "}"%char b -> patched b = b.
Proof.
  intros Hn. unfold patched, rfind.
  change (txt "}") with ["}"%char].
  now rewrite rfind_from_absent by exact Hn.
Qed.

(* ================================================================== *)
(** * Lemmas: paths and the file system *)
(* ================================================================== *)

Lemma bind_run {A B} (m : M A) (k : A -> M B) (w w1 : World) (a : A) :
  m w = (Val a, w1) -> bind m k w = k a w1.
Proof. intros H. unfold bind. now rewrite H. Qed.

Lemma in_ancestors_from (a path : str) :
  forall passed,
    In a (ancestors_from passed path) <->
    a <> [] /\
    exists r1 r2, path = r1 ++ "/"%char :: r2 /\ a = rev passed ++ r1.
Proof.
  induction path as [|c path IH]; intros passed; cbn [ancestors_from].
  - split; [intros []|]. intros [_ [r1 [r2 [H _]]]].
    destruct r1; discriminate.
  - assert (Hd : In a (ancestors_from (c :: passed) path) <->
                 a <> [] /\
                 exists r1 r2,
                   path = r1 ++ "/"%char :: r2 /\ a = rev passed ++ c :: r1).
    { rewrite IH. cbn [rev].
      split; intros [Hn [r1 [r2 [H1 H2]]]]; (split; [exact Hn|]);
        exists r1, r2; (split; [exact H1|]); rewrite H2;
        rewrite <- app_assoc; reflexivity. }
    assert (Hs : (a <> [] /\
                  exists r1 r2,
                    path = r1 ++ "/"%char :: r2 /\ a = rev passed ++ c :: r1)
                 \/ (c = "/"%char /\ a <> [] /\ a = rev passed)
                 <->
                 a <> [] /\
                 exists r1 r2,
                   c :: path = r1 ++ "/"%char :: r2 /\ a = rev passed ++ r1).
    { split.
      - intros [[Hn [r1 [r2 [H1 H2]]]] | [Hc [Hn Ha]]].
        + split; [exact Hn|]. exists (c :: r1), r2. split; [|exact H2].
          cbn [app]. now rewrite H1.
        + split; [exact Hn|]. exists [], path. split.
          * now rewrite Hc.
          * now rewrite app_nil_r.
      - intros [Hn [r1 [r2 [H1 H2]]]]. destruct r1 as [|x r1].
        + right. cbn [app] in H1. injection H1 as Hc _.
          rewrite app_nil_r in H2. now repeat split.
        + left. cbn [app] in H1. injection H1 as Hc H1. subst x.
          split; [exact Hn|]. now exists r1, r2. }
    rewrite <- Hs. rewrite <- Hd. rewrite in_app_iff.
    destruct (Ascii.eqb c "/"%char) eqn:Ec.
    + apply Ascii.eqb_eq in Ec. destruct passed as [|p passed].
      * split; [intros [[]|H]; now left|].
        intros [H | [_ [Hn Ha]]]; [now right|]. now contradiction Hn.
      * cbn [In]. split.
        -- intros [[<- | []] | H]; [|now left]. right. split; [exact Ec|].
           split; [|reflexivity]. cbn [rev]. intros H.
           now apply app_eq_nil in H as [_ H].
        -- intros [H | [_ [_ ->]]]; [now right | left; now left].
    + apply Ascii.eqb_neq in Ec. split; [intros [[]|H]; now left|].
      intros [H | [Hc _]]; [now right | contradiction].
Qed.

Lemma in_ancestors (a q : str) :
  In a (ancestors q) <-> a <> [] /\ exists r, q = a ++ "/"%char :: r.
Proof.
  unfold ancestors. rewrite in_ancestors_from. cbn [rev app].
  split; intros [Hn H]; (split; [exact Hn|]).
  - destruct H as [r1 [r2 [H1 H2]]]. exists r2. now subst.
  - destruct H as [r H]. now exists a, r.
Qed.

Lemma ancestor_shorter (a q : str) :
  In a (ancestors q) -> length a < length q.
Proof.
  rewrite in_ancestors. intros [_ [r ->]].
  rewrite length_app. cbn [length]. lia.
Qed.

Lemma ancestor_neq (a q : str) : In a (ancestors q) -> str_eqb a q = false.
Proof.
  intros H. apply str_eqb_neq. intros ->.
  apply ancestor_shorter in H. lia.
Qed.

Lemma ancestor_trans (p a q : str) :
  In p (ancestors a) -> In a (ancestors q) -> In p (ancestors q).
Proof.
  rewrite !in_ancestors. intros [Hn [r1 ->]] [_ [r2 ->]].
  split; [exact Hn|]. exists (r1 ++ "/"%char :: r2).
  now rewrite <- app_assoc.
Qed.

Lemma ancestor_test (p q : str) :
  existsb (str_eqb p) (ancestors q) = true <-> In p (ancestors q).
Proof.
  rewrite existsb_exists. split.
  - intros [x [Hin E]]. apply str_eqb_eq in E. now subst.
  - intros H. exists p. split; [exact H | apply str_eqb_refl].
Qed.

Lemma strs_eqb_eq (l1 l2 : list str) : strs_eqb l1 l2 = true -> l1 = l2.
Proof.
  revert l2. induction l1 as [|x l1 IH]; intros [|y l2] H;
    try discriminate; [reflexivity|].
  cbn [strs_eqb] in H. apply andb_true_iff in H as [Hx H].
  apply str_eqb_eq in Hx. subst. f_equal. now apply IH.
Qed.

Lemma way_error_none (f : str -> option node) (l : list str) :
  way_error f l = None <-> forall a, In a l -> f a = Some Dir.
Proof.
  induction l as [|d l IH]; cbn [way_error].
  - split; [intros _ a [] | reflexivity].
  - destruct (f d) as [[|c]|] eqn:E.
    + rewrite IH. split.
      * intros H a [<- | Hin]; [exact E | now apply H].
      * intros H a Hin. apply H. now right.
    + split; [discriminate|]. intros H.
      specialize (H d (or_introl eq_refl)). congruence.
    + split; [discriminate|]. intros H.
      specialize (H d (or_introl eq_refl)). congruence.
Qed.

Lemma way_error_ext (f g : str -> option node) (l : list str) :
  (forall a, In a l -> f a = g a) -> way_error f l = way_error g l.
Proof.
  induction l as [|d l IH]; intros H; [reflexivity|].
  cbn [way_error]. rewrite <- (H d) by now left.
  rewrite IH by (intros a Hin; apply H; now right). reflexivity.
Qed.

Lemma way_error_app (f : str -> option node) (l1 l2 : list str) :
  way_error f (l1 ++ l2) =
  match way_error f l1 with
  | None => way_error f l2
  | Some e => Some e
  end.
Proof.
  induction l1 as [|d l1 IH]; [reflexivity|].
  cbn [app way_error]. destruct (f d) as [[|c]|]; [exact IH | | ]; reflexivity.
Qed.

(** A path below something that is not a directory is not reached. *)
Lemma way_error_stops (f : str -> option node) (l : list str) (a : str) :
  In a l -> f a <> Some Dir -> way_error f l <> None.
Proof.
  intros Hin Hf H. rewrite way_error_none in H. now apply Hf, H.
Qed.

Lemma fs_logged (w : World) (evs : list event) (q : str) :
  fs (logged w evs) q = fs w q.
Proof. reflexivity. Qed.

Lemma fs_same_nodes (w w' : World) (q : str) :
  nodes w' = nodes w -> fs w' q = fs w q.
Proof. intros H. unfold fs. now rewrite H. Qed.

Lemma fs_reached (w : World) (q : str) :
  way_error (nodes w) (ancestors q) = None -> fs w q = nodes w q.
Proof. intros H. unfold fs. now rewrite H. Qed.

Lemma fs_some (w : World) (q : str) (n : node) :
  fs w q = Some n ->
  way_error (nodes w) (ancestors q) = None /\ nodes w q = Some n.
Proof.
  unfold fs. destruct (way_error (nodes w) (ancestors q));
    [discriminate | now split].
Qed.

Lemma fs_unreached (w : World) (q : str) :
  way_error (nodes w) (ancestors q) <> None -> fs w q = None.
Proof.
  unfold fs. destruct (way_error (nodes w) (ancestors q));
    [reflexivity | congruence].
Qed.

(** The directories on a way that is open are directories. *)
Lemma fs_on_the_way (w : World) (q a : str) :
  way_error (nodes w) (ancestors q) = None -> In a (ancestors q) ->
  fs w a = Some Dir.
Proof.
  intros Hq Hin. rewrite way_error_none in Hq.
  rewrite fs_reached; [now apply Hq|].
  apply way_error_none. intros p Hp. apply Hq.
  now apply (ancestor_trans p a q).
Qed.

Lemma way_of_dirs (w : World) (l : list str) :
  (forall a, In a l -> fs w a = Some Dir) -> way_error (nodes w) l = None.
Proof.
  intros H. apply way_error_none. intros a Hin.
  now apply (fs_some w a Dir), H.
Qed.

(** What a new or emptied file changes: its own path. *)
Lemma fs_put (p c : str) (w : World) :
  way_error (nodes w) (ancestors p) = None ->
  fs w p <> Some Dir ->
  forall q,
    fs (snd (put p (File c) w)) q
    = if str_eqb q p then Some (File c) else fs w q.
Proof.
  intros Hway Hp q. unfold put. cbn [snd].
  destruct (str_eqb q p) eqn:Eq.
  - apply str_eqb_eq in Eq. subst q. unfold fs. cbn [nodes].
    rewrite (way_error_ext _ (nodes w)).
    + rewrite Hway. now rewrite str_eqb_refl.
    + intros a Hin. now rewrite (ancestor_neq a p Hin).
  - destruct (existsb (str_eqb p) (ancestors q)) eqn:Ea.
    + apply ancestor_test in Ea.
      rewrite (fs_unreached w q).
      * apply fs_unreached. apply (way_error_stops _ _ p Ea).
        cbn [nodes]. rewrite str_eqb_refl. discriminate.
      * apply (way_error_stops _ _ p Ea).
        rewrite <- (fs_reached w p Hway). exact Hp.
    + unfold fs. cbn [nodes]. rewrite Eq.
      rewrite (way_error_ext _ (nodes w)); [reflexivity|].
      intros a Hin. destruct (str_eqb a p) eqn:E; [|reflexivity].
      apply str_eqb_eq in E. subst a.
      apply ancestor_test in Hin. congruence.
Qed.

(** What a new directory changes: its own path. *)
Lemma fs_new_dir (p : str) (w : World) :
  way_error (nodes w) (ancestors p) = None ->
  fs w p = None ->
  forall q,
    fs (snd (new_dir p w)) q = if str_eqb q p then Some Dir else fs w q.
Proof.
  intros Hway Hp q. unfold new_dir. cbn [snd].
  assert (Hanc : forall a q', In a (ancestors q') ->
                   existsb (str_eqb p) (ancestors q') = false ->
                   str_eqb q' p = true \/ str_eqb q' p = false ->
                   (if str_eqb a p then Some Dir
                    else if existsb (str_eqb p) (ancestors a) then None
                         else nodes w a) = nodes w a).
  { intros a q' Hin Hno _.
    destruct (str_eqb a p) eqn:E.
    - apply str_eqb_eq in E. subst a. apply ancestor_test in Hin. congruence.
    - destruct (existsb (str_eqb p) (ancestors a)) eqn:E2; [|reflexivity].
      apply ancestor_test in E2.
      pose proof (ancestor_trans p a q' E2 Hin) as H.
      apply ancestor_test in H. congruence. }
  destruct (str_eqb q p) eqn:Eq.
  - apply str_eqb_eq in Eq. subst q. unfold fs. cbn [nodes].
    rewrite (way_error_ext _ (nodes w)).
    + rewrite Hway. now rewrite str_eqb_refl.
    + intros a Hin. apply (Hanc a p Hin); [|left; apply str_eqb_refl].
      destruct (existsb (str_eqb p) (ancestors p)) eqn:E; [|reflexivity].
      apply ancestor_test, ancestor_shorter in E. lia.
  - destruct (existsb (str_eqb p) (ancestors q)) eqn:Ea.
    + rewrite (fs_unreached w q).
      * unfold fs. cbn [nodes]. rewrite Eq, Ea.
        now destruct (way_error _ (ancestors q)).
      * apply ancestor_test in Ea. apply (way_error_stops _ _ p Ea).
        rewrite <- (fs_reached w p Hway). rewrite Hp. discriminate.
    + unfold fs. cbn [nodes]. rewrite Eq, Ea.
      rewrite (way_error_ext _ (nodes w)); [reflexivity|].
      intros a Hin. apply (Hanc a q Hin Ea). now right.
Qed.

(** The calls on files, one by one. *)
Lemma reach_run (p : str) (w : World) :
  way_error (nodes w) (ancestors p) = None -> reach p w = (Val tt, w).
Proof. intros H. unfold reach. now rewrite H. Qed.

Lemma open_w_run (p : str) (w : World) :
  way_error (nodes w) (ancestors p) = None ->
  fs w p <> Some Dir ->
  exists w',
    open_w p w = (Val tt, w')
    /\ log w' = log w ++ [EOpenWrite p]
    /\ forall q, fs w' q = if str_eqb q p then Some (File []) else fs w q.
Proof.
  intros Hway Hp. unfold open_w.
  assert (E : emit (EOpenWrite p) w = (Val tt, logged w [EOpenWrite p]))
    by reflexivity.
  rewrite (bind_run _ _ _ _ _ E).
  rewrite (bind_run _ _ _ _ _ (reach_run p (logged w [EOpenWrite p]) Hway)).
  unfold bind at 1. unfold stat. rewrite fs_logged.
  exists (snd (put p (File []) (logged w [EOpenWrite p]))).
  split; [|split].
  - destruct (fs w p) as [[|c]|]; [now contradiction Hp | reflexivity..].
  - reflexivity.
  - intros q. now rewrite (fs_put p [] (logged w [EOpenWrite p]) Hway Hp q).
Qed.

Lemma f_write_run (p c data : str) (w : World) :
  fs w p = Some (File c) ->
  exists w',
    f_write p data w = (Val tt, w')
    /\ log w' = log w ++ [EWrite p data]
    /\ forall q,
         fs w' q = if str_eqb q p then Some (File (c ++ data)) else fs w q.
Proof.
  intros Hp. unfold f_write.
  assert (E : emit (EWrite p data) w = (Val tt, logged w [EWrite p data]))
    by reflexivity.
  rewrite (bind_run _ _ _ _ _ E).
  unfold bind at 1. unfold stat. rewrite fs_logged, Hp.
  exists (snd (put p (File (c ++ data)) (logged w [EWrite p data]))).
  destruct (fs_some w p _ Hp) as [Hway _].
  split; [reflexivity|]. split; [reflexivity|].
  intros q. apply (fs_put p (c ++ data) (logged w [EWrite p data]) Hway).
  rewrite fs_logged, Hp. discriminate.
Qed.

(** The way to a category file is open when the output directory is
    there. *)
Lemma way_to_category (filename : str) (w : World) :
  in_output_dir filename = true ->
  fs w OUTPUT_DIR = Some Dir ->
  way_error (nodes w) (ancestors (path_of filename)) = None.
Proof.
  intros Hin Hdir. unfold in_output_dir in Hin.
  apply andb_true_iff in Hin as [Hin _]. apply strs_eqb_eq in Hin.
  rewrite Hin. destruct (fs_some w _ _ Hdir) as [Hway Hnode].
  rewrite way_error_app, Hway. cbn [way_error]. now rewrite Hnode.
Qed.

(** The directories of the source document are those of the output
    directory. *)
Lemma same_directories : ancestors SOURCE_FILE = ancestors OUTPUT_DIR.
Proof. vm_compute. reflexivity. Qed.

Lemma way_of_source (w : World) (n : node) :
  fs w SOURCE_FILE = Some n ->
  way_error (nodes w) (ancestors OUTPUT_DIR) = None.
Proof.
  intros H. apply fs_some in H as [H _]. now rewrite <- same_directories.
Qed.

(** [os.makedirs] when every directory on the way is there. *)
Lemma make_dirs_leaf (dirs : list str) (leaf : str) (w : World) :
  (forall d, In d dirs -> fs w d = Some Dir) ->
  make_dirs dirs leaf w = os_mkdir leaf w.
Proof.
  induction dirs as [|d dirs IH]; intros H; [reflexivity|].
  cbn [make_dirs]. unfold bind at 1. unfold bind at 1. unfold stat.
  rewrite (H d) by now left. cbn [ret]. apply IH.
  intros a Hin. apply H. now right.
Qed.

Lemma os_mkdir_run (p : str) (w : World) :
  way_error (nodes w) (ancestors p) = None ->
  fs w p = None ->
  os_mkdir p w = new_dir p w.
Proof.
  intros Hway Hp. unfold os_mkdir.
  rewrite (bind_run _ _ _ _ _ (reach_run p w Hway)).
  unfold bind, stat. now rewrite Hp.
Qed.

Lemma os_mkdir_blocked (p : str) (w : World) (e : exn) :
  way_error (nodes w) (ancestors p) = Some e ->
  os_mkdir p w = (Exc e, w).
Proof.
  intros Hway. unfold os_mkdir, bind, reach. now rewrite Hway.
Qed.

(* ================================================================== *)
(** * Lemmas: the set-up, the read and the writer *)
(* ================================================================== *)

Lemma os_path_exists_run (p : str) (w : World) :
  os_path_exists p w =
  (Val (match fs w p with Some _ => true | None => false end),
   logged w [EExists p]).
Proof. reflexivity. Qed.

(** The set-up when the directories on the way to the output directory
    are there: the output directory is made if it is missing. *)
Lemma ensure_output_dir_run (w : World) :
  way_error (nodes w) (ancestors OUTPUT_DIR) = None ->
  ensure_output_dir w = (Val tt, after_setup w).
Proof.
  intros Hway. unfold ensure_output_dir.
  rewrite (bind_run _ _ _ _ _ (os_path_exists_run OUTPUT_DIR w)).
  unfold after_setup, setup_events.
  destruct (fs w OUTPUT_DIR) as [n|] eqn:E; cbn [negb]; [reflexivity|].
  unfold os_makedirs.
  assert (Em : emit (EMakedirs OUTPUT_DIR) (logged w [EExists OUTPUT_DIR])
               = (Val tt, logged (logged w [EExists OUTPUT_DIR])
                            [EMakedirs OUTPUT_DIR])) by reflexivity.
  set (w2 := logged (logged w [EExists OUTPUT_DIR]) [EMakedirs OUTPUT_DIR])
    in *.
  assert (Hd : (emit (EMakedirs OUTPUT_DIR) ;;
                make_dirs (ancestors OUTPUT_DIR) OUTPUT_DIR)%monad
                 (logged w [EExists OUTPUT_DIR])
               = new_dir OUTPUT_DIR w2).
  { rewrite (bind_run _ _ _ _ _ Em).
    rewrite make_dirs_leaf.
    - apply os_mkdir_run; [exact Hway|].
      unfold w2. now rewrite !fs_logged.
    - intros d Hin. unfold w2. rewrite !fs_logged.
      now apply (fs_on_the_way w OUTPUT_DIR d). }
  unfold bind at 1. rewrite Hd. unfold new_dir, print, emit, w2, logged.
  cbn [nodes log]. rewrite <- !app_assoc. reflexivity.
Qed.

Lemma fs_after_setup (w : World) (q : str) :
  way_error (nodes w) (ancestors OUTPUT_DIR) = None ->
  fs (after_setup w) q = setup_fs w q.
Proof.
  intros Hway. unfold after_setup, setup_fs.
  destruct (fs w OUTPUT_DIR) as [n|] eqn:E; [reflexivity|].
  exact (fs_new_dir OUTPUT_DIR w Hway E q).
Qed.

Lemma log_after_setup (w : World) :
  log (after_setup w) = log w ++ setup_events w.
Proof. reflexivity. Qed.

Lemma read_text_run (w : World) (n : node) :
  fs w SOURCE_FILE = Some n ->
  read_text SOURCE_FILE w =
  (match n with
   | File content => Val (universal_newlines content)
   | Dir => Exc IsADirectoryError
   end, logged w [EOpenRead SOURCE_FILE]).
Proof.
  intros H. destruct (fs_some w _ _ H) as [Hway _]. unfold read_text.
  assert (E : emit (EOpenRead SOURCE_FILE) w
              = (Val tt, logged w [EOpenRead SOURCE_FILE])) by reflexivity.
  rewrite (bind_run _ _ _ _ _ E).
  rewrite (bind_run _ _ _ _ _
             (reach_run _ (logged w [EOpenRead SOURCE_FILE]) Hway)).
  unfold bind, stat. rewrite fs_logged, H. now destruct n.
Qed.

Lemma read_text_absent (w : World) :
  way_error (nodes w) (ancestors SOURCE_FILE) = None ->
  fs w SOURCE_FILE = None ->
  read_text SOURCE_FILE w
  = (Exc FileNotFoundError, logged w [EOpenRead SOURCE_FILE]).
Proof.
  intros Hway H. unfold read_text.
  assert (E : emit (EOpenRead SOURCE_FILE) w
              = (Val tt, logged w [EOpenRead SOURCE_FILE])) by reflexivity.
  rewrite (bind_run _ _ _ _ _ E).
  rewrite (bind_run _ _ _ _ _
             (reach_run _ (logged w [EOpenRead SOURCE_FILE]) Hway)).
  unfold bind, stat. now rewrite fs_logged, H.
Qed.

(** One file: open, three writes, one message. *)
Lemma write_one (filename : str) (blocks : list str) (w : World) :
  in_output_dir filename = true ->
  fs w OUTPUT_DIR = Some Dir ->
  fs w (path_of filename) <> Some Dir ->
  exists w',
    (open_w (path_of filename) ;;
     f_write (path_of filename) (header filename) ;;
     f_write (path_of filename) BANNER ;;
     f_write (path_of filename) (join [LF; LF] blocks) ;;
     print (WROTE_MARK ++ txt " Wrote " ++ str_of_nat (length blocks)
            ++ txt " blocks to " ++ filename))%monad w = (Val tt, w')
    /\ log w' = log w ++ file_events (filename, blocks)
    /\ forall q,
         fs w' q = if str_eqb q (path_of filename)
                   then Some (File (file_text filename blocks))
                   else fs w q.
Proof.
  intros Hin Hdir Hnode.
  pose proof (way_to_category filename w Hin Hdir) as Hway.
  destruct (open_w_run _ w Hway Hnode) as [w1 [R1 [L1 F1]]].
  destruct (f_write_run (path_of filename) [] (header filename) w1)
    as [w2 [R2 [L2 F2]]].
  { now rewrite F1, str_eqb_refl. }
  destruct (f_write_run (path_of filename) ([] ++ header filename) BANNER w2)
    as [w3 [R3 [L3 F3]]].
  { now rewrite F2, str_eqb_refl. }
  destruct (f_write_run (path_of filename)
              (([] ++ header filename) ++ BANNER) (join [LF; LF] blocks) w3)
    as [w4 [R4 [L4 F4]]].
  { now rewrite F3, str_eqb_refl. }
  exists (logged w4 [wrote_message filename blocks]).
  split; [|split].
  - rewrite (bind_run _ _ _ _ _ R1), (bind_run _ _ _ _ _ R2),
      (bind_run _ _ _ _ _ R3), (bind_run _ _ _ _ _ R4).
    reflexivity.
  - unfold logged. cbn [log]. rewrite L4, L3, L2, L1.
    unfold file_events. rewrite join_blank_lines.
    rewrite <- !app_assoc. reflexivity.
  - intros q. rewrite fs_logged, F4.
    destruct (str_eqb q (path_of filename)) eqn:Eq.
    + unfold file_text. rewrite join_blank_lines. cbn [app].
      now rewrite <- app_assoc.
    + now rewrite F3, Eq, F2, Eq, F1, Eq.
Qed.

Lemma bind_assoc {A B C} (m : M A) (f : A -> M B) (g : B -> M C) (w : World) :
  bind (bind m f) g w = bind m (fun a => bind (f a) g) w.
Proof. unfold bind. destruct (m w) as [[a|e] w1]; reflexivity. Qed.

Lemma chain5 {A} (a b c d e : M unit) (rest : M A) (w : World) :
  (a ;; b ;; c ;; d ;; e ;; rest)%monad w
  = ((a ;; b ;; c ;; d ;; e) ;; rest)%monad w.
Proof.
  unfold bind.
  destruct (a w) as [[[]|] w1]; [|reflexivity].
  destruct (b w1) as [[[]|] w2]; [|reflexivity].
  destruct (c w2) as [[[]|] w3]; [|reflexivity].
  destruct (d w3) as [[[]|] w4]; [|reflexivity].
  destruct (e w4) as [[[]|] w5]; reflexivity.
Qed.

Lemma find_rev_snoc {A} (p : A -> bool) (l : list A) (x : A) :
  find p (rev (x :: l)) =
  match find p (rev l) with
  | Some y => Some y
  | None => if p x then Some x else None
  end.
Proof.
  simpl. generalize (rev l) as r. intros r.
  induction r as [|y r IH]; simpl; [reflexivity|].
  destruct (p y); [reflexivity | exact IH].
Qed.

Lemma written_cons (filename : str) (blocks : list str) (d : dict) :
  written ((filename, blocks) :: d) =
  if str_eqb filename (txt "00-enums.graphql") then written d
  else (filename, blocks) :: written d.
Proof.
  unfold written. cbn [filter fst].
  destruct (str_eqb filename (txt "00-enums.graphql")); reflexivity.
Qed.

(** The writer loop. *)
Lemma for_item_run (d : dict) :
  forall w,
    fs w OUTPUT_DIR = Some Dir ->
    forallb in_output_dir (keys (written d)) = true ->
    (forall k, In k (keys (written d)) -> fs w (path_of k) <> Some Dir) ->
    exists w',
      for_item d w = (Val tt, w')
      /\ log w' = log w ++ flat_map file_events (written d)
      /\ forall q,
           fs w' q =
           match written_at d q with
           | Some item => Some (File (file_text (fst item) (snd item)))
           | None => fs w q
           end.
Proof.
  induction d as [|[filename blocks] d IH]; intros w Hdir Hkeys Hnodes.
  - exists w. cbn. rewrite app_nil_r. repeat split; reflexivity.
  - cbn [for_item]. unfold written_at in *.
    rewrite written_cons in *.
    destruct (str_eqb filename (txt "00-enums.graphql")) eqn:Eenum.
    + apply IH; assumption.
    + cbn [keys map fst forallb] in Hkeys.
      apply andb_true_iff in Hkeys as [Hk Hkeys].
      fold (path_of filename). rewrite chain5.
      destruct (write_one filename blocks w Hk Hdir) as [w1 [Hrun [Hlog Hfs]]].
      { apply Hnodes. now left. }
      rewrite (bind_run _ _ _ _ _ Hrun).
      assert (Hne : str_eqb OUTPUT_DIR (path_of filename) = false).
      { unfold in_output_dir in Hk. apply andb_true_iff in Hk as [_ Hk].
        apply negb_true_iff in Hk. now rewrite str_eqb_sym. }
      destruct (IH w1) as [w' [Hrun' [Hlog' Hfs']]].
      * rewrite Hfs, Hne. exact Hdir.
      * exact Hkeys.
      * intros k Hin. rewrite Hfs.
        destruct (str_eqb (path_of k) (path_of filename)); [discriminate|].
        apply Hnodes. now right.
      * exists w'. split; [exact Hrun'|]. split.
        -- rewrite Hlog', Hlog. cbn [flat_map]. now rewrite <- app_assoc.
        -- intros q. rewrite Hfs'. rewrite find_rev_snoc. cbn [fst snd].
           destruct (find _ (rev (written d))); [reflexivity|].
           rewrite Hfs.
           destruct (str_eqb q (path_of filename)); reflexivity.
Qed.

(* ================================================================== *)
(** * Lemmas: a whole run *)
(* ================================================================== *)

Lemma written_files_content_of (bs : list str) :
  written (files_content_of bs) = outputs bs.
Proof. reflexivity. Qed.

Lemma table_in_output_dir :
  forallb in_output_dir (keys FILE_MAPPINGS) = true.
Proof. vm_compute. reflexivity. Qed.

Lemma keys_outputs (bs : list str) : keys (outputs bs) = keys FILE_MAPPINGS.
Proof.
  unfold outputs, keys. rewrite map_map. cbn [fst]. apply map_id.
Qed.

(** Everything after the read, on a world whose output directory is
    there. *)
Lemma process_run (content : str) (w : World) :
  fs w OUTPUT_DIR = Some Dir ->
  (forall k, In k (keys FILE_MAPPINGS) -> fs w (path_of k) <> Some Dir) ->
  let bs := kept_blocks content in
  exists w',
    process content w = (Val tt, w')
    /\ log w' = log w ++ [found_message content] ++ flat_map patch_log bs
                ++ flat_map file_events (outputs bs) ++ closing_events
    /\ forall q,
         fs w' q =
         match written_at (files_content_of bs) q with
         | Some item => Some (File (file_text (fst item) (snd item)))
         | None => fs w q
         end.
Proof.
  intros Hdir Hnodes bs. unfold process. cbv zeta.
  rewrite (bind_run _ _ _ _ _ (print_run _ w)).
  rewrite (bind_run _ _ _ _ _
             (for_block_run (split pattern content) initial_files_content
                _ eq_refl)).
  fold (kept_blocks content). fold bs. rewrite assign_initial.
  destruct (for_item_run (files_content_of bs)
              (logged (logged w [found_message content])
                 (flat_map patch_log bs)))
    as [w1 [Hrun [Hlog Hfs]]].
  - exact Hdir.
  - rewrite written_files_content_of, keys_outputs.
    apply table_in_output_dir.
  - rewrite written_files_content_of, keys_outputs. exact Hnodes.
  - unfold found_message in *.
    rewrite (bind_run _ _ _ _ _ Hrun).
    eexists. split; [reflexivity|]. split.
    + cbn [log]. rewrite Hlog. rewrite written_files_content_of.
      cbn [log logged].
      unfold closing_events. rewrite <- !app_assoc. reflexivity.
    + intros q. rewrite (fs_same_nodes w1) by reflexivity.
      rewrite Hfs. now rewrite !fs_logged.
Qed.

Lemma setup_fs_output_dir (w : World) :
  output_ok w = true -> setup_fs w OUTPUT_DIR = Some Dir.
Proof.
  unfold output_ok, setup_fs. intros H. apply andb_true_iff in H as [H _].
  destruct (fs w OUTPUT_DIR) as [[|c]|] eqn:E.
  - exact E.
  - discriminate.
  - now rewrite str_eqb_refl.
Qed.

Lemma setup_fs_other (w : World) (q : str) :
  str_eqb q OUTPUT_DIR = false -> setup_fs w q = fs w q.
Proof.
  unfold setup_fs. intros H.
  destruct (fs w OUTPUT_DIR); [reflexivity|]. now rewrite H.
Qed.

Lemma path_of_not_output_dir (k : str) :
  In k (keys FILE_MAPPINGS) -> str_eqb (path_of k) OUTPUT_DIR = false.
Proof.
  intros Hin. pose proof table_in_output_dir as H.
  rewrite forallb_forall in H. specialize (H k Hin).
  unfold in_output_dir in H. apply andb_true_iff in H as [_ H].
  now apply negb_true_iff in H.
Qed.

Lemma output_ok_paths (w : World) (k : str) :
  output_ok w = true -> In k (keys FILE_MAPPINGS) ->
  fs w (path_of k) <> Some Dir.
Proof.
  unfold output_ok. intros H Hin. apply andb_true_iff in H as [_ H].
  rewrite forallb_forall in H. specialize (H k Hin).
  destruct (fs w (path_of k)) as [[|c]|]; congruence.
Qed.

(** A run on a world where the source can be read and the output can
    be written. *)
Lemma split_schema_run (w : World) (raw : str) :
  fs w SOURCE_FILE = Some (File raw) ->
  output_ok w = true ->
  let content := universal_newlines raw in
  exists w',
    split_schema w = (Val tt, w')
    /\ log w' = log w ++ run_events w content
    /\ forall q,
         fs w' q =
         match written_at (files_content_of (kept_blocks content)) q with
         | Some item => Some (File (file_text (fst item) (snd item)))
         | None => setup_fs w q
         end.
Proof.
  intros Hsrc Hok content. unfold split_schema.
  pose proof (way_of_source w _ Hsrc) as Hway.
  rewrite (bind_run _ _ _ _ _ (ensure_output_dir_run w Hway)).
  assert (Hsrc' : fs (after_setup w) SOURCE_FILE = Some (File raw)).
  { rewrite fs_after_setup by exact Hway.
    rewrite setup_fs_other by reflexivity. exact Hsrc. }
  unfold bind at 1. unfold try. rewrite (read_text_run _ _ Hsrc').
  fold content.
  destruct (process_run content (logged (after_setup w) [EOpenRead SOURCE_FILE]))
    as [w' [Hrun [Hlog Hfs]]].
  - rewrite fs_logged, fs_after_setup by exact Hway.
    now apply setup_fs_output_dir.
  - intros k Hin. rewrite fs_logged, fs_after_setup by exact Hway.
    rewrite setup_fs_other by now apply path_of_not_output_dir.
    now apply output_ok_paths.
  - exists w'. split; [exact Hrun|]. split.
    + rewrite Hlog. cbn [logged log]. rewrite log_after_setup.
      unfold run_events. rewrite <- !app_assoc. reflexivity.
    + intros q. rewrite Hfs. rewrite fs_logged.
      now rewrite fs_after_setup by exact Hway.
Qed.

(** The file the writer leaves for a category of the table. *)
Lemma written_at_table (f : str -> list str) (k : str) :
  In k (keys FILE_MAPPINGS) ->
  find (fun item => str_eqb (path_of k) (path_of (fst item)))
    (rev (written (map (fun k => (k, f k)) table_keys)))
  = Some (k, f k).
Proof.
  intros Hin. cbn in Hin.
  repeat (destruct Hin as [<-|Hin]; [vm_compute; reflexivity|]).
  destruct Hin.
Qed.

Lemma written_at_category (bs : list str) (k : str) :
  In k (keys FILE_MAPPINGS) ->
  written_at (files_content_of bs) (path_of k) = Some (k, stored_for k bs).
Proof.
  intros Hin. unfold written_at, files_content_of.
  now apply (written_at_table (fun k => stored_for k bs)).
Qed.

(* ================================================================== *)
(** * Lemmas: the set-up on any world *)
(* ================================================================== *)

Lemma bind_raise {A B} (m : M A) (k : A -> M B) (w w1 : World) (e : exn) :
  m w = (Exc e, w1) -> bind m k w = (Exc e, w1).
Proof. intros H. unfold bind. now rewrite H. Qed.

Lemma nested_in (todo : list str) :
  forall passed x,
    nested passed todo = true -> In x todo ->
    forall a, In a passed -> In a (ancestors x).
Proof.
  induction todo as [|d todo IH]; intros passed x Hn Hin a Ha;
    [destruct Hin|].
  cbn [nested] in Hn. apply andb_true_iff in Hn as [Hd Hn].
  apply strs_eqb_eq in Hd. destruct Hin as [<- | Hin].
  - now rewrite Hd.
  - apply (IH (passed ++ [d]) x Hn Hin). apply in_or_app. now left.
Qed.

(** Once a regular file is on the way, the next [mkdir] raises. *)
Lemma make_dirs_after_file (dirs : list str) (leaf : str) (w : World) :
  forall passed,
    nested passed (dirs ++ [leaf]) = true ->
    way_error (nodes w) passed = Some NotADirectoryError ->
    make_dirs dirs leaf w = (Exc NotADirectoryError, w).
Proof.
  induction dirs as [|d dirs IH]; intros passed Hn Hway;
    cbn [app nested] in Hn; apply andb_true_iff in Hn as [Hd Hn];
    apply strs_eqb_eq in Hd; cbn [make_dirs].
  - apply os_mkdir_blocked. now rewrite Hd.
  - unfold bind at 1. unfold stat.
    rewrite fs_unreached by (rewrite Hd, Hway; discriminate).
    apply bind_raise. apply os_mkdir_blocked. now rewrite Hd.
Qed.

(** [os.makedirs] with a regular file on the way: nothing is made. *)
Lemma make_dirs_file (dirs : list str) (leaf : str) (w : World) :
  forall passed,
    nested passed (dirs ++ [leaf]) = true ->
    (forall a, In a passed -> fs w a = Some Dir) ->
    (exists d c, In d dirs /\ fs w d = Some (File c)) ->
    make_dirs dirs leaf w = (Exc NotADirectoryError, w).
Proof.
  induction dirs as [|d dirs IH]; intros passed Hn Hp [f [c [Hin Hf]]];
    [destruct Hin|].
  cbn [app nested] in Hn. apply andb_true_iff in Hn as [Hd Hn].
  apply strs_eqb_eq in Hd. cbn [make_dirs].
  pose proof (way_of_dirs w passed Hp) as Hway.
  assert (Hnode : fs w d = nodes w d) by (apply fs_reached; now rewrite Hd).
  unfold bind at 1. unfold bind at 1. unfold stat.
  destruct (fs w d) as [[|c']|] eqn:E; cbn [ret].
  - apply (IH (passed ++ [d]) Hn).
    + intros a Ha. apply in_app_or in Ha as [Ha | [<- | []]];
        [now apply Hp | exact E].
    + destruct Hin as [<- | Hin]; [congruence|]. now exists f, c.
  - apply (make_dirs_after_file dirs leaf w (passed ++ [d]) Hn).
    rewrite way_error_app, Hway. cbn [way_error]. now rewrite <- Hnode.
  - exfalso. destruct Hin as [<- | Hin]; [congruence|].
    assert (Hd' : In d (ancestors f)).
    { apply (nested_in (dirs ++ [leaf]) (passed ++ [d]) f Hn).
      - apply in_or_app. now left.
      - apply in_or_app. right. now left. }
    destruct (fs_some w f _ Hf) as [Hwf _].
    rewrite way_error_none in Hwf. specialize (Hwf d Hd'). congruence.
Qed.

(** [os.makedirs] with no regular file on the way: every directory on
    the way and the leaf are there afterwards. *)
Lemma make_dirs_made (dirs : list str) (leaf : str) :
  forall passed w,
    nested passed (dirs ++ [leaf]) = true ->
    (forall a, In a passed -> fs w a = Some Dir) ->
    (forall d c, In d dirs -> fs w d <> Some (File c)) ->
    fs w leaf = None ->
    exists w',
      make_dirs dirs leaf w = (Val tt, w')
      /\ log w' = log w
      /\ forall q,
           fs w' q = if existsb (str_eqb q) (dirs ++ [leaf])
                     then Some Dir else fs w q.
Proof.
  induction dirs as [|d dirs IH]; intros passed w Hn Hp Hnf Hleaf;
    cbn [app nested] in Hn; apply andb_true_iff in Hn as [Hd Hn];
    apply strs_eqb_eq in Hd; cbn [make_dirs];
    pose proof (way_of_dirs w passed Hp) as Hway.
  - rewrite <- Hd in Hway. rewrite (os_mkdir_run leaf w Hway Hleaf).
    exists (snd (new_dir leaf w)). split; [reflexivity|].
    split; [reflexivity|]. intros q. cbn [app existsb].
    rewrite orb_false_r. exact (fs_new_dir leaf w Hway Hleaf q).
  - rewrite <- Hd in Hway.
    assert (Hlater : forall x, In x (dirs ++ [leaf]) -> str_eqb x d = false).
    { intros x Hx. rewrite str_eqb_sym. apply ancestor_neq.
      apply (nested_in (dirs ++ [leaf]) (passed ++ [d]) x Hn Hx).
      apply in_or_app. right. now left. }
    unfold bind at 1. unfold bind at 1. unfold stat.
    destruct (fs w d) as [[|c]|] eqn:E; cbn [ret].
    + destruct (IH (passed ++ [d]) w Hn) as [w' [Hrun [Hlog Hfs]]].
      * intros a Ha. apply in_app_or in Ha as [Ha | [<- | []]];
          [now apply Hp | exact E].
      * intros x c Hx. apply Hnf. now right.
      * exact Hleaf.
      * exists w'. split; [exact Hrun|]. split; [exact Hlog|].
        intros q. rewrite Hfs. cbn [app existsb].
        destruct (str_eqb q d) eqn:Eq; [|reflexivity].
        apply str_eqb_eq in Eq. subst q. rewrite E.
        now destruct (existsb (str_eqb d) (dirs ++ [leaf])).
    + exfalso. apply (Hnf d c); [now left | exact E].
    + rewrite (os_mkdir_run d w Hway E).
      pose proof (fs_new_dir d w Hway E) as Hnew.
      set (w1 := snd (new_dir d w)) in *.
      change (new_dir d w) with (Val tt, w1). cbv iota.
      destruct (IH (passed ++ [d]) w1 Hn) as [w' [Hrun [Hlog Hfs]]].
      * intros a Ha. rewrite Hnew.
        apply in_app_or in Ha as [Ha | [<- | []]].
        -- rewrite ancestor_neq by now rewrite Hd. now apply Hp.
        -- now rewrite str_eqb_refl.
      * intros x c Hx. rewrite Hnew.
        rewrite Hlater by (apply in_or_app; now left).
        apply Hnf. now right.
      * rewrite Hnew. rewrite Hlater by (apply in_or_app; right; now left).
        exact Hleaf.
      * exists w'. split; [exact Hrun|]. split; [exact Hlog|].
        intros q. rewrite Hfs, Hnew. cbn [app existsb].
        now destruct (str_eqb q d), (existsb (str_eqb q) (dirs ++ [leaf])).
Qed.

(** The directories that were there need no making. *)
Lemma made_missing (w : World) (l : list str) (q : str) :
  (forall d, In d l -> fs w d = Some Dir \/ fs w d = None) ->
  (if existsb (str_eqb q) l then Some Dir else fs w q)
  = (if existsb (str_eqb q)
          (filter (fun d => match fs w d with
                            | None => true
                            | Some _ => false
                            end) l)
     then Some Dir else fs w q).
Proof.
  induction l as [|d l IH]; intros H; [reflexivity|].
  cbn [existsb filter].
  specialize (IH (fun x Hx => H x (or_intror Hx))).
  destruct (H d (or_introl eq_refl)) as [E | E]; rewrite E.
  - destruct (str_eqb q d) eqn:Eq; cbn [orb]; [|exact IH].
    apply str_eqb_eq in Eq. subst q. rewrite <- IH, E.
    now destruct (existsb (str_eqb d) l).
  - cbn [existsb]. now destruct (str_eqb q d).
Qed.

Lemma output_dirs_nested :
  nested [] (ancestors OUTPUT_DIR ++ [OUTPUT_DIR]) = true.
Proof. vm_compute. reflexivity. Qed.

Lemma way_blocked_true (w : World) :
  way_blocked w = true ->
  exists d c, In d (ancestors OUTPUT_DIR) /\ fs w d = Some (File c).
Proof.
  unfold way_blocked. rewrite existsb_exists. intros [d [Hin H]].
  destruct (fs w d) as [[|c]|] eqn:E; try discriminate. now exists d, c.
Qed.

Lemma way_blocked_false (w : World) :
  way_blocked w = false ->
  forall d c, In d (ancestors OUTPUT_DIR) -> fs w d <> Some (File c).
Proof.
  unfold way_blocked. intros H d c Hin E.
  assert (Ht : existsb (fun d => match fs w d with
                                 | Some (File _) => true
                                 | _ => false
                                 end) (ancestors OUTPUT_DIR) = true).
  { apply existsb_exists. exists d. split; [exact Hin|]. now rewrite E. }
  congruence.
Qed.

Lemma source_not_made :
  existsb (str_eqb SOURCE_FILE) (ancestors OUTPUT_DIR ++ [OUTPUT_DIR]) = false.
Proof. vm_compute. reflexivity. Qed.

Lemma category_not_made (k : str) :
  In k (keys FILE_MAPPINGS) ->
  existsb (str_eqb (path_of k)) (ancestors OUTPUT_DIR ++ [OUTPUT_DIR]) = false.
Proof.
  intros Hin. cbn in Hin.
  repeat (destruct Hin as [<- | Hin]; [vm_compute; reflexivity|]).
  destruct Hin.
Qed.

(** The set-up on any world that has nothing at the output path. *)
Lemma ensure_output_dir_absent (w : World) :
  fs w OUTPUT_DIR = None ->
  exists w',
    ensure_output_dir w
    = (if way_blocked w then Exc NotADirectoryError else Val tt, w')
    /\ log w' =
       log w ++ [EExists OUTPUT_DIR; EMakedirs OUTPUT_DIR]
       ++ (if way_blocked w then [] else [CREATED_MESSAGE])
    /\ forall q,
         fs w' q = if existsb (str_eqb q) (made_dirs w)
                   then Some Dir else fs w q.
Proof.
  intros Habs. unfold ensure_output_dir.
  rewrite (bind_run _ _ _ _ _ (os_path_exists_run OUTPUT_DIR w)).
  rewrite Habs. cbn [negb]. unfold os_makedirs, made_dirs. rewrite Habs.
  assert (Em : emit (EMakedirs OUTPUT_DIR) (logged w [EExists OUTPUT_DIR])
               = (Val tt, logged w [EExists OUTPUT_DIR; EMakedirs OUTPUT_DIR])).
  { unfold emit, logged. cbn [nodes log]. now rewrite <- app_assoc. }
  set (w2 := logged w [EExists OUTPUT_DIR; EMakedirs OUTPUT_DIR]) in *.
  assert (Hfs2 : forall q, fs w2 q = fs w q)
    by (intros q; unfold w2; apply fs_logged).
  destruct (way_blocked w) eqn:Eb.
  - exists w2. split; [|split].
    + apply bind_raise. rewrite (bind_run _ _ _ _ _ Em).
      apply (make_dirs_file _ _ w2 [] output_dirs_nested).
      * intros a [].
      * destruct (way_blocked_true w Eb) as [d [c [Hin Hd]]].
        exists d, c. split; [exact Hin|]. now rewrite Hfs2.
    + unfold w2, logged. cbn [log]. now rewrite app_nil_r.
    + intros q. cbn [existsb]. apply Hfs2.
  - destruct (make_dirs_made (ancestors OUTPUT_DIR) OUTPUT_DIR [] w2
                output_dirs_nested) as [w3 [Hrun [Hlog Hfs]]].
    + intros a [].
    + intros d c Hin. rewrite Hfs2. now apply way_blocked_false.
    + now rewrite Hfs2.
    + exists (logged w3 [CREATED_MESSAGE]). split; [|split].
      * assert (Hmk : (emit (EMakedirs OUTPUT_DIR) ;;
                       make_dirs (ancestors OUTPUT_DIR) OUTPUT_DIR)%monad
                        (logged w [EExists OUTPUT_DIR]) = (Val tt, w3))
          by (rewrite (bind_run _ _ _ _ _ Em); exact Hrun).
        rewrite (bind_run _ _ _ _ _ Hmk). reflexivity.
      * unfold logged at 1. cbn [log]. rewrite Hlog. unfold w2, logged.
        cbn [log]. now rewrite <- app_assoc.
      * intros q. rewrite fs_logged, Hfs, Hfs2.
        apply made_missing. intros d Hin.
        apply in_app_or in Hin as [Hin | [<- | []]]; [|now right].
        pose proof (way_blocked_false w Eb d) as Hnf.
        destruct (fs w d) as [[|c]|]; [now left | | now right].
        now contradiction (Hnf c Hin).
Qed.

Lemma not_made (w : World) (q : str) :
  existsb (str_eqb q) (ancestors OUTPUT_DIR ++ [OUTPUT_DIR]) = false ->
  existsb (str_eqb q) (made_dirs w) = false.
Proof.
  intros H. unfold made_dirs.
  destruct (fs w OUTPUT_DIR); [reflexivity|].
  destruct (way_blocked w); [reflexivity|].
  induction (ancestors OUTPUT_DIR ++ [OUTPUT_DIR]) as [|d l IH];
    [reflexivity|].
  cbn [existsb] in H. apply orb_false_iff in H as [Hd H].
  cbn [filter]. destruct (fs w d); [now apply IH|].
  cbn [existsb]. rewrite Hd. now apply IH.
Qed.

(** The set-up on any world. *)
Lemma ensure_output_dir_any (w : World) :
  exists w',
    ensure_output_dir w
    = (if setup_fails w then Exc NotADirectoryError else Val tt, w')
    /\ log w' =
       log w
       ++ [EExists OUTPUT_DIR]
       ++ match fs w OUTPUT_DIR with
          | None => [EMakedirs OUTPUT_DIR]
          | Some _ => []
          end
       ++ (if setup_fails w then []
           else match fs w OUTPUT_DIR with
                | None => [CREATED_MESSAGE]
                | Some _ => []
                end)
    /\ (forall q,
          fs w' q = if existsb (str_eqb q) (made_dirs w)
                    then Some Dir else fs w q)
    /\ (setup_fails w = false ->
        way_error (nodes w') (ancestors SOURCE_FILE) = None).
Proof.
  unfold setup_fails. destruct (fs w OUTPUT_DIR) as [n|] eqn:E.
  - destruct (fs_some w _ _ E) as [Hway _].
    exists (after_setup w). split; [now apply ensure_output_dir_run|].
    split; [|split].
    + rewrite log_after_setup. unfold setup_events. now rewrite E.
    + intros q. rewrite fs_after_setup by exact Hway.
      unfold setup_fs, made_dirs. now rewrite E.
    + intros _. rewrite same_directories. apply way_of_dirs.
      intros a Hin. rewrite fs_after_setup by exact Hway.
      unfold setup_fs. rewrite E. now apply (fs_on_the_way w OUTPUT_DIR).
  - destruct (ensure_output_dir_absent w E) as [w' [Hrun [Hlog Hfs]]].
    exists w'. split; [exact Hrun|]. split; [|split].
    + rewrite Hlog. now destruct (way_blocked w).
    + exact Hfs.
    + intros Eb. rewrite same_directories. apply way_of_dirs.
      intros a Hin. rewrite Hfs. unfold made_dirs. rewrite E, Eb.
      rewrite <- made_missing.
      * assert (Ha : existsb (str_eqb a) (ancestors OUTPUT_DIR ++ [OUTPUT_DIR])
                     = true).
        { apply existsb_exists. exists a. split.
          - apply in_or_app. now left.
          - apply str_eqb_refl. }
        now rewrite Ha.
      * intros d Hd. apply in_app_or in Hd as [Hd | [<- | []]]; [|now right].
        pose proof (way_blocked_false w Eb d) as Hnf.
        destruct (fs w d) as [[|c]|]; [now left | | now right].
        now contradiction (Hnf c Hd).
Qed.

(* ================================================================== *)
(** * The properties of the specification *)
(* ================================================================== *)

(** ** Partition *)

(** C1, as stated, fails on the document that holds only the Game
    type: the one block of the document is kept, but the games list
    holds the patched text, so the lists together are not the blocks. *)
Lemma C1_union_is_not_the_blocks :
  let content := txt "type Game @model { id: ID! }" in
  exists fc w',
    for_block (split pattern content) initial_files_content empty_world
    = (Val fc, w')
    /\ kept_blocks content = [content]
    /\ concat (map snd fc) = [patched content]
    /\ ~ Permutation (concat (map snd fc)) (kept_blocks content).
Proof.
  cbv zeta. eexists. eexists. split; [vm_compute; reflexivity|].
  split; [vm_compute; reflexivity|].
  split; [vm_compute; reflexivity|].
  intros H. apply Permutation_length_1 in H. vm_compute in H. discriminate H.
Qed.

(** C1, amended: for every document the block loop ends without an
    error; every kept block (non-empty after trimming, not opening with
    "enum ") is appended once, to the list of its one destination, in
    its stored form (the patched text when the Game patch fires, the
    block itself otherwise); the lists of all categories together are,
    as a multiset, exactly these stored texts. *)
Theorem C1_partition (content : str) (w : World) :
  exists fc w',
    for_block (split pattern content) initial_files_content w = (Val fc, w')
    /\ keys fc = keys FILE_MAPPINGS ++ [ENUMS]
    /\ (forall b, In b (kept_blocks content) ->
          In (destination b) (keys FILE_MAPPINGS))
    /\ (forall k, In k (keys fc) ->
          getitem fc k
          = Some (map stored
                    (filter (fun b => str_eqb (destination b) k)
                       (kept_blocks content))))
    /\ Permutation (concat (map snd fc)) (map stored (kept_blocks content)).
Proof.
  rewrite for_block_run by reflexivity. cbv zeta.
  fold (kept_blocks content).
  eexists. eexists. split; [reflexivity|].
  split; [now rewrite keys_assign|].
  split; [intros b _; apply destination_in|].
  split.
  - intros k Hin. rewrite keys_assign in Hin.
    rewrite getitem_assign by reflexivity.
    now rewrite getitem_initial by exact Hin.
  - apply (concat_assign (kept_blocks content) initial_files_content eq_refl).
Qed.

(** ** Enum exclusion *)

(** C2 at its failing input: a document that is one enum declaration
    with a tab after the keyword.  The split pattern takes [enum\s+\w+]
    for a declaration, the skip test asks for "enum" and one space, and
    so the enum is written to the catch-all file. *)
Lemma C2_enum_after_tab_is_written :
  let raw := txt "enum" ++ [TAB] ++ txt "Status { A B }" in
  truthy (match_at (Cat [Lit (txt "enum"); Plus Space; Plus Word])
            (Cursor [] raw)) = true
  /\ startswith (txt "enum ") raw = false
  /\ fst (split_schema (world_with raw)) = Val tt
  /\ fs (snd (split_schema (world_with raw))) (path_of MUTATIONS)
     = Some (File (file_text MUTATIONS [raw])).
Proof. vm_compute. repeat split; reflexivity. Qed.

(** ** First match in declared order, anchored at the start *)

(** C3: for every block [b], with the table of the script:
    - if the table is cut at a category [k] and its pattern [pat] such
      that no pattern before [pat] (in the categories before [k], then
      in [k] itself) matches [b] and [pat] does, the two loops end with
      the block assigned and with one entry appended to the list of [k],
      whatever the later patterns and categories are: the list of [k]
      in the dictionary is its old list with this entry behind it, the
      lists of all other keys and the order of the keys are as they
      were, and the entry is the block itself unless the patch of the
      Game type applies;
    - if no pattern of the table matches, the loops change nothing and
      leave the block unassigned;
    - every pattern of the table matches only from index 0 of the block;
    - so a block that opens with a comment character is matched by no
      pattern, and the body of the block loop hands it to the keyword
      heuristic, which appends it to the list of the category it
      chooses. *)
Theorem C3_first_match_anchored (b : str) (d : dict) (w : World) :
  keys d = table_keys ->
  (forall pre k post ps1 pat ps2,
      FILE_MAPPINGS = pre ++ (k, ps1 ++ pat :: ps2) :: post ->
      none_match b pre ->
      Forall (fun p => matches b p = false) ps1 ->
      matches b pat = true ->
      exists text d',
        for_filename FILE_MAPPINGS (Locals b false d) w
        = (Val (Locals text true d'), logged w (patch_events k b))
        /\ text = stored_at k b
        /\ (k <> GAMES \/ contains (txt "type Game @model") b = false ->
            text = b)
        /\ d' = add d k text
        /\ keys d' = keys d
        /\ getitem d' k = option_map (fun v => v ++ [text]) (getitem d k)
        /\ (forall k', k' <> k -> getitem d' k' = getitem d k'))
  /\ (none_match b FILE_MAPPINGS ->
      for_filename FILE_MAPPINGS (Locals b false d) w
      = (Val (Locals b false d), w))
  /\ (forall pat, In pat table_patterns ->
        (forall m, search pat b = Some m -> fst (span m) = 0)
        /\ matches b pat = truthy (match_at pat (Cursor [] b)))
  /\ (forall rest, b = "#"%char :: rest ->
        none_match b FILE_MAPPINGS
        /\ exists d',
             block_body b d w = (Val d', w)
             /\ d' = add d (fallback (strip b)) (strip b)
             /\ keys d' = keys d
             /\ getitem d' (fallback (strip b))
                = option_map (fun v => v ++ [strip b])
                    (getitem d (fallback (strip b)))
             /\ (forall k', k' <> fallback (strip b) ->
                   getitem d' k' = getitem d k')).
Proof.
  intros Hk.
  assert (Hkeys : forall k, In k (keys FILE_MAPPINGS) -> In k (keys d))
    by (intros k Hin; rewrite Hk; now apply in_table_keys).
  assert (Hadd : forall k x,
             In k (keys d) ->
             keys (add d k x) = keys d
             /\ getitem (add d k x) k
                = option_map (fun v => v ++ [x]) (getitem d k)
             /\ (forall k', k' <> k -> getitem (add d k x) k' = getitem d k')).
  { intros k x Hin. split; [apply keys_add|]. split.
    - rewrite getitem_add by exact Hin. now rewrite str_eqb_refl.
    - intros k' Hne. rewrite getitem_add by exact Hin.
      destruct (str_eqb k k') eqn:E; [|reflexivity].
      apply str_eqb_eq in E. congruence. }
  split; [|split; [|split]].
  - intros pre k post ps1 pat ps2 Hcut Hpre Hps1 Hpat.
    assert (Hin : In k (keys d)).
    { apply Hkeys. rewrite Hcut. unfold keys. rewrite map_app.
      apply in_or_app. right. now left. }
    exists (stored_at k b), (add d k (stored_at k b)).
    split.
    { rewrite for_filename_run by exact Hkeys.
      rewrite Hcut. now rewrite find_first_match. }
    split; [reflexivity|].
    split.
    { unfold stored_at, patch_fires. intros [Hne | Hc].
      - apply str_eqb_neq in Hne. unfold GAMES in Hne. rewrite Hne.
        now rewrite andb_false_r.
      - now rewrite Hc. }
    split; [reflexivity|]. now apply Hadd.
  - intros Hnone. rewrite for_filename_run by exact Hkeys.
    now rewrite none_match_find.
  - intros pat Hin. pose proof (table_pattern_anchored pat Hin) as Ha. split.
    + intros m Hm. rewrite search_anchored in Hm by exact Ha.
      destruct (match_at pat (Cursor [] b)); [|discriminate].
      now injection Hm as <-.
    + now apply matches_anchored.
  - intros rest ->.
    assert (Hnone : none_match ("#"%char :: rest) FILE_MAPPINGS).
    { unfold none_match. rewrite Forall_forall. intros [k pats] Hi.
      rewrite Forall_forall. intros pat Hp.
      apply comment_matches_nothing.
      eapply in_table_patterns; eassumption. }
    split; [exact Hnone|].
    exists (add d (fallback (strip ("#"%char :: rest)))
              (strip ("#"%char :: rest))).
    split.
    { rewrite block_body_run by exact Hk. cbv zeta.
      assert (E : strip ("#"%char :: rest) = "#"%char :: rstrip rest)
        by now apply strip_cons.
      rewrite E. unfold kept.
      cbn [str_eqb startswith txt list_ascii_of_string].
      change (Ascii.eqb "e" "#") with false. cbn [negb andb].
      unfold destination, stored, patch_log.
      rewrite comment_classify. now rewrite logged_nil. }
    split; [reflexivity|]. apply Hadd.
    rewrite Hk. apply in_table_keys, fallback_in.
Qed.

(** C3 at the Game block: the first two categories do not match, the
    first pattern of the games category does; the games list then holds
    the patched block and the lists before it hold nothing. *)
Lemma C3_first_match_anchored_witness :
  exists d',
    for_filename FILE_MAPPINGS (Locals GAME_BLOCK false initial_files_content)
      empty_world
    = (Val (Locals GAME_BLOCK_PATCHED true d'),
       logged empty_world [PATCH_MESSAGE])
    /\ getitem d' GAMES = Some [GAME_BLOCK_PATCHED]
    /\ getitem d' ENTITIES = Some []
    /\ getitem d' VENUES = Some []
    /\ getitem d' MUTATIONS = Some []
    /\ keys d' = keys FILE_MAPPINGS ++ [ENUMS].
Proof.
  destruct (C3_first_match_anchored GAME_BLOCK initial_files_content
              empty_world eq_refl) as [H _].
  destruct (H (firstn 2 FILE_MAPPINGS) GAMES (skipn 3 FILE_MAPPINGS) []
              (Cat [Bol; Lit (txt "type Game"); WordB])
              (tl (snd (nth 2 FILE_MAPPINGS (GAMES, [])))))
    as [text [d' [Hrun [Htext [_ [_ [Hkeys [Hget Hother]]]]]]]].
  - reflexivity.
  - apply none_match_b_true. vm_compute. reflexivity.
  - constructor.
  - vm_compute. reflexivity.
  - assert (E : text = GAME_BLOCK_PATCHED)
      by (rewrite Htext; vm_compute; reflexivity).
    rewrite E in Hrun, Hget. exists d'. split; [exact Hrun|].
    split; [rewrite Hget; vm_compute; reflexivity|].
    split; [rewrite Hother by (apply str_eqb_neq; vm_compute; reflexivity);
            vm_compute; reflexivity|].
    split; [rewrite Hother by (apply str_eqb_neq; vm_compute; reflexivity);
            vm_compute; reflexivity|].
    split; [rewrite Hother by (apply str_eqb_neq; vm_compute; reflexivity);
            vm_compute; reflexivity|].
    rewrite Hkeys. vm_compute. reflexivity.
Defined.

(** ** The Game patch *)

(** C4, as stated, fails on a block that reaches the games category
    through the keyword heuristic: it holds the marker and a closing
    brace, and it is stored as it is. *)
Lemma C4_heuristic_block_is_not_patched :
  let content := txt "# type Game @model { id: ID! }" in
  contains (txt "type Game @model") content = true
  /\ rfind (txt "}") content = 29%Z
  /\ exists fc w',
       for_block (split pattern content) initial_files_content empty_world
       = (Val fc, w')
       /\ getitem fc GAMES = Some [content]
       /\ content <> patched content.
Proof.
  cbv zeta. split; [vm_compute; reflexivity|].
  split; [vm_compute; reflexivity|].
  eexists. eexists. split; [vm_compute; reflexivity|].
  split; [vm_compute; reflexivity|].
  intros H. vm_compute in H. discriminate H.
Qed.

(** C4, amended: for every block whose first matching category is the
    games category (so a pattern assigned it) and that holds the marker
    "type Game @model", the loops end without an error, log the patch
    message once and append one text to the games list; with a closing
    brace in the block that text is the block with [GAME_ADDITIONS] put
    right before the last brace, the brace and all after it unchanged;
    with no closing brace it is the block itself. *)
Theorem C4_patch (b : str) (d : dict) (w : World) :
  keys d = table_keys ->
  classify b = Some GAMES ->
  contains (txt "type Game @model") b = true ->
  exists text,
    for_filename FILE_MAPPINGS (Locals b false d) w
    = (Val (Locals text true (add d GAMES text)), logged w [PATCH_MESSAGE])
    /\ getitem (add d GAMES text) GAMES
       = option_map (fun v => v ++ [text]) (getitem d GAMES)
    /\ (forall pre post,
          b = pre ++ "}"%char :: post -> ~ In "}"%char post ->
          text = pre ++ GAME_ADDITIONS ++ "}"%char :: post)
    /\ (~ In "}"%char b -> text = b).
Proof.
  intros Hk Hc Hm.
  assert (Hkeys : forall k, In k (keys FILE_MAPPINGS) -> In k (keys d))
    by (intros k Hin; rewrite Hk; now apply in_table_keys).
  rewrite for_filename_run by exact Hkeys.
  unfold classify, first_category in Hc. fold (has_match b) in Hc.
  destruct (find (has_match b) FILE_MAPPINGS) as [[k pats]|]; [|discriminate].
  cbn [option_map fst] in Hc. injection Hc as ->.
  unfold hit. cbn [fst block files_content].
  unfold patch_events, stored_at, patch_fires.
  rewrite Hm. change (str_eqb GAMES (txt "30-games.graphql")) with true.
  cbn [andb]. exists (patched b).
  split; [reflexivity|]. split.
  - rewrite getitem_add by (apply Hkeys; cbn; tauto).
    now rewrite str_eqb_refl.
  - split.
    + intros pre post -> Hn. now apply patched_last_brace.
    + apply patched_no_brace.
Qed.

Lemma C4_patch_witness :
  exists text,
    for_filename FILE_MAPPINGS (Locals GAME_BLOCK false initial_files_content)
      empty_world
    = (Val (Locals text true (add initial_files_content GAMES text)),
       logged empty_world [PATCH_MESSAGE])
    /\ getitem (add initial_files_content GAMES text) GAMES
       = option_map (fun v => v ++ [text])
           (getitem initial_files_content GAMES)
    /\ (forall pre post,
          GAME_BLOCK = pre ++ "}"%char :: post -> ~ In "}"%char post ->
          text = pre ++ GAME_ADDITIONS ++ "}"%char :: post)
    /\ (~ In "}"%char GAME_BLOCK -> text = GAME_BLOCK).
Proof.
  apply (C4_patch GAME_BLOCK initial_files_content empty_world).
  - reflexivity.
  - vm_compute. reflexivity.
  - vm_compute. reflexivity.
Defined.

(** ** The end-to-end scenario *)

Lemma scenario_kept :
  kept_blocks (universal_newlines SCENARIO)
  = [ENTITY_BLOCK; GAME_BLOCK; QUERY_BLOCK].
Proof. vm_compute. reflexivity. Qed.

Lemma scenario_kept' :
  kept_blocks SCENARIO = [ENTITY_BLOCK; GAME_BLOCK; QUERY_BLOCK].
Proof. vm_compute. reflexivity. Qed.

Lemma scenario_files :
  files_content_of [ENTITY_BLOCK; GAME_BLOCK; QUERY_BLOCK] = SCENARIO_FILES.
Proof. vm_compute. reflexivity. Qed.

(** C5: on every world that holds the scenario document and lets the
    output be written, the run ends normally; the block loop leaves the
    Entity block with the entities, the patched Game block with the
    games, the Query block with the mutations and every other list
    empty, the enum block being in none; the three files hold these
    blocks under their headers, and no written file holds the enum. *)
Theorem C5_scenario (w : World) :
  fs w SOURCE_FILE = Some (File SCENARIO) ->
  output_ok w = true ->
  exists w',
    split_schema w = (Val tt, w')
    /\ (forall w1,
          fst (for_block (split pattern SCENARIO) initial_files_content w1)
          = Val SCENARIO_FILES)
    /\ ~ In ENUM_BLOCK (concat (map snd SCENARIO_FILES))
    /\ fs w' (path_of ENTITIES)
       = Some (File (file_text ENTITIES [ENTITY_BLOCK]))
    /\ fs w' (path_of GAMES)
       = Some (File (file_text GAMES [GAME_BLOCK_PATCHED]))
    /\ fs w' (path_of MUTATIONS)
       = Some (File (file_text MUTATIONS [QUERY_BLOCK]))
    /\ (forall k, In k (keys FILE_MAPPINGS) ->
          exists blocks,
            getitem SCENARIO_FILES k = Some blocks
            /\ fs w' (path_of k) = Some (File (file_text k blocks))
            /\ contains (txt "enum Status") (file_text k blocks) = false).
Proof.
  intros Hsrc Hok.
  destruct (split_schema_run w SCENARIO Hsrc Hok) as [w' [Hrun [_ Hfs]]].
  cbv zeta in Hfs. rewrite scenario_kept in Hfs.
  assert (Hfile : forall k, In k (keys FILE_MAPPINGS) ->
            fs w' (path_of k)
            = Some (File (file_text k
                            (stored_for k
                               [ENTITY_BLOCK; GAME_BLOCK; QUERY_BLOCK])))).
  { intros k Hin. rewrite Hfs. now rewrite written_at_category. }
  exists w'. split; [exact Hrun|]. split.
  { intros w1. rewrite for_block_document. cbn [fst].
    rewrite scenario_kept'. now rewrite scenario_files. }
  split.
  { intros Hin. vm_compute in Hin.
    repeat (destruct Hin as [Hin|Hin]; [discriminate Hin|]). exact Hin. }
  split; [rewrite Hfile by (cbn; tauto); vm_compute; reflexivity|].
  split; [rewrite Hfile by (cbn; tauto); vm_compute; reflexivity|].
  split; [rewrite Hfile by (cbn; tauto); vm_compute; reflexivity|].
  intros k Hin. rewrite (Hfile k Hin). cbn in Hin.
  repeat (destruct Hin as [<-|Hin];
          [eexists; split; [vm_compute; reflexivity|];
           split; vm_compute; reflexivity|]).
  destruct Hin.
Qed.

Lemma C5_scenario_witness :
  exists w',
    split_schema (world_with SCENARIO) = (Val tt, w')
    /\ (forall w1,
          fst (for_block (split pattern SCENARIO) initial_files_content w1)
          = Val SCENARIO_FILES)
    /\ ~ In ENUM_BLOCK (concat (map snd SCENARIO_FILES))
    /\ fs w' (path_of ENTITIES)
       = Some (File (file_text ENTITIES [ENTITY_BLOCK]))
    /\ fs w' (path_of GAMES)
       = Some (File (file_text GAMES [GAME_BLOCK_PATCHED]))
    /\ fs w' (path_of MUTATIONS)
       = Some (File (file_text MUTATIONS [QUERY_BLOCK]))
    /\ (forall k, In k (keys FILE_MAPPINGS) ->
          exists blocks,
            getitem SCENARIO_FILES k = Some blocks
            /\ fs w' (path_of k) = Some (File (file_text k blocks))
            /\ contains (txt "enum Status") (file_text k blocks) = false).
Proof.
  apply (C5_scenario (world_with SCENARIO)).
  - reflexivity.
  - vm_compute. reflexivity.
Defined.

(** ** Order *)

(** C6: on every world where the document can be read and the output
    written, the pieces of [re.split] are the document cut in order,
    and for every category the list the block loop builds, which is
    also the list joined into its file, is the kept blocks of that
    category (in stored form) in the order of the document. *)
Theorem C6_order (w : World) (raw : str) :
  fs w SOURCE_FILE = Some (File raw) ->
  output_ok w = true ->
  let content := universal_newlines raw in
  let blocks := split pattern content in
  exists fc w',
    concat blocks = content
    /\ (forall w1,
          fst (for_block blocks initial_files_content w1) = Val fc)
    /\ split_schema w = (Val tt, w')
    /\ forall k, In k (keys FILE_MAPPINGS) ->
         let mine :=
           map stored
             (filter (fun b => str_eqb (destination b) k)
                (filter kept (map strip blocks))) in
         getitem fc k = Some mine
         /\ fs w' (path_of k)
            = Some (File (header k ++ BANNER ++ blank_line_joined mine)).
Proof.
  intros Hsrc Hok content blocks.
  destruct (split_schema_run w raw Hsrc Hok) as [w' [Hrun [_ Hfs]]].
  fold content in Hfs. cbv zeta in Hfs.
  exists (files_content_of (kept_blocks content)), w'.
  split; [apply split_ahead_concat|].
  split; [intros w1; unfold blocks; now rewrite for_block_document|].
  split; [exact Hrun|].
  intros k Hin. cbv zeta. split.
  - now apply getitem_files_content_of, in_table_keys.
  - rewrite Hfs. now rewrite written_at_category.
Qed.

Lemma C6_order_witness :
  let content := universal_newlines SCENARIO in
  let blocks := split pattern content in
  exists fc w',
    concat blocks = content
    /\ (forall w1,
          fst (for_block blocks initial_files_content w1) = Val fc)
    /\ split_schema (world_with SCENARIO) = (Val tt, w')
    /\ forall k, In k (keys FILE_MAPPINGS) ->
         let mine :=
           map stored
             (filter (fun b => str_eqb (destination b) k)
                (filter kept (map strip blocks))) in
         getitem fc k = Some mine
         /\ fs w' (path_of k)
            = Some (File (header k ++ BANNER ++ blank_line_joined mine)).
Proof.
  apply (C6_order (world_with SCENARIO) SCENARIO).
  - reflexivity.
  - vm_compute. reflexivity.
Defined.

(** ** The keyword heuristic *)



(** ** The writer *)

Lemma patch_log_touches (path : str) (bs : list str) :
  existsb (touches path) (flat_map patch_log bs) = false.
Proof.
  induction bs as [|b bs IH]; cbn [flat_map]; [reflexivity|].
  rewrite existsb_app, IH, orb_false_r.
  unfold patch_log. destruct (classify b) as [k|]; [|reflexivity].
  destruct (patch_fires k b); reflexivity.
Qed.

Lemma outputs_touch_no_placeholder (f : str -> list str) :
  existsb (touches (path_of ENUMS))
    (flat_map file_events (map (fun k => (k, f k)) (keys FILE_MAPPINGS)))
  = false.
Proof. vm_compute. reflexivity. Qed.

Lemma placeholder_not_written (f : str -> list str) :
  find (fun item => str_eqb (path_of ENUMS) (path_of (fst item)))
    (rev (written (map (fun k => (k, f k)) table_keys)))
  = None.
Proof. vm_compute. reflexivity. Qed.

(** C8: on every world where the document can be read and the output
    written, the run ends normally and its log is, in order: the
    set-up, the read, the count of blocks, the patch messages, then for
    each category of [FILE_MAPPINGS] in declared order one open for
    writing and three writes (the header line naming the file, the
    banner line with a blank line, the blocks joined by blank lines)
    followed by its message, then the closing messages.  Each category
    file holds exactly these three texts.  The joined blocks are given
    by [blank_line_joined], which does not go through [join]: the first
    block of the category, then each later block behind two line feeds,
    and nothing when the category is empty.  The placeholder key is in
    the dictionary the writer receives, but no call names its path and
    what is at that path stays as it was. *)
Theorem C8_writer (w : World) (raw : str) :
  fs w SOURCE_FILE = Some (File raw) ->
  output_ok w = true ->
  let content := universal_newlines raw in
  let bs := kept_blocks content in
  exists fc w' added,
    split_schema w = (Val tt, w')
    /\ (forall w1,
          fst (for_block (split pattern content) initial_files_content w1)
          = Val fc)
    /\ keys fc = keys FILE_MAPPINGS ++ [ENUMS]
    /\ log w' = log w ++ added
    /\ added =
       setup_events w
       ++ [EOpenRead SOURCE_FILE; found_message content]
       ++ flat_map patch_log bs
       ++ flat_map
            (fun k =>
               match getitem fc k with
               | Some blocks =>
                   [EOpenWrite (path_of k);
                    EWrite (path_of k) (txt "# " ++ k ++ [LF]);
                    EWrite (path_of k)
                      (txt "# ==========================================" ++ [LF; LF]);
                    EWrite (path_of k) (blank_line_joined blocks);
                    wrote_message k blocks]
               | None => []
               end)
            (keys FILE_MAPPINGS)
       ++ closing_events
    /\ (forall k blocks,
          In k (keys FILE_MAPPINGS) -> getitem fc k = Some blocks ->
          fs w' (path_of k)
          = Some (File ((txt "# " ++ k ++ [LF])
                        ++ (txt "# ==========================================" ++ [LF; LF])
                        ++ blank_line_joined blocks)))
    /\ existsb (touches (path_of ENUMS)) added = false
    /\ fs w' (path_of ENUMS) = fs w (path_of ENUMS).
Proof.
  intros Hsrc Hok content bs.
  destruct (split_schema_run w raw Hsrc Hok) as [w' [Hrun [Hlog Hfs]]].
  fold content in Hlog, Hfs. cbv zeta in Hfs. fold bs in Hfs.
  exists (files_content_of bs), w', (run_events w content).
  split; [exact Hrun|].
  split; [intros w1; now rewrite for_block_document|].
  split; [reflexivity|].
  split; [exact Hlog|].
  split; [unfold run_events; fold bs; do 4 f_equal|].
  split.
  { intros k blocks Hin Hget.
    rewrite getitem_files_content_of in Hget by now apply in_table_keys.
    injection Hget as <-. rewrite Hfs. now rewrite written_at_category. }
  split.
  { unfold run_events. fold bs. rewrite !existsb_app.
    rewrite patch_log_touches.
    unfold outputs.
    rewrite (outputs_touch_no_placeholder (fun k => stored_for k bs)).
    unfold setup_events. destruct (fs w OUTPUT_DIR); reflexivity. }
  rewrite Hfs. unfold written_at, files_content_of.
  rewrite (placeholder_not_written (fun k => stored_for k bs)).
  now apply setup_fs_other.
Qed.

(** C8 on a document with two blocks of one category: the file of
    that category, character by character, the file of an empty
    category, the order of the opens, and the placeholder. *)
Lemma C8_writer_witness :
  exists w',
    split_schema (world_with TWO_TYPES) = (Val tt, w')
    /\ fs w' (path_of MUTATIONS)
       = Some (File (txt "# 99-mutations.graphql" ++ [LF]
                     ++ txt "# ==========================================" ++ [LF]
                     ++ [LF]
                     ++ txt "type Query { a: Int }" ++ [LF]
                     ++ [LF]
                     ++ txt "type Mutation { b: Int }"))
    /\ fs w' (path_of ENTITIES)
       = Some (File (txt "# 10-entities.graphql" ++ [LF]
                     ++ txt "# ==========================================" ++ [LF]
                     ++ [LF]))
    /\ flat_map (fun e => match e with
                          | EOpenWrite p => [p]
                          | _ => []
                          end) (log w')
       = map path_of (keys FILE_MAPPINGS)
    /\ existsb (touches (path_of ENUMS)) (log w') = false
    /\ fs w' (path_of ENUMS) = None.
Proof.
  pose proof (C8_writer (world_with TWO_TYPES) TWO_TYPES) as H.
  cbv zeta in H.
  destruct H
    as [fc [w' [added [Hrun [Hfc [_ [Hlog [Hadded [Hfile [Htouch Henum]]]]]]]]]].
  - vm_compute. reflexivity.
  - vm_compute. reflexivity.
  - specialize (Hfc empty_world). vm_compute in Hfc. injection Hfc as <-.
    exists w'. split; [exact Hrun|].
    split.
    { rewrite (Hfile MUTATIONS
                 [txt "type Query { a: Int }"; txt "type Mutation { b: Int }"]).
      - vm_compute. reflexivity.
      - cbn. tauto.
      - vm_compute. reflexivity. }
    split.
    { rewrite (Hfile ENTITIES []).
      - vm_compute. reflexivity.
      - cbn. tauto.
      - vm_compute. reflexivity. }
    split.
    { rewrite Hlog, Hadded. vm_compute. reflexivity. }
    split.
    { rewrite Hlog. exact Htouch. }
    rewrite Henum. vm_compute. reflexivity.
Defined.

(** ** The source cannot be read *)

(** C9: on every world where the source path holds no file, the run
    ends without a category file.  Its log is the test for the output
    directory; then, only when nothing is at the output path, the call
    of [os.makedirs], which raises [NotADirectoryError] when a regular
    file is on the way and else makes every missing directory on the
    way and the output directory, followed by its message; then the
    read attempt, which comes after the creation; then the two error
    lines when the source path is absent.  The run returns normally
    when the source is absent and raises when the source path is a
    directory.  No open for writing and no write is in the log, every
    category path holds what it held, and the directories that were
    made stay: nothing else changed. *)
Theorem C9_unreadable_source (w : World) :
  readable w = false ->
  exists r w' added,
    split_schema w = (r, w')
    /\ r = (if setup_fails w then Exc NotADirectoryError
            else match fs w SOURCE_FILE with
                 | None => Val tt
                 | Some _ => Exc IsADirectoryError
                 end)
    /\ log w' = log w ++ added
    /\ added =
       [EExists OUTPUT_DIR]
       ++ match fs w OUTPUT_DIR with
          | None => [EMakedirs OUTPUT_DIR]
          | Some _ => []
          end
       ++ (if setup_fails w then []
           else match fs w OUTPUT_DIR with
                | None => [CREATED_MESSAGE]
                | Some _ => []
                end
                ++ [EOpenRead SOURCE_FILE]
                ++ match fs w SOURCE_FILE with
                   | None => NOT_FOUND_MESSAGES
                   | Some _ => []
                   end)
    /\ existsb is_write added = false
    /\ (forall q,
          fs w' q = if existsb (str_eqb q) (made_dirs w)
                    then Some Dir else fs w q)
    /\ (forall k, In k (keys FILE_MAPPINGS) ->
          fs w' (path_of k) = fs w (path_of k)).
Proof.
  intros Hr. unfold readable in Hr.
  destruct (ensure_output_dir_any w) as [w1 [Hrun [Hlog [Hfs Hway]]]].
  assert (Hcat : forall w2, (forall q, fs w2 q = fs w1 q) ->
                   forall k, In k (keys FILE_MAPPINGS) ->
                     fs w2 (path_of k) = fs w (path_of k)).
  { intros w2 H2 k Hin. rewrite H2, Hfs.
    now rewrite not_made by now apply category_not_made. }
  unfold split_schema. destruct (setup_fails w) eqn:Ef.
  - rewrite (bind_raise _ _ _ _ _ Hrun).
    eexists. eexists. eexists. split; [reflexivity|].
    split; [reflexivity|]. rewrite Hlog.
    split; [reflexivity|].
    split; [reflexivity|].
    split; [now destruct (fs w OUTPUT_DIR)|].
    split; [exact Hfs | now apply Hcat].
  - rewrite (bind_run _ _ _ _ _ Hrun). specialize (Hway eq_refl).
    assert (Hsrc : fs w1 SOURCE_FILE = fs w SOURCE_FILE).
    { rewrite Hfs. now rewrite not_made by exact source_not_made. }
    unfold bind at 1. unfold try.
    destruct (fs w SOURCE_FILE) as [[|c]|] eqn:Es; [|discriminate|].
    + rewrite (read_text_run w1 Dir Hsrc).
      eexists. eexists. eexists. split; [reflexivity|].
      split; [reflexivity|]. unfold logged. cbn [log]. rewrite Hlog.
      split; [rewrite <- !app_assoc; reflexivity|].
      split; [reflexivity|].
      split; [now destruct (fs w OUTPUT_DIR)|].
      split; [exact Hfs | now apply Hcat].
    + rewrite (read_text_absent w1 Hway Hsrc).
      eexists. eexists. eexists. split; [reflexivity|].
      split; [reflexivity|]. cbn [log logged]. rewrite Hlog.
      split; [rewrite <- !app_assoc; reflexivity|].
      split; [reflexivity|].
      split; [now destruct (fs w OUTPUT_DIR)|].
      split; [exact Hfs | now apply Hcat].
Qed.

Lemma C9_unreadable_source_witness :
  (exists w',
     split_schema empty_world = (Val tt, w')
     /\ log w' =
        [EExists OUTPUT_DIR; EMakedirs OUTPUT_DIR; CREATED_MESSAGE;
         EOpenRead SOURCE_FILE] ++ NOT_FOUND_MESSAGES
     /\ map (fs w')
          [txt "amplify"; txt "amplify/backend"; txt "amplify/backend/api";
           txt "amplify/backend/api/kingsroom"; OUTPUT_DIR]
        = [Some Dir; Some Dir; Some Dir; Some Dir; Some Dir]
     /\ fs w' SOURCE_FILE = None
     /\ fs w' (path_of ENTITIES) = None)
  /\ (exists w',
        split_schema (world_of [(txt "amplify", File [])])
        = (Exc NotADirectoryError, w')
        /\ log w' = [EExists OUTPUT_DIR; EMakedirs OUTPUT_DIR]
        /\ fs w' (txt "amplify") = Some (File [])
        /\ fs w' OUTPUT_DIR = None).
Proof.
  split.
  - destruct (C9_unreadable_source empty_world)
      as [r [w' [added [Hrun [Hr [Hlog [Hadded [_ [Hfs _]]]]]]]]].
    { vm_compute. reflexivity. }
    exists w'.
    assert (E1 : r = Val tt) by (rewrite Hr; vm_compute; reflexivity).
    assert (E2 : added =
                 [EExists OUTPUT_DIR; EMakedirs OUTPUT_DIR; CREATED_MESSAGE;
                  EOpenRead SOURCE_FILE] ++ NOT_FOUND_MESSAGES)
      by (rewrite Hadded; vm_compute; reflexivity).
    rewrite E1 in Hrun. rewrite E2 in Hlog.
    split; [exact Hrun|]. split; [exact Hlog|].
    cbn [map]. rewrite !Hfs. vm_compute. repeat split; reflexivity.
  - destruct (C9_unreadable_source (world_of [(txt "amplify", File [])]))
      as [r [w' [added [Hrun [Hr [Hlog [Hadded [_ [Hfs _]]]]]]]]].
    { vm_compute. reflexivity. }
    exists w'.
    assert (E1 : r = Exc NotADirectoryError)
      by (rewrite Hr; vm_compute; reflexivity).
    assert (E2 : added = [EExists OUTPUT_DIR; EMakedirs OUTPUT_DIR])
      by (rewrite Hadded; vm_compute; reflexivity).
    rewrite E1 in Hrun. rewrite E2 in Hlog.
    split; [exact Hrun|]. split; [exact Hlog|].
    rewrite !Hfs. vm_compute. split; reflexivity.
Defined.

(** ** Text before the first declaration *)

(** C10, as stated, fails on a document that opens with an enum on its
    first line: the text before the first boundary is the enum; it is
    not empty, no pattern matches it, it holds none of the three
    keywords, and it is dropped: the catch-all file holds the Query
    block alone. *)
Lemma C10_leading_enum_is_dropped :
  let lead := leading_text (universal_newlines ENUM_FIRST) in
  lead = ENUM_BLOCK
  /\ strip lead <> []
  /\ none_match (strip lead) FILE_MAPPINGS
  /\ contains (txt "Game") (strip lead) = false
  /\ contains (txt "Player") (strip lead) = false
  /\ contains (txt "Venue") (strip lead) = false
  /\ fst (split_schema (world_with ENUM_FIRST)) = Val tt
  /\ fs (snd (split_schema (world_with ENUM_FIRST))) (path_of MUTATIONS)
     = Some (File (file_text MUTATIONS [QUERY_BLOCK]))
  /\ contains (strip lead) (file_text MUTATIONS [QUERY_BLOCK]) = false.
Proof.
  cbv zeta. split; [vm_compute; reflexivity|].
  split; [vm_compute; discriminate|].
  split; [apply none_match_b_true; vm_compute; reflexivity|].
  repeat split; vm_compute; reflexivity.
Qed.

(** C10, amended: on every world where the document can be read and
    the output written, if the text before the first declaration
    boundary is, once trimmed, not empty, does not open with "enum ",
    is matched by no pattern of the table and holds none of "Game",
    "Player", "Venue", then that text is the first piece of the split
    and the first block joined into the catch-all file. *)
Theorem C10_leading_text (w : World) (raw : str) :
  fs w SOURCE_FILE = Some (File raw) ->
  output_ok w = true ->
  let content := universal_newlines raw in
  let b := strip (leading_text content) in
  b <> [] ->
  startswith (txt "enum ") b = false ->
  none_match b FILE_MAPPINGS ->
  contains (txt "Game") b = false ->
  contains (txt "Player") b = false ->
  contains (txt "Venue") b = false ->
  exists w' rest others,
    split_schema w = (Val tt, w')
    /\ split pattern content = leading_text content :: rest
    /\ fs w' (path_of MUTATIONS)
       = Some (File (header MUTATIONS ++ BANNER
                     ++ blank_line_joined (b :: others))).
Proof.
  intros Hsrc Hok content b Hne Henum Hnone Hg Hp Hv.
  destruct (split_schema_run w raw Hsrc Hok) as [w' [Hrun [_ Hfs]]].
  fold content in Hfs. cbv zeta in Hfs.
  destruct (split_leading content) as [rest Hsplit].
  assert (Hkept : kept b = true).
  { unfold kept. rewrite Henum. apply str_eqb_neq in Hne. now rewrite Hne. }
  assert (Hclass : classify b = None).
  { unfold classify, first_category. fold (has_match b).
    now rewrite none_match_find. }
  assert (Hdest : destination b = MUTATIONS).
  { unfold destination, fallback. now rewrite Hclass, Hg, Hp, Hv. }
  assert (Hstored : stored b = b) by (unfold stored; now rewrite Hclass).
  exists w', rest,
    (stored_for MUTATIONS (filter kept (map strip rest))).
  split; [exact Hrun|]. split; [exact Hsplit|].
  rewrite Hfs. rewrite written_at_category by (cbn; tauto).
  cbn [fst snd]. unfold file_text. do 4 f_equal.
  unfold kept_blocks. rewrite Hsplit. cbn [map filter]. fold b.
  rewrite Hkept. unfold stored_for. cbn [filter].
  rewrite Hdest, str_eqb_refl. cbn [map]. now rewrite Hstored.
Qed.

Lemma C10_leading_text_witness :
  exists w' rest others,
    split_schema (world_with BANNER_FIRST) = (Val tt, w')
    /\ split pattern (universal_newlines BANNER_FIRST)
       = leading_text (universal_newlines BANNER_FIRST) :: rest
    /\ fs w' (path_of MUTATIONS)
       = Some (File (header MUTATIONS ++ BANNER
                     ++ blank_line_joined
                          (strip (leading_text
                                    (universal_newlines BANNER_FIRST))
                           :: others))).
Proof.
  apply (C10_leading_text (world_with BANNER_FIRST) BANNER_FIRST).
  - reflexivity.
  - vm_compute. reflexivity.
  - vm_compute. discriminate.
  - vm_compute. reflexivity.
  - apply none_match_b_true. vm_compute. reflexivity.
  - vm_compute. reflexivity.
  - vm_compute. reflexivity.
  - vm_compute. reflexivity.
Defined.

(* ================================================================== *)
(** * Further properties: the block extractor *)
(* ================================================================== *)

Lemma boundary_ends (before after : str) :
  boundary before after
  = match ends pattern_body (Cursor before after) with
    | [] => false
    | _ :: _ => true
    end.
Proof.
  unfold boundary, match_at, pattern. cbn [ends].
  destruct (ends pattern_body (Cursor before after)); reflexivity.
Qed.

Lemma boundary_nil (before : str) : boundary before [] = false.
Proof. reflexivity. Qed.

(** A boundary is always at a newline. *)
Lemma boundary_newline (before after : str) :
  boundary before after = true -> exists rest, after = LF :: rest.
Proof.
  destruct after as [|x rest]; [discriminate|].
  rewrite boundary_ends.
  change pattern_body
    with (Seq (Chr LF)
            (Cat [Star (Cat [Chr "#"; Star Dot; Chr LF]); Star Space;
                  OneOf (Lit (txt "type"))
                    [Lit (txt "input"); Lit (txt "enum");
                     Lit (txt "interface"); Lit (txt "union");
                     Lit (txt "scalar")];
                  Plus Space; Plus Word])).
  cbn [ends eat ahead seen].
  destruct (Ascii.eqb LF x) eqn:E; [|discriminate].
  apply Ascii.eqb_eq in E. subst x. intros _. now exists rest.
Qed.

Lemma split_loop_cut (after : str) :
  forall fuel before item,
    (2 * length after + 1 <= fuel ->
     split_loop fuel pattern before after item true
     = cut_from before after item)
    /\ (2 * length after + 2 <= fuel ->
        split_loop fuel pattern before after item false
        = if boundary before after
          then rev item :: cut_from before after []
          else cut_from before after item).
Proof.
  induction after as [|x after IH]; intros fuel before item.
  - split; intros Hf; (destruct fuel as [|fuel]; [cbn in Hf; lia|]);
      reflexivity.
  - assert (Hadv : 2 * length (x :: after) + 1 <= fuel ->
                   split_loop fuel pattern before (x :: after) item true
                   = cut_from before (x :: after) item).
    { intros Hf. destruct fuel as [|fuel]; [cbn in Hf; lia|].
      cbn [split_loop cut_from].
      destruct (ends_ahead pattern_body (Cursor before (x :: after)))
        as [E | E]; fold pattern in E; rewrite E;
        cbn [filter ahead andb negb]; rewrite ?Nat.eqb_refl;
        cbn [filter andb negb];
        apply (IH fuel (x :: before) (x :: item)); cbn [length] in Hf; lia. }
    split; [exact Hadv|].
    intros Hf. destruct fuel as [|fuel]; [cbn in Hf; lia|].
    cbn [split_loop]. unfold boundary at 1. unfold match_at.
    destruct (ends_ahead pattern_body (Cursor before (x :: after)))
      as [E | E]; fold pattern in E; rewrite E;
      cbn [filter ahead seen andb negb hd_error truthy].
    + cbn [cut_from].
      apply (IH fuel (x :: before) (x :: item)). cbn [length] in Hf. lia.
    + rewrite Nat.eqb_refl. f_equal. clear Hadv.
      assert (Hadv' : forall fuel' item',
                 2 * length (x :: after) + 1 <= fuel' ->
                 split_loop fuel' pattern before (x :: after) item' true
                 = cut_from before (x :: after) item').
      { intros fuel' item' Hf'. destruct fuel' as [|fuel']; [cbn in Hf'; lia|].
        cbn [split_loop cut_from]. rewrite E.
        cbn [filter ahead andb negb]. rewrite Nat.eqb_refl.
        cbn [filter andb negb].
        apply (IH fuel' (x :: before) (x :: item')).
        cbn [length] in Hf'. lia. }
      apply Hadv'. cbn [length] in *. lia.
Qed.

(** [re.split] with the pattern of the script cuts the document at
    every boundary, and nowhere else. *)
Lemma split_is_cut (content : str) : split pattern content = cut content.
Proof.
  unfold split, cut.
  now apply (split_loop_cut content (2 * length content + 2) [] []).
Qed.

Lemma concat_cut_from (after : str) :
  forall before item, concat (cut_from before after item) = rev item ++ after.
Proof.
  induction after as [|x after IH]; intros before item; cbn [cut_from].
  - cbn. now rewrite app_nil_r.
  - destruct (boundary (x :: before) after); cbn [concat];
      rewrite IH; cbn [rev]; now rewrite <- ?app_assoc.
Qed.

(** The first piece from a place takes the next character with it, and
    every later piece opens with a newline. *)
Lemma cut_from_pieces (after : str) :
  forall before item,
    exists p rest,
      cut_from before after item = (rev item ++ p) :: rest
      /\ (forall x after', after = x :: after' -> exists p', p = x :: p')
      /\ Forall (fun piece => exists t, piece = LF :: t) rest.
Proof.
  induction after as [|x after IH]; intros before item; cbn [cut_from].
  - exists [], []. rewrite app_nil_r. repeat split.
    + intros x after' H. discriminate H.
    + constructor.
  - destruct (boundary (x :: before) after) eqn:Eb.
    + destruct (IH (x :: before) []) as [p [rest [Hcut [Hfirst Hrest]]]].
      exists [x], (cut_from (x :: before) after []).
      split; [reflexivity|]. split.
      * intros y after' [= <- _]. now exists [].
      * rewrite Hcut. constructor; [|exact Hrest].
        destruct (boundary_newline _ _ Eb) as [t Ht].
        destruct (Hfirst LF t Ht) as [p' ->]. now exists p'.
    + destruct (IH (x :: before) (x :: item)) as [p [rest [Hcut [_ Hrest]]]].
      exists (x :: p), rest. split.
      * rewrite Hcut. cbn [rev]. now rewrite <- app_assoc.
      * split; [|exact Hrest]. intros y after' [= <- _]. now exists p.
Qed.

Lemma cut_from_cons (before after item : str) (x : ascii) :
  cut_from before (x :: after) item
  = if boundary (x :: before) after
    then rev (x :: item) :: cut_from (x :: before) after []
    else cut_from (x :: before) after (x :: item).
Proof. reflexivity. Qed.

(** A boundary behind a non-empty text [pre] makes a cut there: the
    pieces before the cut are [pre], and the pieces after it are those
    of the rest, cut afresh. *)
Lemma cut_from_at_boundary (pre : str) :
  forall before item after,
    pre <> [] ->
    boundary (rev pre ++ before) after = true ->
    exists l1,
      cut_from before (pre ++ after) item
      = l1 ++ cut_from (rev pre ++ before) after []
      /\ concat l1 = rev item ++ pre.
Proof.
  induction pre as [|x pre IH]; intros before item after Hne Hb;
    [contradiction|].
  change ((x :: pre) ++ after) with (x :: (pre ++ after)).
  rewrite cut_from_cons. destruct pre as [|y pre].
  - cbn [app rev] in *. rewrite Hb.
    exists [rev item ++ [x]].
    split; [reflexivity|]. cbn. now rewrite app_nil_r.
  - assert (Hb' : boundary (rev (y :: pre) ++ x :: before) after = true).
    { cbn [rev] in *. rewrite <- !app_assoc in *. exact Hb. }
    assert (Hrev : rev (x :: y :: pre) ++ before
                   = rev (y :: pre) ++ x :: before).
    { cbn [rev]. now rewrite <- !app_assoc. }
    rewrite Hrev.
    destruct (boundary (x :: before) ((y :: pre) ++ after)).
    + destruct (IH (x :: before) [] after) as [l1 [Hcut H1]];
        [discriminate | exact Hb' |].
      exists ((rev item ++ [x]) :: l1).
      split; [rewrite Hcut; reflexivity|].
      cbn [concat]. rewrite H1. cbn [rev app]. now rewrite <- app_assoc.
    + destruct (IH (x :: before) (x :: item) after) as [l1 [Hcut H1]];
        [discriminate | exact Hb' |].
      exists l1. split; [exact Hcut|].
      rewrite H1. cbn [rev]. now rewrite <- app_assoc.
Qed.

(** ** A declaration at the start of a line *)

Lemma in_ends_seq (r1 r2 : regex) (c c1 c2 : cursor) :
  In c1 (ends r1 c) -> In c2 (ends r2 c1) -> In c2 (ends (Seq r1 r2) c).
Proof. intros H1 H2. cbn [ends]. apply in_flat_map. now exists c1. Qed.

Lemma in_star_zero (n : nat) (step : cursor -> list cursor) (c : cursor) :
  In c (star_ends n step c).
Proof.
  destruct n; cbn [star_ends]; [now left|]. apply in_or_app. right. now left.
Qed.

(** A greedy star over a class of characters can take a whole run. *)
Lemma in_star_class (p : ascii -> bool) (run : str) :
  forall n passed rest,
    forallb p run = true ->
    length (run ++ rest) <= n ->
    In (Cursor (rev run ++ passed) rest)
       (star_ends n (eat p) (Cursor passed (run ++ rest))).
Proof.
  induction run as [|x run IH]; intros n passed rest Hp Hn.
  - apply in_star_zero.
  - cbn [forallb] in Hp. apply andb_true_iff in Hp as [Hx Hp].
    destruct n as [|n]; [cbn in Hn; lia|].
    cbn [star_ends app]. apply in_or_app. left.
    unfold eat at 2. cbn [ahead seen]. rewrite Hx. cbn [filter ahead].
    assert (Hlt : Nat.ltb (length (run ++ rest)) (length (x :: run ++ rest)) = true)
      by (apply Nat.ltb_lt; cbn; lia).
    rewrite Hlt. cbn [flat_map]. apply in_or_app. left.
    cbn [rev]. rewrite <- app_assoc. apply IH; [exact Hp|].
    cbn in Hn. lia.
Qed.

Lemma ends_lit (s : str) :
  forall passed rest,
    ends (Lit s) (Cursor passed (s ++ rest)) = [Cursor (rev s ++ passed) rest].
Proof.
  induction s as [|c s IH]; intros passed rest; [reflexivity|].
  destruct s as [|c2 s].
  - cbn [Lit ends eat ahead seen app rev]. now rewrite Ascii.eqb_refl.
  - change (Lit (c :: c2 :: s)) with (Seq (Chr c) (Lit (c2 :: s))).
    cbn [ends eat ahead seen app]. rewrite Ascii.eqb_refl.
    cbn [flat_map]. rewrite app_nil_r.
    change (c2 :: s ++ rest) with ((c2 :: s) ++ rest). rewrite IH.
    cbn [rev]. now rewrite <- !app_assoc.
Qed.

Lemma in_ends_keyword (kw : str) (passed rest : str) :
  In kw KEYWORDS ->
  In (Cursor (rev kw ++ passed) rest)
     (ends (OneOf (Lit (txt "type"))
              [Lit (txt "input"); Lit (txt "enum"); Lit (txt "interface");
               Lit (txt "union"); Lit (txt "scalar")])
        (Cursor passed (kw ++ rest))).
Proof.
  intros Hin. cbn [OneOf ends].
  unfold KEYWORDS in Hin. cbn [In] in Hin.
  destruct Hin as [<-|[<-|[<-|[<-|[<-|[<-|[]]]]]]];
    rewrite ?in_app_iff, !ends_lit; cbn [In]; tauto.
Qed.

(** A line break, then white space or nothing, then a keyword, white
    space and the first character of a name: the split pattern matches
    at the line break. *)
Lemma boundary_at_declaration (before ws kw gap rest : str) (sp c : ascii) :
  forallb isspace ws = true ->
  In kw KEYWORDS ->
  isspace sp = true ->
  forallb isspace gap = true ->
  isword c = true ->
  boundary before (LF :: ws ++ kw ++ sp :: gap ++ c :: rest) = true.
Proof.
  intros Hws Hkw Hsp Hgap Hc. rewrite boundary_ends.
  assert (Hin : In (Cursor (c :: rev gap ++ sp :: rev kw ++ rev ws
                            ++ LF :: before) rest)
                  (ends pattern_body
                     (Cursor before
                        (LF :: ws ++ kw ++ sp :: gap ++ c :: rest)))).
  { unfold pattern_body. cbn [Cat].
    eapply in_ends_seq.
    { cbn [ends eat ahead seen]. rewrite Ascii.eqb_refl. now left. }
    eapply in_ends_seq; [cbn [ends]; apply in_star_zero|].
    eapply in_ends_seq.
    { cbn [ends ahead].
      apply (in_star_class isspace ws _ (LF :: before)); [exact Hws | lia]. }
    eapply in_ends_seq; [now apply in_ends_keyword|].
    eapply in_ends_seq.
    { unfold Plus. eapply in_ends_seq.
      - cbn [ends eat ahead seen]. rewrite Hsp. now left.
      - cbn [ends ahead].
        apply (in_star_class isspace gap); [exact Hgap | lia]. }
    unfold Plus. eapply in_ends_seq.
    - cbn [ends eat ahead seen]. rewrite Hc. now left.
    - cbn [ends]. apply in_star_zero. }
  destruct (ends pattern_body _); [destruct Hin | reflexivity].
Qed.

(** X1: for every document, the pieces of the split put end to end are
    the document, and every piece but the first opens with a line
    break; so no piece but the first can be empty. *)
Theorem X1_pieces_open_with_newline (content : str) :
  exists first rest,
    split pattern content = first :: rest
    /\ concat (first :: rest) = content
    /\ Forall (fun piece => exists t, piece = LF :: t) rest.
Proof.
  pose proof (split_ahead_concat pattern_body content) as Hcat.
  fold pattern in Hcat. rewrite split_is_cut in *. unfold cut in *.
  destruct (boundary [] content) eqn:Eb.
  - exists [], (cut_from [] content []). split; [reflexivity|].
    split; [exact Hcat|].
    destruct (cut_from_pieces content [] []) as [p [rest [Hcut [Hfirst Hrest]]]].
    rewrite Hcut. constructor; [|exact Hrest].
    destruct (boundary_newline _ _ Eb) as [t Ht].
    destruct (Hfirst LF t Ht) as [p' ->]. now exists p'.
  - destruct (cut_from_pieces content [] []) as [p [rest [Hcut [_ Hrest]]]].
    exists p, rest. rewrite Hcut in *. repeat split; assumption.
Qed.

(** X2: a declaration that starts a line opens a piece of its own.
    When the document is some text [pre] followed by a line break,
    optional white space, a declaration keyword, white space and a
    name, the split cuts at that line break: the pieces before the cut
    are [pre] and the pieces from the cut on are the rest.  A comment
    line right above a declaration is therefore never in the piece of
    the declaration. *)
Theorem X2_declaration_line_opens_piece
  (pre ws kw gap rest : str) (sp c : ascii) :
  forallb isspace ws = true ->
  In kw KEYWORDS ->
  isspace sp = true ->
  forallb isspace gap = true ->
  isword c = true ->
  let line := LF :: ws ++ kw ++ sp :: gap ++ c :: rest in
  exists l1 p l2,
    split pattern (pre ++ line) = l1 ++ p :: l2
    /\ concat l1 = pre
    /\ concat (p :: l2) = line
    /\ exists t, p = LF :: t.
Proof.
  intros Hws Hkw Hsp Hgap Hc line.
  assert (Hb : boundary (rev pre) line = true)
    by now apply boundary_at_declaration.
  destruct (cut_from_pieces line (rev pre) []) as [p [l2 [Hcut [Hfirst _]]]].
  destruct (Hfirst LF (ws ++ kw ++ sp :: gap ++ c :: rest) eq_refl)
    as [t ->].
  cbn [rev app] in Hcut.
  assert (Hcat : concat ((LF :: t) :: l2) = line).
  { rewrite <- Hcut. now rewrite concat_cut_from. }
  rewrite split_is_cut. unfold cut. destruct pre as [|x pre].
  - cbn [app rev] in *. rewrite Hb. rewrite Hcut.
    exists [[]], (LF :: t), l2.
    split; [reflexivity|]. split; [reflexivity|].
    split; [exact Hcat | now exists t].
  - destruct (cut_from_at_boundary (x :: pre) [] [] line)
      as [l1 [Hpre H1]]; [discriminate | now rewrite app_nil_r |].
    rewrite app_nil_r in Hpre. rewrite Hcut in Hpre.
    destruct (boundary [] ((x :: pre) ++ line)).
    + exists ([] :: l1), (LF :: t), l2. rewrite Hpre.
      split; [reflexivity|]. split; [exact H1|].
      split; [exact Hcat | now exists t].
    + exists l1, (LF :: t), l2.
      split; [exact Hpre|]. split; [exact H1|].
      split; [exact Hcat | now exists t].
Qed.

Lemma X2_declaration_line_opens_piece_witness :
  exists l1 p l2,
    split pattern (txt "# about Foo" ++ LF :: txt "type Foo { id: ID! }")
    = l1 ++ p :: l2
    /\ concat l1 = txt "# about Foo"
    /\ concat (p :: l2) = LF :: txt "type Foo { id: ID! }"
    /\ exists t, p = LF :: t.
Proof.
  apply (X2_declaration_line_opens_piece (txt "# about Foo") [] (txt "type")
           [] (txt "oo { id: ID! }") " " "F");
    try reflexivity.
  cbn. tauto.
Defined.

(* ================================================================== *)
(** * Further properties: what a run changes *)
(* ================================================================== *)

Lemma written_at_none (d : dict) (q : str) :
  (forall k, In k (keys (written d)) -> str_eqb q (path_of k) = false) ->
  written_at d q = None.
Proof.
  intros H. unfold written_at.
  destruct (find _ (rev (written d))) as [item|] eqn:E; [|reflexivity].
  apply find_some in E as [Hin Hq]. apply in_rev in Hin.
  rewrite H in Hq; [discriminate|]. now apply in_map.
Qed.

Lemma written_at_elsewhere (bs : list str) (q : str) :
  ~ In q category_paths -> written_at (files_content_of bs) q = None.
Proof.
  intros Hq. apply written_at_none. intros k Hin.
  rewrite written_files_content_of, keys_outputs in Hin.
  apply str_eqb_neq. intros ->. apply Hq. now apply in_map.
Qed.

Lemma source_is_no_category_path : ~ In SOURCE_FILE category_paths.
Proof.
  intros H. vm_compute in H.
  repeat (destruct H as [H|H]; [discriminate H|]). exact H.
Qed.

(** What a run leaves as it was. *)
Lemma run_frame (w : World) (raw : str) :
  fs w SOURCE_FILE = Some (File raw) ->
  output_ok w = true ->
  exists w',
    split_schema w = (Val tt, w')
    /\ (forall q, q <> OUTPUT_DIR -> ~ In q category_paths ->
          fs w' q = fs w q)
    /\ fs w' OUTPUT_DIR = Some Dir
    /\ fs w' SOURCE_FILE = Some (File raw).
Proof.
  intros Hsrc Hok.
  destruct (split_schema_run w raw Hsrc Hok) as [w' [Hrun [_ Hfs]]].
  cbv zeta in Hfs.
  assert (Hframe : forall q, ~ In q category_paths -> fs w' q = setup_fs w q).
  { intros q Hq. rewrite Hfs. now rewrite written_at_elsewhere. }
  exists w'. split; [exact Hrun|]. split; [|split].
  - intros q Hq Hcat. rewrite Hframe by exact Hcat.
    apply setup_fs_other. now apply str_eqb_neq.
  - rewrite Hframe.
    + now apply setup_fs_output_dir.
    + intros H. apply in_map_iff in H as [k [Hk Hin]].
      apply path_of_not_output_dir in Hin. apply str_eqb_neq in Hin.
      contradiction.
  - rewrite Hframe by apply source_is_no_category_path.
    rewrite setup_fs_other by reflexivity. exact Hsrc.
Qed.

(** X3: a run that reads the document and can write its output
    changes nothing but the output directory (created when absent) and
    the ten category files: every other path holds what it held, and
    the source document itself is still there, unchanged. *)
Theorem X3_run_changes_only_the_outputs (w : World) (raw : str) :
  fs w SOURCE_FILE = Some (File raw) ->
  output_ok w = true ->
  exists w',
    split_schema w = (Val tt, w')
    /\ (forall q, q <> OUTPUT_DIR -> ~ In q category_paths ->
          fs w' q = fs w q)
    /\ fs w' OUTPUT_DIR = Some Dir
    /\ fs w' SOURCE_FILE = Some (File raw).
Proof. exact (run_frame w raw). Qed.

Lemma X3_run_changes_only_the_outputs_witness :
  exists w',
    split_schema (world_with SCENARIO) = (Val tt, w')
    /\ (forall q, q <> OUTPUT_DIR -> ~ In q category_paths ->
          fs w' q = fs (world_with SCENARIO) q)
    /\ fs w' OUTPUT_DIR = Some Dir
    /\ fs w' SOURCE_FILE = Some (File SCENARIO).
Proof.
  apply (X3_run_changes_only_the_outputs (world_with SCENARIO) SCENARIO).
  - reflexivity.
  - vm_compute. reflexivity.
Defined.

(** X4: running the script a second time changes nothing.  After a run
    that read the document and wrote its output, a second run also
    ends normally, creates no directory, and leaves every path with
    what the first run left there. *)
Theorem X4_second_run_changes_nothing (w : World) (raw : str) :
  fs w SOURCE_FILE = Some (File raw) ->
  output_ok w = true ->
  exists w1 w2 added,
    split_schema w = (Val tt, w1)
    /\ split_schema w1 = (Val tt, w2)
    /\ (forall q, fs w2 q = fs w1 q)
    /\ log w2 = log w1 ++ added
    /\ existsb (fun e => match e with EMakedirs _ => true | _ => false end)
         added = false.
Proof.
  intros Hsrc Hok.
  destruct (run_frame w raw Hsrc Hok) as [w1 [Hrun1 [_ [Hdir1 Hsrc1]]]].
  destruct (split_schema_run w raw Hsrc Hok) as [w1' [Hrun1' [_ Hfs1]]].
  rewrite Hrun1 in Hrun1'. injection Hrun1' as <-. cbv zeta in Hfs1.
  assert (Hok1 : output_ok w1 = true).
  { unfold output_ok. rewrite Hdir1. cbn [andb].
    apply forallb_forall. intros k Hin.
    rewrite Hfs1, written_at_category by exact Hin. reflexivity. }
  destruct (split_schema_run w1 raw Hsrc1 Hok1) as [w2 [Hrun2 [Hlog2 Hfs2]]].
  cbv zeta in Hfs2, Hlog2.
  exists w1, w2, (run_events w1 (universal_newlines raw)).
  split; [exact Hrun1|]. split; [exact Hrun2|]. split; [|split].
  - intros q. rewrite Hfs2, Hfs1.
    destruct (written_at _ q) eqn:E; [reflexivity|].
    unfold setup_fs at 1. rewrite Hdir1, Hfs1. now rewrite E.
  - exact Hlog2.
  - unfold run_events, setup_events. rewrite Hdir1.
    rewrite !existsb_app. cbn [existsb orb].
    assert (Hp : forall bs,
               existsb (fun e => match e with EMakedirs _ => true | _ => false end)
                 (flat_map patch_log bs) = false).
    { induction bs as [|b bs IH]; [reflexivity|]. cbn [flat_map].
      rewrite existsb_app, IH, orb_false_r. unfold patch_log.
      destruct (classify b) as [k|]; [|reflexivity].
      destruct (patch_fires k b); reflexivity. }
    assert (Hf : forall d : dict,
               existsb (fun e => match e with EMakedirs _ => true | _ => false end)
                 (flat_map file_events d) = false).
    { induction d as [|[k blocks] d IH]; [reflexivity|]. cbn [flat_map].
      rewrite existsb_app, IH. reflexivity. }
    now rewrite Hp, Hf.
Qed.

Lemma X4_second_run_changes_nothing_witness :
  exists w1 w2 added,
    split_schema (world_with SCENARIO) = (Val tt, w1)
    /\ split_schema w1 = (Val tt, w2)
    /\ (forall q, fs w2 q = fs w1 q)
    /\ log w2 = log w1 ++ added
    /\ existsb (fun e => match e with EMakedirs _ => true | _ => false end)
         added = false.
Proof.
  apply (X4_second_run_changes_nothing (world_with SCENARIO) SCENARIO).
  - reflexivity.
  - vm_compute. reflexivity.
Defined.

(* ================================================================== *)
(** * Further properties: the order of the table *)
(* ================================================================== *)

Lemma find_ext_in {A} (f g : A -> bool) (l : list A) :
  (forall a, In a l -> f a = g a) -> find f l = find g l.
Proof.
  induction l as [|a l IH]; intros H; cbn [find]; [reflexivity|].
  rewrite <- (H a) by now left.
  destruct (f a); [reflexivity|]. apply IH. intros a' Hin. apply H. now right.
Qed.

Lemma existsb_ext_in {A} (f g : A -> bool) (l : list A) :
  (forall a, In a l -> f a = g a) -> existsb f l = existsb g l.
Proof.
  induction l as [|a l IH]; intros H; cbn [existsb]; [reflexivity|].
  rewrite (H a) by now left. f_equal. apply IH. intros a' Hin.
  apply H. now right.
Qed.

(** On the table, to look for a match is to try a match at index 0. *)
Lemma find_has_match_at_start (b : str) :
  find (has_match b) FILE_MAPPINGS
  = find (fun item => existsb (matches_at_start b) (snd item)) FILE_MAPPINGS.
Proof.
  apply find_ext_in. intros [k pats] Hin. unfold has_match. cbn [snd].
  apply existsb_ext_in. intros pat Hp. apply matches_anchored.
  apply table_pattern_anchored. eapply in_table_patterns; eassumption.
Qed.

Lemma startswith_app (s a : str) :
  startswith s a = true -> a = s ++ skipn (length s) a.
Proof.
  revert a. induction s as [|c s IH]; intros a H; [reflexivity|].
  destruct a as [|x a]; [discriminate|]. cbn [startswith] in H.
  apply andb_true_iff in H as [Hc Hs]. apply Ascii.eqb_eq in Hc. subst x.
  cbn [length skipn app]. f_equal. now apply IH.
Qed.

Lemma ends_lit_startswith (s : str) :
  forall passed a,
    ends (Lit s) (Cursor passed a) <> [] -> startswith s a = true.
Proof.
  induction s as [|c s IH]; intros passed a H; [reflexivity|].
  destruct s as [|c2 s].
  - cbn [Lit ends] in H. unfold eat in H. cbn [ahead seen] in H.
    destruct a as [|x a]; [congruence|].
    cbn [startswith]. destruct (Ascii.eqb c x); [reflexivity|congruence].
  - change (Lit (c :: c2 :: s)) with (Seq (Chr c) (Lit (c2 :: s))) in H.
    cbn [ends] in H. unfold eat in H. cbn [ahead seen] in H.
    destruct a as [|x a]; [cbn in H; congruence|].
    change (startswith (c :: c2 :: s) (x :: a))
      with (Ascii.eqb c x && startswith (c2 :: s) a).
    destruct (Ascii.eqb c x); [|cbn in H; congruence].
    cbn [flat_map] in H. rewrite app_nil_r in H.
    cbn [andb]. now apply (IH (x :: passed)).
Qed.

(** X5: the pattern [^type GameCostLineItem] of 60-financials never
    takes a block.  Every block it matches is matched before, in the
    order of the table, by [^type GameCost] of 30-games, so the loops
    append the block to the games list and leave the financials list
    as it was. *)
Theorem X5_line_item_goes_to_games (b : str) (d : dict) (w : World) :
  keys d = table_keys ->
  matches b LINE_ITEM_PATTERN = true ->
  In LINE_ITEM_PATTERN
     (match find (fun item => str_eqb (fst item) FINANCIALS) FILE_MAPPINGS with
      | Some item => snd item
      | None => []
      end)
  /\ classify b = Some GAMES
  /\ exists text,
       for_filename FILE_MAPPINGS (Locals b false d) w
       = (Val (Locals text true (add d GAMES text)),
          logged w (patch_events GAMES b))
       /\ getitem (add d GAMES text) FINANCIALS = getitem d FINANCIALS.
Proof.
  intros Hk Hm.
  assert (Hkeys : forall k, In k (keys FILE_MAPPINGS) -> In k (keys d))
    by (intros k Hin; rewrite Hk; now apply in_table_keys).
  assert (Hstart : startswith (txt "type GameCostLineItem") b = true).
  { rewrite matches_anchored in Hm by reflexivity.
    unfold LINE_ITEM_PATTERN, match_at in Hm. cbn [Cat ends seen flat_map] in Hm.
    rewrite app_nil_r in Hm.
    apply (ends_lit_startswith _ []).
    destruct (ends (Lit (txt "type GameCostLineItem")) (Cursor [] b));
      [discriminate Hm | discriminate]. }
  apply startswith_app in Hstart.
  set (rest := skipn (length (txt "type GameCostLineItem")) b) in Hstart.
  assert (Hfind : find (has_match b) FILE_MAPPINGS
                  = nth_error FILE_MAPPINGS 2).
  { rewrite find_has_match_at_start. rewrite Hstart. clearbody rest.
    vm_compute. reflexivity. }
  split; [vm_compute; tauto|]. split.
  - unfold classify, first_category. fold (has_match b). rewrite Hfind.
    reflexivity.
  - rewrite for_filename_run by exact Hkeys. rewrite Hfind.
    cbn [nth_error FILE_MAPPINGS]. unfold hit. cbn [fst block files_content].
    eexists. split; [reflexivity|].
    rewrite getitem_add by (apply Hkeys; cbn; tauto).
    reflexivity.
Qed.

Lemma X5_line_item_goes_to_games_witness :
  classify LINE_ITEM_BLOCK = Some GAMES.
Proof.
  destruct (X5_line_item_goes_to_games LINE_ITEM_BLOCK initial_files_content
              empty_world) as [_ [H _]].
  - reflexivity.
  - vm_compute. reflexivity.
  - exact H.
Defined.

(* ================================================================== *)
(** * Further properties: blocks and white space *)
(* ================================================================== *)

Lemma lstrip_blank (s : str) : blank s = true -> lstrip s = [].
Proof.
  unfold blank. induction s as [|c s IH]; intros H; [reflexivity|].
  cbn [forallb] in H. apply andb_true_iff in H as [Hc Hs].
  cbn [lstrip]. rewrite Hc. now apply IH.
Qed.

Lemma strip_blank (s : str) : blank s = true -> strip s = [].
Proof. intros H. unfold strip. now rewrite lstrip_blank. Qed.

Lemma universal_newlines_blank_upto (n : nat) :
  forall s, length s <= n -> blank s = true ->
            blank (universal_newlines s) = true.
Proof.
  unfold blank. induction n as [|n IH]; intros s Hn Hs.
  - destruct s; [reflexivity | cbn in Hn; lia].
  - destruct s as [|c s]; [reflexivity|].
    cbn [forallb] in Hs. apply andb_true_iff in Hs as [Hc Hs].
    cbn [universal_newlines]. cbn [length] in Hn.
    destruct (Ascii.eqb c CR).
    + destruct s as [|d s]; [reflexivity|].
      cbn [forallb] in Hs. apply andb_true_iff in Hs as [Hd Hs'].
      destruct (Ascii.eqb d LF); cbn [forallb];
        change (isspace LF) with true; cbn [andb].
      * apply IH; [cbn [length] in Hn; lia | exact Hs'].
      * apply IH; [lia|]. cbn [forallb]. now rewrite Hd.
    + cbn [forallb]. rewrite Hc. cbn [andb]. apply IH; [lia | exact Hs].
Qed.

Lemma universal_newlines_blank (s : str) :
  blank s = true -> blank (universal_newlines s) = true.
Proof. now apply (universal_newlines_blank_upto (length s)). Qed.

Lemma piece_chars (content p : str) (x : ascii) :
  In p (split pattern content) -> In x p -> In x content.
Proof.
  intros Hp Hx.
  rewrite <- (split_ahead_concat pattern_body content). fold pattern.
  apply in_concat. now exists p.
Qed.

(** A document of white space only has no block to classify. *)
Lemma blank_kept_blocks (content : str) :
  blank content = true -> kept_blocks content = [].
Proof.
  intros Hb. unfold kept_blocks.
  assert (H : forall pieces,
             (forall p, In p pieces -> blank p = true) ->
             filter kept (map strip pieces) = []).
  { induction pieces as [|p pieces IH]; intros Hall; [reflexivity|].
    cbn [map filter]. rewrite strip_blank by (apply Hall; now left).
    cbn. apply IH. intros q Hq. apply Hall. now right. }
  apply H. intros p Hp. unfold blank in *.
  rewrite forallb_forall in *. intros x Hx.
  apply Hb. eapply piece_chars; eassumption.
Qed.

(** X6: a document that is empty or holds white space only gives ten
    category files that hold their two header lines and nothing else;
    the run ends normally. *)
Theorem X6_blank_document (w : World) (raw : str) :
  fs w SOURCE_FILE = Some (File raw) ->
  output_ok w = true ->
  blank raw = true ->
  exists w',
    split_schema w = (Val tt, w')
    /\ forall k, In k (keys FILE_MAPPINGS) ->
         fs w' (path_of k) = Some (File (header k ++ BANNER)).
Proof.
  intros Hsrc Hok Hb.
  destruct (split_schema_run w raw Hsrc Hok) as [w' [Hrun [_ Hfs]]].
  cbv zeta in Hfs.
  rewrite blank_kept_blocks in Hfs by now apply universal_newlines_blank.
  exists w'. split; [exact Hrun|]. intros k Hin.
  rewrite Hfs, written_at_category by exact Hin.
  cbn [fst snd]. unfold file_text, stored_for.
  cbn [filter map blank_line_joined]. now rewrite app_nil_r.
Qed.

Lemma X6_blank_document_witness :
  exists w',
    split_schema (world_with [LF; " "; LF]) = (Val tt, w')
    /\ forall k, In k (keys FILE_MAPPINGS) ->
         fs w' (path_of k) = Some (File (header k ++ BANNER)).
Proof.
  apply (X6_blank_document (world_with [LF; " "; LF]) [LF; " "; LF]);
    reflexivity.
Defined.

Lemma lstrip_head (s : str) :
  lstrip s = [] \/ exists c t, lstrip s = c :: t /\ isspace c = false.
Proof.
  induction s as [|x s IH]; [now left|]. cbn [lstrip].
  destruct (isspace x) eqn:E; [exact IH|]. right. now exists x, s.
Qed.

Lemma rstrip_cons (c : ascii) (s : str) :
  isspace c = false -> rstrip (c :: s) = c :: rstrip s.
Proof.
  intros Hc. unfold rstrip. cbn [rev]. rewrite lstrip_snoc by exact Hc.
  now rewrite rev_app_distr.
Qed.

Lemma rstrip_last (s : str) :
  rstrip s = [] \/ exists t c, rstrip s = t ++ [c] /\ isspace c = false.
Proof.
  unfold rstrip. destruct (lstrip_head (rev s)) as [-> | [c [t [-> Hc]]]].
  - now left.
  - right. exists (rev t), c. split; [reflexivity | exact Hc].
Qed.

(** A trimmed text is empty, or opens and closes with a character that
    is no white space. *)
Lemma strip_shape (s : str) :
  strip s = []
  \/ ((exists c t, strip s = c :: t /\ isspace c = false)
      /\ (exists t c, strip s = t ++ [c] /\ isspace c = false)).
Proof.
  unfold strip. destruct (lstrip_head s) as [-> | [c [t [-> Hc]]]].
  - now left.
  - right. split.
    + exists c, (rstrip t). split; [now apply rstrip_cons | exact Hc].
    + destruct (rstrip_last (c :: t)) as [E | H]; [|exact H].
      rewrite rstrip_cons in E by exact Hc. discriminate E.
Qed.

Lemma head_char_sound (r : regex) (c : ascii) :
  head_char r = Some c ->
  forall passed b, ends r (Cursor passed b) <> [] -> exists t, b = c :: t.
Proof.
  induction r as [a| | | | | | |r1 IH1 r2 _| | |]; try discriminate.
  - intros [= ->] passed b. cbn [ends]. unfold eat. cbn [ahead].
    destruct b as [|x t]; [congruence|].
    destruct (Ascii.eqb c x) eqn:E; [|congruence].
    apply Ascii.eqb_eq in E. subst. intros _. now exists t.
  - cbn [head_char]. intros Hh passed b. cbn [ends]. intros Hne.
    apply (IH1 Hh passed b). intros E. rewrite E in Hne.
    now apply Hne.
Qed.

Lemma first_char_sound (pat : regex) (c : ascii) (b : str) :
  first_char pat = Some c ->
  matches_at_start b pat = true ->
  exists t, b = c :: t.
Proof.
  unfold matches_at_start, match_at.
  destruct pat as [| | | | | | |r1 r2| | |]; try discriminate.
  destruct r1; try discriminate.
  cbn [first_char ends seen flat_map]. rewrite app_nil_r.
  intros Hh Hm. apply (head_char_sound r2 c Hh [] b).
  intros E. rewrite E in Hm. discriminate Hm.
Qed.

Lemma table_patterns_open_type_or_input :
  forallb opens_type_or_input table_patterns = true.
Proof. vm_compute. reflexivity. Qed.

(** A block that some pattern of the table matches opens with [t] or
    with [i]. *)
Lemma classified_first_char (b k : str) :
  classify b = Some k ->
  exists c t, b = c :: t /\ (c = "t"%char \/ c = "i"%char).
Proof.
  unfold classify, first_category. fold (has_match b).
  destruct (find (has_match b) FILE_MAPPINGS) as [[k' pats]|] eqn:E;
    [|discriminate].
  intros _. apply find_some in E as [Hitem Hm].
  unfold has_match in Hm. cbn [snd] in Hm.
  apply existsb_exists in Hm as [pat [Hpat Hm]].
  assert (Hin : In pat table_patterns)
    by (eapply in_table_patterns; eassumption).
  rewrite matches_anchored in Hm by now apply table_pattern_anchored.
  pose proof table_patterns_open_type_or_input as Hall.
  rewrite forallb_forall in Hall. specialize (Hall pat Hin).
  unfold opens_type_or_input in Hall.
  destruct (first_char pat) as [c|] eqn:Ec; [|discriminate].
  destruct (first_char_sound pat c b Ec Hm) as [t ->].
  exists c, t. split; [reflexivity|].
  apply orb_true_iff in Hall as [H|H]; apply Ascii.eqb_eq in H; tauto.
Qed.

Lemma in_split_last (c : ascii) (b : str) :
  In c b -> exists pre post, b = pre ++ c :: post /\ ~ In c post.
Proof.
  induction b as [|x b IH]; intros Hin; [destruct Hin|].
  destruct (in_dec ascii_dec c b) as [Hb | Hb].
  - destruct (IH Hb) as [pre [post [-> Hn]]].
    now exists (x :: pre), post.
  - destruct Hin as [-> | Hin]; [|contradiction].
    now exists [], b.
Qed.

(** The patch keeps the first character of a block that does not open
    with a brace. *)
Lemma patched_first_char (c : ascii) (t : str) :
  c <> "}"%char -> exists t', patched (c :: t) = c :: t'.
Proof.
  intros Hc. destruct (in_dec ascii_dec "}"%char (c :: t)) as [Hin | Hn].
  - destruct (in_split_last _ _ Hin) as [pre [post [E Hpost]]].
    rewrite E. rewrite patched_last_brace by exact Hpost.
    destruct pre as [|x pre].
    + cbn [app] in E. injection E as E _. congruence.
    + cbn [app] in E. injection E as <- _. cbn [app]. eauto.
  - rewrite patched_no_brace by exact Hn. eauto.
Qed.

(** What is stored for a kept block opens with a character that is no
    white space, and not with "enum ". *)
Lemma stored_opening (b : str) :
  kept b = true -> strip b = b ->
  startswith (txt "enum ") (stored b) = false
  /\ exists c t, stored b = c :: t /\ isspace c = false.
Proof.
  intros Hkept Hstrip. unfold kept in Hkept.
  apply andb_true_iff in Hkept as [Hne Henum].
  apply negb_true_iff in Hne, Henum.
  assert (Hown : exists c t, b = c :: t /\ isspace c = false).
  { destruct (strip_shape b) as [E | [H _]]; rewrite Hstrip in *.
    - rewrite E in Hne. discriminate Hne.
    - exact H. }
  unfold stored. destruct (classify b) as [k|] eqn:Ec; [|now split].
  unfold stored_at. destruct (patch_fires k b); [|now split].
  destruct (classified_first_char b k Ec) as [c [t [-> Hc]]].
  destruct (patched_first_char c t) as [t' ->];
    [destruct Hc as [-> | ->]; discriminate|].
  split.
  - destruct Hc as [-> | ->]; reflexivity.
  - exists c, t'. split; [reflexivity|].
    destruct Hc as [-> | ->]; reflexivity.
Qed.

Lemma strip_idempotent (s : str) : strip (strip s) = strip s.
Proof.
  destruct (strip_shape s) as [-> | [[c [t [E Hc]]] [t' [d [E' Hd]]]]].
  - reflexivity.
  - assert (Hl : lstrip (strip s) = strip s)
      by (rewrite E; cbn [lstrip]; now rewrite Hc).
    unfold strip at 1. rewrite Hl. unfold rstrip. rewrite E'.
    rewrite rev_app_distr. cbn [rev app lstrip]. rewrite Hd.
    cbn [rev]. now rewrite rev_involutive.
Qed.

Lemma kept_blocks_in (content b : str) :
  In b (kept_blocks content) -> kept b = true /\ strip b = b.
Proof.
  unfold kept_blocks. intros H. apply filter_In in H as [Hin Hk].
  split; [exact Hk|]. apply in_map_iff in Hin as [p [<- _]].
  apply strip_idempotent.
Qed.

(** X7: for every document, every entry of every category list is not
    empty, opens with a character that is no white space, and does not
    open with "enum ": an enum that the skip test recognises never
    reaches a file, patched or not. *)
Theorem X7_no_entry_opens_with_enum (content : str) (w : World) :
  exists fc w',
    for_block (split pattern content) initial_files_content w = (Val fc, w')
    /\ forall k blocks text,
         getitem fc k = Some blocks -> In text blocks ->
         startswith (txt "enum ") text = false
         /\ exists c t, text = c :: t /\ isspace c = false.
Proof.
  rewrite for_block_document. eexists. eexists. split; [reflexivity|].
  intros k blocks text Hget Hin.
  assert (Hk : In k table_keys).
  { apply getitem_some_in in Hget. exact Hget. }
  rewrite getitem_files_content_of in Hget by exact Hk.
  injection Hget as <-. unfold stored_for in Hin.
  apply in_map_iff in Hin as [b [<- Hb]].
  apply filter_In in Hb as [Hb _].
  apply kept_blocks_in in Hb as [Hkept Hstrip].
  now apply stored_opening.
Qed.

Lemma filter_length (A : Type) (f : A -> bool) (l : list A) :
  length (filter f l) <= length l.
Proof.
  induction l as [|a l IH]; [reflexivity|]. cbn [filter].
  destruct (f a); cbn [length]; lia.
Qed.

(** X8: the numbers of the report.  For every document the counts of
    the ten category lists add up to the number of blocks that are not
    empty and not skipped as enums; this number is at most the number
    of pieces that the "Found ... blocks" line reports, since that line
    also counts the empty pieces and the enums. *)
Theorem X8_counts_add_up (content : str) (w : World) :
  exists fc w',
    for_block (split pattern content) initial_files_content w = (Val fc, w')
    /\ list_sum (map (fun item => length (snd item)) fc)
       = length (kept_blocks content)
    /\ length (kept_blocks content) <= length (split pattern content).
Proof.
  rewrite for_block_document. eexists. eexists. split; [reflexivity|].
  split.
  - rewrite <- assign_initial.
    pose proof (concat_assign (kept_blocks content) initial_files_content
                  eq_refl) as Hperm.
    apply Permutation_length in Hperm.
    rewrite length_concat, map_map in Hperm. rewrite Hperm.
    change (concat (map snd initial_files_content)) with (@nil str).
    cbn [app]. apply length_map.
  - unfold kept_blocks.
    etransitivity; [apply filter_length|]. now rewrite length_map.
Qed.

(* ================================================================== *)
(** * Further properties: line ends *)
(* ================================================================== *)

Lemma universal_newlines_no_cr_upto (n : nat) :
  forall s, length s <= n -> ~ In CR (universal_newlines s).
Proof.
  induction n as [|n IH]; intros s Hn.
  - destruct s; [intros [] | cbn in Hn; lia].
  - destruct s as [|c s]; [intros []|].
    cbn [universal_newlines]. cbn [length] in Hn.
    destruct (Ascii.eqb c CR) eqn:Ec.
    + destruct s as [|d s].
      * intros [H|[]]. discriminate H.
      * destruct (Ascii.eqb d LF); intros [H|H]; try discriminate H;
          revert H; apply IH; cbn [length] in *; lia.
    + intros [H|H].
      * subst c. now rewrite Ascii.eqb_refl in Ec.
      * revert H. apply IH. lia.
Qed.

(** Text read from a file holds no carriage return. *)
Lemma universal_newlines_no_cr (s : str) : ~ In CR (universal_newlines s).
Proof. now apply (universal_newlines_no_cr_upto (length s)). Qed.

Lemma lstrip_chars (s : str) (x : ascii) : In x (lstrip s) -> In x s.
Proof.
  induction s as [|c s IH]; [tauto|]. cbn [lstrip].
  destruct (isspace c); [|tauto]. intros H. right. now apply IH.
Qed.

Lemma strip_chars (s : str) (x : ascii) : In x (strip s) -> In x s.
Proof.
  unfold strip, rstrip. intros H. apply in_rev in H.
  apply lstrip_chars in H. apply in_rev in H. now apply lstrip_chars.
Qed.

Lemma firstn_chars (n : nat) (s : str) (x : ascii) :
  In x (firstn n s) -> In x s.
Proof.
  intros H. rewrite <- (firstn_skipn n s). apply in_or_app. now left.
Qed.

Lemma skipn_chars (n : nat) (s : str) (x : ascii) :
  In x (skipn n s) -> In x s.
Proof.
  intros H. rewrite <- (firstn_skipn n s). apply in_or_app. now right.
Qed.

Lemma stored_chars (b : str) (x : ascii) :
  In x (stored b) -> In x b \/ In x GAME_ADDITIONS.
Proof.
  unfold stored. destruct (classify b) as [k|]; [|tauto].
  unfold stored_at. destruct (patch_fires k b); [|tauto].
  unfold patched. destruct (negb _); [|tauto].
  unfold slice_to, slice_from. intros H.
  apply in_app_or in H as [H|H]; [left; eapply firstn_chars; exact H|].
  apply in_app_or in H as [H|H]; [now right|].
  left. eapply skipn_chars. exact H.
Qed.

Lemma join_chars (sep : str) (parts : list str) (x : ascii) :
  In x (join sep parts) -> In x sep \/ exists p, In p parts /\ In x p.
Proof.
  induction parts as [|p parts IH]; [intros []|].
  destruct parts as [|q parts].
  - cbn [join]. intros H. right. exists p. split; [now left | exact H].
  - change (join sep (p :: q :: parts))
      with (p ++ sep ++ join sep (q :: parts)).
    intros H. apply in_app_or in H as [H|H].
    + right. exists p. split; [now left | exact H].
    + apply in_app_or in H as [H|H]; [now left|].
      destruct (IH H) as [Hs | [p' [Hp' Hx]]]; [now left|].
      right. exists p'. split; [now right | exact Hx].
Qed.

Lemma no_cr_in_fixed_texts :
  existsb (Ascii.eqb CR) GAME_ADDITIONS = false
  /\ existsb (Ascii.eqb CR) BANNER = false
  /\ forallb (fun k => negb (existsb (Ascii.eqb CR) (header k)))
       (keys FILE_MAPPINGS) = true.
Proof. vm_compute. repeat split; reflexivity. Qed.

Lemma not_in_by_test (c : ascii) (s : str) :
  existsb (Ascii.eqb c) s = false -> ~ In c s.
Proof.
  intros H Hin.
  assert (E : existsb (Ascii.eqb c) s = true)
    by (apply existsb_exists; exists c; split;
        [exact Hin | apply Ascii.eqb_refl]).
  congruence.
Qed.

(** X9: carriage returns do not reach the output.  Whatever line ends
    the source file has, no category file written by a run holds a
    carriage return character. *)
Theorem X9_no_carriage_return_in_output (w : World) (raw : str) :
  fs w SOURCE_FILE = Some (File raw) ->
  output_ok w = true ->
  exists w',
    split_schema w = (Val tt, w')
    /\ forall k, In k (keys FILE_MAPPINGS) ->
         exists text,
           fs w' (path_of k) = Some (File text) /\ ~ In CR text.
Proof.
  intros Hsrc Hok.
  destruct (split_schema_run w raw Hsrc Hok) as [w' [Hrun [_ Hfs]]].
  cbv zeta in Hfs. exists w'. split; [exact Hrun|]. intros k Hin.
  rewrite Hfs, written_at_category by exact Hin. cbn [fst snd].
  eexists. split; [reflexivity|].
  destruct no_cr_in_fixed_texts as [Hga [Hbanner Hkeys]].
  rewrite forallb_forall in Hkeys. specialize (Hkeys k Hin).
  apply negb_true_iff in Hkeys.
  unfold file_text. intros H.
  apply in_app_or in H as [H|H]; [now apply (not_in_by_test _ _ Hkeys)|].
  apply in_app_or in H as [H|H]; [now apply (not_in_by_test _ _ Hbanner)|].
  rewrite <- join_blank_lines in H.
  apply join_chars in H as [H | [text [Htext Hx]]].
  { destruct H as [H|[H|[]]]; discriminate H. }
  unfold stored_for in Htext. apply in_map_iff in Htext as [b [<- Hb]].
  apply filter_In in Hb as [Hb _].
  apply stored_chars in Hx as [Hx|Hx];
    [|now apply (not_in_by_test _ _ Hga)].
  unfold kept_blocks in Hb. apply filter_In in Hb as [Hb _].
  apply in_map_iff in Hb as [p [<- Hp]].
  apply strip_chars in Hx.
  apply (universal_newlines_no_cr raw).
  eapply piece_chars; eassumption.
Qed.

Lemma X9_no_carriage_return_in_output_witness :
  exists w',
    split_schema (world_with (txt "type Query { a: Int }" ++ [CR; LF]))
    = (Val tt, w')
    /\ forall k, In k (keys FILE_MAPPINGS) ->
         exists text,
           fs w' (path_of k) = Some (File text) /\ ~ In CR text.
Proof.
  apply (X9_no_carriage_return_in_output
           (world_with (txt "type Query { a: Int }" ++ [CR; LF]))
           (txt "type Query { a: Int }" ++ [CR; LF]));
    reflexivity.
Defined.

(* ================================================================== *)
(** * Further properties: when the output cannot be written *)
(* ================================================================== *)

Lemma open_w_not_a_directory (k c : str) (w : World) :
  in_output_dir k = true ->
  fs w OUTPUT_DIR = Some (File c) ->
  open_w (path_of k) w
  = (Exc NotADirectoryError, logged w [EOpenWrite (path_of k)]).
Proof.
  intros Hin Hd. unfold open_w.
  assert (E : emit (EOpenWrite (path_of k)) w
              = (Val tt, logged w [EOpenWrite (path_of k)])) by reflexivity.
  rewrite (bind_run _ _ _ _ _ E). apply bind_raise. unfold reach.
  unfold in_output_dir in Hin. apply andb_true_iff in Hin as [Hin _].
  apply strs_eqb_eq in Hin. rewrite Hin.
  destruct (fs_some w _ _ Hd) as [Hway Hnode].
  change (nodes (logged w [EOpenWrite (path_of k)])) with (nodes w).
  rewrite way_error_app, Hway. cbn [way_error]. now rewrite Hnode.
Qed.

Lemma open_w_is_a_directory (path : str) (w : World) :
  fs w path = Some Dir ->
  open_w path w = (Exc IsADirectoryError, logged w [EOpenWrite path]).
Proof.
  intros Hp. unfold open_w.
  assert (E : emit (EOpenWrite path) w
              = (Val tt, logged w [EOpenWrite path])) by reflexivity.
  rewrite (bind_run _ _ _ _ _ E).
  destruct (fs_some w _ _ Hp) as [Hway _].
  rewrite (bind_run _ _ _ _ _ (reach_run path (logged w [EOpenWrite path]) Hway)).
  unfold bind, stat. now rewrite fs_logged, Hp.
Qed.

(** X10: when the output path exists but is a regular file, the script
    creates no directory, reads and sorts the document, and then
    raises [NotADirectoryError] at the first category file.  Nothing
    is written and no path changes. *)
Theorem X10_output_path_is_a_file (w : World) (raw c : str) :
  fs w SOURCE_FILE = Some (File raw) ->
  fs w OUTPUT_DIR = Some (File c) ->
  let content := universal_newlines raw in
  exists w',
    split_schema w = (Exc NotADirectoryError, w')
    /\ (forall q, fs w' q = fs w q)
    /\ log w' =
       log w
       ++ [EExists OUTPUT_DIR; EOpenRead SOURCE_FILE; found_message content]
       ++ flat_map patch_log (kept_blocks content)
       ++ [EOpenWrite (path_of ENTITIES)].
Proof.
  intros Hsrc Hout content. unfold split_schema.
  pose proof (way_of_source w _ Hsrc) as Hway.
  rewrite (bind_run _ _ _ _ _ (ensure_output_dir_run w Hway)).
  assert (Hfs : forall q, fs (after_setup w) q = fs w q).
  { intros q. rewrite fs_after_setup by exact Hway.
    unfold setup_fs. now rewrite Hout. }
  assert (Hev : setup_events w = [EExists OUTPUT_DIR])
    by (unfold setup_events; now rewrite Hout).
  assert (Hsrc' : fs (after_setup w) SOURCE_FILE = Some (File raw))
    by now rewrite Hfs.
  unfold bind at 1. unfold try. rewrite (read_text_run _ _ Hsrc').
  fold content.
  unfold process. cbv zeta.
  rewrite (bind_run _ _ _ _ _ (print_run _ _)).
  rewrite (bind_run _ _ _ _ _ (for_block_document content _)).
  change (files_content_of (kept_blocks content))
    with ((ENTITIES, stored_for ENTITIES (kept_blocks content))
          :: map (fun k => (k, stored_for k (kept_blocks content)))
               (tl table_keys)).
  cbn [for_item]. change (str_eqb ENTITIES (txt "00-enums.graphql")) with false.
  cbv iota. fold (path_of ENTITIES).
  erewrite bind_raise; cycle 1.
  { erewrite bind_raise; [reflexivity|].
    apply (open_w_not_a_directory ENTITIES c).
    - vm_compute. reflexivity.
    - now rewrite !fs_logged, Hfs. }
  eexists. split; [reflexivity|]. split.
  - intros q. now rewrite !fs_logged, Hfs.
  - cbn [logged log]. rewrite log_after_setup, Hev. unfold found_message.
    rewrite <- !app_assoc. reflexivity.
Qed.

Lemma X10_output_path_is_a_file_witness :
  let w := world_of (PROJECT_DIRS ++ [(SOURCE_FILE, File SCENARIO);
                                      (OUTPUT_DIR, File [])]) in
  exists w',
    split_schema w = (Exc NotADirectoryError, w')
    /\ (forall q, fs w' q = fs w q)
    /\ log w' =
       log w
       ++ [EExists OUTPUT_DIR; EOpenRead SOURCE_FILE;
           found_message (universal_newlines SCENARIO)]
       ++ flat_map patch_log (kept_blocks (universal_newlines SCENARIO))
       ++ [EOpenWrite (path_of ENTITIES)].
Proof.
  cbv zeta.
  apply (X10_output_path_is_a_file
           (world_of (PROJECT_DIRS ++ [(SOURCE_FILE, File SCENARIO);
                                       (OUTPUT_DIR, File [])]))
           SCENARIO []);
    vm_compute; reflexivity.
Defined.

Lemma for_item_app (d1 d2 : dict) :
  forall w, for_item (d1 ++ d2) w = bind (for_item d1) (fun _ => for_item d2) w.
Proof.
  induction d1 as [|[filename blocks] d1 IH]; intros w; [reflexivity|].
  cbn [app for_item].
  destruct (str_eqb filename (txt "00-enums.graphql")); [apply IH|].
  unfold bind.
  destruct (open_w _ w) as [[[]|e] w1]; [|reflexivity].
  destruct (f_write _ _ w1) as [[[]|e] w2]; [|reflexivity].
  destruct (f_write _ _ w2) as [[[]|e] w3]; [|reflexivity].
  destruct (f_write _ _ w3) as [[[]|e] w4]; [|reflexivity].
  destruct (print _ w4) as [[[]|e] w5]; [|reflexivity].
  apply IH.
Qed.

Lemma enums_is_no_category : ~ In ENUMS (keys FILE_MAPPINGS).
Proof.
  intros H. vm_compute in H.
  repeat (destruct H as [H|H]; [discriminate H|]). exact H.
Qed.

Lemma category_paths_nodup : NoDup category_paths.
Proof.
  assert (H : forall (l : list str),
             (fix chk (l : list str) : bool :=
                match l with
                | [] => true
                | x :: l' => negb (existsb (str_eqb x) l') && chk l'
                end) l = true -> NoDup l).
  { induction l as [|x l IH]; intros Hc; constructor.
    - apply andb_true_iff in Hc as [Hx _]. intros Hin.
      apply negb_true_iff in Hx.
      assert (existsb (str_eqb x) l = true)
        by (apply existsb_exists; exists x; split;
            [exact Hin | apply str_eqb_refl]).
      congruence.
    - apply IH. now apply andb_true_iff in Hc as [_ Hc]. }
  apply H. vm_compute. reflexivity.
Qed.

(** The items of a list of categories that holds no placeholder. *)
Lemma written_categories (f : str -> list str) (ks : list str) :
  ~ In ENUMS ks ->
  written (map (fun k => (k, f k)) ks) = map (fun k => (k, f k)) ks.
Proof.
  induction ks as [|k ks IH]; intros Hn; [reflexivity|].
  cbn [map]. rewrite written_cons.
  assert (E : str_eqb k (txt "00-enums.graphql") = false).
  { apply str_eqb_neq. intros ->. apply Hn. now left. }
  rewrite E. f_equal. apply IH. intros H. apply Hn. now right.
Qed.

Lemma written_at_other_path (f : str -> list str) (ks : list str) (q : str) :
  ~ In ENUMS ks ->
  ~ In q (map path_of ks) ->
  written_at (map (fun k => (k, f k)) ks) q = None.
Proof.
  intros Hn Hq. apply written_at_none. intros k Hin.
  rewrite written_categories in Hin by exact Hn.
  unfold keys in Hin. rewrite map_map in Hin. cbn [fst] in Hin.
  rewrite map_id in Hin.
  apply str_eqb_neq. intros ->. apply Hq. now apply in_map.
Qed.

Lemma written_at_own_path (f : str -> list str) (ks : list str) (k : str) :
  ~ In ENUMS ks ->
  NoDup (map path_of ks) ->
  In k ks ->
  written_at (map (fun k => (k, f k)) ks) (path_of k) = Some (k, f k).
Proof.
  intros Hn Hnd Hin. unfold written_at.
  rewrite written_categories by exact Hn.
  induction ks as [|a ks IH]; [destruct Hin|].
  cbn [map] in *. rewrite find_rev_snoc. cbn [fst].
  inversion Hnd as [|? ? Hnotin Hnd']; subst.
  assert (Hn' : ~ In ENUMS ks) by (intros H; apply Hn; now right).
  destruct (in_dec (list_eq_dec ascii_dec) k ks) as [Hk | Hk].
  - now rewrite IH.
  - destruct Hin as [-> | Hin]; [|contradiction].
    pose proof (written_at_other_path f ks (path_of k) Hn' Hnotin) as E.
    unfold written_at in E. rewrite written_categories in E by exact Hn'.
    rewrite E. now rewrite str_eqb_refl.
Qed.

Lemma nodup_app_disjoint {A} (l1 l2 : list A) (a : A) :
  NoDup (l1 ++ l2) -> In a l1 -> ~ In a l2.
Proof.
  induction l1 as [|x l1 IH]; intros Hnd Hin; [destruct Hin|].
  cbn [app] in Hnd. inversion Hnd as [|? ? Hx Hnd']; subst.
  destruct Hin as [-> | Hin].
  - intros H2. apply Hx. apply in_or_app. now right.
  - now apply IH.
Qed.

Lemma setup_fs_output_dir' (w : World) :
  fs w OUTPUT_DIR = None \/ fs w OUTPUT_DIR = Some Dir ->
  setup_fs w OUTPUT_DIR = Some Dir.
Proof.
  unfold setup_fs. intros [E | E]; rewrite E; [|exact E].
  now rewrite str_eqb_refl.
Qed.

(** X11: writing is file by file, not all or nothing.  When the path
    of one category names a directory, the files of the categories
    before it in the order of the table are written in full, the run
    raises [IsADirectoryError] at that category, and the paths of that
    category and of the later ones stay as they were. *)
Theorem X11_write_stops_at_a_directory
  (w : World) (raw : str) (pre post : list str) (k0 : str) :
  fs w SOURCE_FILE = Some (File raw) ->
  fs w OUTPUT_DIR = None \/ fs w OUTPUT_DIR = Some Dir ->
  keys FILE_MAPPINGS = pre ++ k0 :: post ->
  (forall k, In k pre -> fs w (path_of k) <> Some Dir) ->
  fs w (path_of k0) = Some Dir ->
  let content := universal_newlines raw in
  let bs := kept_blocks content in
  exists w',
    split_schema w = (Exc IsADirectoryError, w')
    /\ (forall k, In k pre ->
          fs w' (path_of k)
          = Some (File (header k ++ BANNER
                        ++ blank_line_joined (stored_for k bs))))
    /\ (forall k, In k (k0 :: post) -> fs w' (path_of k) = fs w (path_of k))
    /\ log w' =
       log w ++ setup_events w
       ++ [EOpenRead SOURCE_FILE; found_message content]
       ++ flat_map patch_log bs
       ++ flat_map file_events (map (fun k => (k, stored_for k bs)) pre)
       ++ [EOpenWrite (path_of k0)].
Proof.
  intros Hsrc Hout Hcut Hpre Hk0 content bs.
  set (g := fun k => (k, stored_for k bs)).
  assert (Hsub : forall k, In k pre -> In k (keys FILE_MAPPINGS))
    by (intros k Hin; rewrite Hcut; apply in_or_app; now left).
  assert (Hk0in : In k0 (keys FILE_MAPPINGS))
    by (rewrite Hcut; apply in_or_app; right; now left).
  assert (Hpost : forall k, In k (k0 :: post) -> In k (keys FILE_MAPPINGS))
    by (intros k Hin; rewrite Hcut; apply in_or_app; now right).
  assert (Hnen : ~ In ENUMS pre)
    by (intros H; apply enums_is_no_category; now apply Hsub).
  pose proof category_paths_nodup as Hnd. unfold category_paths in Hnd.
  rewrite Hcut, map_app in Hnd.
  assert (Hndpre : NoDup (map path_of pre))
    by (apply NoDup_app_remove_r in Hnd; exact Hnd).
  assert (Hlater : forall k, In k (k0 :: post) ->
                     ~ In (path_of k) (map path_of pre)).
  { intros k Hin Hp. revert Hp. intros Hp.
    apply (nodup_app_disjoint _ _ (path_of k) Hnd Hp). now apply in_map. }
  (* the run up to the writer *)
  unfold split_schema.
  pose proof (way_of_source w _ Hsrc) as Hway.
  rewrite (bind_run _ _ _ _ _ (ensure_output_dir_run w Hway)).
  assert (Hsrc' : fs (after_setup w) SOURCE_FILE = Some (File raw)).
  { rewrite fs_after_setup by exact Hway.
    rewrite setup_fs_other by reflexivity. exact Hsrc. }
  unfold bind at 1. unfold try. rewrite (read_text_run _ _ Hsrc').
  fold content. unfold process. cbv zeta.
  rewrite (bind_run _ _ _ _ _ (print_run _ _)).
  rewrite (bind_run _ _ _ _ _ (for_block_document content _)).
  fold bs.
  set (w2 := logged (logged (logged (after_setup w) [EOpenRead SOURCE_FILE])
                       [EPrint _]) (flat_map patch_log bs)).
  assert (Hfs2 : forall q, fs w2 q = setup_fs w q).
  { intros q. unfold w2. rewrite !fs_logged. now apply fs_after_setup. }
  (* the dictionary, cut at the category that fails *)
  assert (Hdict : files_content_of bs
                  = map g pre ++ g k0 :: map g (post ++ [ENUMS])).
  { unfold files_content_of. rewrite table_keys_eq, Hcut.
    rewrite <- app_assoc. cbn [app]. rewrite map_app. reflexivity. }
  rewrite Hdict.
  destruct (for_item_run (map g pre) w2) as [w3 [Hrun3 [Hlog3 Hfs3]]].
  { rewrite Hfs2. now apply setup_fs_output_dir'. }
  { unfold g. rewrite written_categories by exact Hnen.
    unfold keys. rewrite map_map. cbn [fst]. rewrite map_id.
    apply forallb_forall. intros k Hin.
    pose proof table_in_output_dir as H. rewrite forallb_forall in H.
    now apply H, Hsub. }
  { unfold g. rewrite written_categories by exact Hnen.
    unfold keys. rewrite map_map. cbn [fst]. rewrite map_id.
    intros k Hin. rewrite Hfs2.
    rewrite setup_fs_other by now apply path_of_not_output_dir, Hsub.
    now apply Hpre. }
  erewrite bind_raise; cycle 1.
  { rewrite for_item_app. rewrite (bind_run _ _ _ _ _ Hrun3).
    unfold g at 1. cbn [for_item].
    assert (E : str_eqb k0 (txt "00-enums.graphql") = false).
    { apply str_eqb_neq. intros ->. now apply enums_is_no_category. }
    rewrite E. fold (path_of k0).
    erewrite bind_raise; [reflexivity|].
    apply open_w_is_a_directory.
    rewrite Hfs3. unfold g.
    rewrite written_at_other_path
      by (exact Hnen || (apply Hlater; now left)).
    rewrite Hfs2.
    rewrite setup_fs_other by now apply path_of_not_output_dir.
    exact Hk0. }
  eexists. split; [reflexivity|]. split; [|split].
  - intros k Hin. rewrite fs_logged, Hfs3. unfold g.
    rewrite written_at_own_path by assumption. reflexivity.
  - intros k Hin. rewrite fs_logged, Hfs3. unfold g.
    rewrite written_at_other_path by (exact Hnen || now apply Hlater).
    rewrite Hfs2. apply setup_fs_other.
    now apply path_of_not_output_dir, Hpost.
  - cbn [logged log]. rewrite Hlog3. unfold g.
    rewrite written_categories by exact Hnen.
    unfold w2, found_message. cbn [logged log]. rewrite log_after_setup.
    rewrite <- !app_assoc. reflexivity.
Qed.

Lemma X11_write_stops_at_a_directory_witness :
  let w := world_of (PROJECT_DIRS ++ [(SOURCE_FILE, File SCENARIO);
                                      (OUTPUT_DIR, Dir);
                                      (path_of GAMES, Dir)]) in
  exists w',
    split_schema w = (Exc IsADirectoryError, w')
    /\ fs w' (path_of ENTITIES)
       = Some (File (header ENTITIES ++ BANNER
                     ++ blank_line_joined
                          (stored_for ENTITIES
                             (kept_blocks (universal_newlines SCENARIO)))))
    /\ fs w' (path_of MUTATIONS) = None.
Proof.
  cbv zeta.
  destruct (X11_write_stops_at_a_directory
              (world_of (PROJECT_DIRS ++ [(SOURCE_FILE, File SCENARIO);
                                          (OUTPUT_DIR, Dir);
                                          (path_of GAMES, Dir)]))
              SCENARIO (firstn 2 (keys FILE_MAPPINGS))
              (skipn 3 (keys FILE_MAPPINGS)) GAMES)
    as [w' [Hrun [Hpre [Hpost _]]]].
  - vm_compute. reflexivity.
  - right. vm_compute. reflexivity.
  - reflexivity.
  - intros k Hin. cbn in Hin.
    destruct Hin as [<- | [<- | []]]; vm_compute; discriminate.
  - vm_compute. reflexivity.
  - exists w'. split; [exact Hrun|]. split.
    + apply Hpre. cbn. tauto.
    + rewrite Hpost by (cbn; tauto). vm_compute. reflexivity.
Defined.

(** X12: only the text after line-end translation counts.  Two source
    files that differ in their line ends alone (so that text mode reads
    the same document from both) give the same ten category files. *)
Theorem X12_line_ends_do_not_matter (w1 w2 : World) (raw1 raw2 : str) :
  fs w1 SOURCE_FILE = Some (File raw1) ->
  fs w2 SOURCE_FILE = Some (File raw2) ->
  output_ok w1 = true ->
  output_ok w2 = true ->
  universal_newlines raw1 = universal_newlines raw2 ->
  exists w1' w2',
    split_schema w1 = (Val tt, w1')
    /\ split_schema w2 = (Val tt, w2')
    /\ forall k, In k (keys FILE_MAPPINGS) ->
         fs w1' (path_of k) = fs w2' (path_of k).
Proof.
  intros Hs1 Hs2 Hok1 Hok2 Heq.
  destruct (split_schema_run w1 raw1 Hs1 Hok1) as [w1' [Hrun1 [_ Hfs1]]].
  destruct (split_schema_run w2 raw2 Hs2 Hok2) as [w2' [Hrun2 [_ Hfs2]]].
  cbv zeta in Hfs1, Hfs2. exists w1', w2'.
  split; [exact Hrun1|]. split; [exact Hrun2|].
  intros k Hin. rewrite Hfs1, Hfs2, Heq.
  now rewrite written_at_category by exact Hin.
Qed.

Lemma X12_line_ends_do_not_matter_witness :
  exists w1' w2',
    split_schema (world_with (txt "type Query { a: Int }" ++ [CR; LF]))
    = (Val tt, w1')
    /\ split_schema (world_with (txt "type Query { a: Int }" ++ [LF]))
       = (Val tt, w2')
    /\ forall k, In k (keys FILE_MAPPINGS) ->
         fs w1' (path_of k) = fs w2' (path_of k).
Proof.
  apply (X12_line_ends_do_not_matter
           (world_with (txt "type Query { a: Int }" ++ [CR; LF]))
           (world_with (txt "type Query { a: Int }" ++ [LF]))
           (txt "type Query { a: Int }" ++ [CR; LF])
           (txt "type Query { a: Int }" ++ [LF]));
    vm_compute; reflexivity.
Defined.
